(** * MyTools GPS suite: the browser scripts and the archive contract

    A shallow embedding of the JavaScript that drives the "Extract GPX
    Parts" web interface (the main script, the results page script) and
    of the short-URL expander of the Google Maps converter with a few
    functions of the converter itself, together with the archive store
    and the extractor as the specification describes them (their Python
    sources are not part of the tree).

    Conventions.
    - A JavaScript string is a Rocq [string] whose characters are read as
      code units below 256 (Latin-1).  [toLowerCase], [trim] and the
      regular expressions are exact on that range.
    - Values that come out of [response.json()] are [JsVal]s; an object
      is a finite map from property names to values, and a number is
      held as the text it prints as.  Converting a value to a string can
      throw.
    - A Number that a script computes with is a binary64 value, with the
      operations of [SpecFloat] in the Standard Library.
    - A script function that touches the page is a state transformer in
      the monad [Eff S], whose result is a normal completion or a thrown
      exception; [try_catch] is the [try]/[catch] statement and the
      [.then(...).catch(...)] chain of a promise.
    - What the network and [Math.random] deliver is an input of the
      model: a [FetchOutcome], a list of draws, a list of expansion
      methods.
    - In the markup the scripts write, the quotes around attribute values
      are given as apostrophes. *)

From Stdlib Require Import ZArith QArith Qpower String Ascii List Lia Lqa DecimalString.
From Stdlib Require Import SpecFloat.
From stdpp Require Import base option gmap strings list.
Import ListNotations.

Set Warnings "-register-all".
Open Scope string_scope.
Open Scope list_scope.

(** ** JavaScript strings, values and completions *)

Module Js.

Definition code_unit (c : ascii) : N := N_of_ascii c.

(** WhiteSpace and LineTerminator code units below 256: TAB, LF, VT, FF,
    CR, SP and NBSP.  These are what [String.prototype.trim] strips. *)
Definition isWhiteSpace (c : ascii) : bool :=
  let n := code_unit c in
  ((9 <=? n) && (n <=? 13) || (n =? 32) || (n =? 160))%N.

(** LineTerminator code units: what [.] in a regular expression refuses. *)
Definition isLineTerminator (c : ascii) : bool :=
  let n := code_unit c in ((n =? 10) || (n =? 13))%N.

Definition isEmpty (s : string) : bool :=
  match s with EmptyString => true | String _ _ => false end.

Fixpoint trimStart (s : string) : string :=
  match s with
  | EmptyString => EmptyString
  | String c s' => if isWhiteSpace c then trimStart s' else s
  end.

Fixpoint trimEnd (s : string) : string :=
  match s with
  | EmptyString => EmptyString
  | String c s' =>
      let t := trimEnd s' in
      if isWhiteSpace c && isEmpty t then EmptyString else String c t
  end.

Definition trim (s : string) : string := trimEnd (trimStart s).

(** [toLowerCase] on one code unit: A-Z, and the Latin-1 capitals
    U+00C0..U+00DE except the multiplication sign U+00D7. *)
Definition lowerChar (c : ascii) : ascii :=
  let n := code_unit c in
  if ((65 <=? n) && (n <=? 90) || (192 <=? n) && (n <=? 222) && negb (n =? 215))%N
  then ascii_of_N (n + 32) else c.

Fixpoint toLowerCase (s : string) : string :=
  match s with
  | EmptyString => EmptyString
  | String c s' => String (lowerChar c) (toLowerCase s')
  end.

Fixpoint startsWith (s p : string) {struct p} : bool :=
  match p with
  | EmptyString => true
  | String c p' =>
      match s with
      | EmptyString => false
      | String d s' => Ascii.eqb d c && startsWith s' p'
      end
  end.

Fixpoint endsWith (s suffix : string) : bool :=
  String.eqb s suffix ||
  match s with
  | EmptyString => false
  | String _ s' => endsWith s' suffix
  end.

Fixpoint includes (s sub : string) : bool :=
  startsWith s sub ||
  match s with
  | EmptyString => false
  | String _ s' => includes s' sub
  end.

Definition Z_to_string (z : Z) : string := NilZero.string_of_int (Z.to_int z).
Definition nat_to_string (n : nat) : string := NilZero.string_of_uint (Nat.to_uint n).

(** Values of the script: what [response.json()] resolves to, plus
    [undefined] for a property that is not there.  A number is held as
    the text that Number::toString gives for it ([7], [-1.5], [1e+21]):
    the scripts print the numbers of a response and test them for truth,
    and do nothing else with them. *)
Inductive JsVal : Type :=
  | JUndefined
  | JNull
  | JBool (b : bool)
  | JNum (printed : string)
  | JStr (s : string)
  | JArr (elems : list JsVal)
  | JObj (fields : gmap string JsVal).

(** ToBoolean; both zeros print as [0]. *)
Definition truthy (v : JsVal) : bool :=
  match v with
  | JUndefined | JNull => false
  | JBool b => b
  | JNum printed => negb (String.eqb printed "0") && negb (String.eqb printed "NaN")
  | JStr s => negb (isEmpty s)
  | JArr _ | JObj _ => true
  end.

(** [a || b] on values. *)
Definition js_or (a b : JsVal) : JsVal := if truthy a then a else b.

(** A completion: a value, or a thrown error with its [message]. *)
Inductive Completion (A : Type) : Type :=
  | Normal (a : A)
  | Throw (message : string).
Arguments Normal {A} a.
Arguments Throw {A} message.

(** ToString, as a template literal, [new Error(v)], [pattern.test(v)]
    and an assignment to [location.href] apply it.  An array is its
    elements joined by commas, [null] and [undefined] elements printing as
    nothing.  An object goes through OrdinaryToPrimitive: no value of a
    parsed response can be called, so with a [toString] key of its own
    there is nothing to call ([Object.prototype.valueOf] answers the
    object itself) and a TypeError is thrown (message in V8's wording);
    without one, [Object.prototype.toString] answers. *)
Fixpoint js_to_string (v : JsVal) : Completion string :=
  match v with
  | JUndefined => Normal "undefined"
  | JNull => Normal "null"
  | JBool true => Normal "true"
  | JBool false => Normal "false"
  | JNum printed => Normal printed
  | JStr s => Normal s
  | JArr elems =>
      let element (x : JsVal) : Completion string :=
        match x with JUndefined | JNull => Normal "" | _ => js_to_string x end in
      (fix join (l : list JsVal) : Completion string :=
         match l with
         | [] => Normal ""
         | [x] => element x
         | x :: rest =>
             match element x with
             | Throw message => Throw message
             | Normal first =>
                 match join rest with
                 | Throw message => Throw message
                 | Normal others => Normal (first +:+ "," +:+ others)
                 end
             end
         end) elems
  | JObj fields =>
      match fields !! "toString" with
      | Some _ => Throw "Cannot convert object to primitive value"
      | None => Normal "[object Object]"
      end
  end.



(** [v.key] for the keys the scripts read ([redirect], [url], [job_id],
    [error], [success]); none of them lives on a prototype, so only an
    object has them.  Reading a property of [null] or [undefined] throws
    a TypeError (message in V8's wording). *)
Definition get_prop (v : JsVal) (key : string) : Completion JsVal :=
  match v with
  | JUndefined =>
      Throw ("Cannot read properties of undefined (reading '" +:+ key +:+ "')")
  | JNull =>
      Throw ("Cannot read properties of null (reading '" +:+ key +:+ "')")
  | JObj fields => Normal (default JUndefined (fields !! key))
  | _ => Normal JUndefined
  end.

(** What a [fetch(...).then(response => response.json())] settles to:
    rejected (network failure, or a body that is not JSON) with the
    error's message, or fulfilled with the parsed body. *)
Inductive FetchOutcome : Type :=
  | Rejected (message : string)
  | Json (data : JsVal).

(** Script code over a page state [S]. *)
Definition Eff (S A : Type) : Type := S -> Completion A * S.

Section Monad.
Context {S : Type}.

Definition ret {A} (a : A) : Eff S A := fun s => (Normal a, s).

Definition bind {A B} (m : Eff S A) (k : A -> Eff S B) : Eff S B :=
  fun s =>
    match m s with
    | (Normal a, s') => k a s'
    | (Throw e, s') => (Throw e, s')
    end.

Definition throw {A} (message : string) : Eff S A := fun s => (Throw message, s).

(** [try { body } catch (error) { handler(error.message) }] *)
Definition try_catch {A} (body : Eff S A) (handler : string -> Eff S A) : Eff S A :=
  fun s =>
    match body s with
    | (Normal a, s') => (Normal a, s')
    | (Throw e, s') => handler e s'
    end.

Definition lift {A} (c : Completion A) : Eff S A := fun s => (c, s).
Definition gets {A} (f : S -> A) : Eff S A := fun s => (Normal (f s), s).
Definition modify (f : S -> S) : Eff S unit := fun s => (Normal tt, f s).

(** [if (c) { m }] *)
Definition when (c : bool) (m : Eff S unit) : Eff S unit := if c then m else ret tt.

(** The page an event handler leaves behind; an exception that escapes
    a handler is reported on the console and changes nothing more. *)
Definition exec {A} (m : Eff S A) (s : S) : S := snd (m s).
End Monad.

#[global] Instance eff_ret {S} : MRet (Eff S) := fun A a => ret a.
#[global] Instance eff_bind {S} : MBind (Eff S) := fun A B k m => bind m k.

End Js.

(** ** Numbers of the scripts

    A Number of the scripts is an IEEE 754 binary64 value.  The Standard
    Library specifies the format and its operations in [SpecFloat]
    (rounding to nearest, ties to even); they are taken from there, with
    53 bits of precision and the exponent bound 1024. *)

Module Double.
Local Open Scope Z_scope.

Definition prec : Z := 53.
Definition emax : Z := 1024.

Definition double : Type := spec_float.

(** The double nearest to [n * 2^e]: that number itself when [n] has at
    most 53 bits and the result is in range. *)
Definition dyadic (n e : Z) : double := binary_normalize prec emax n e false.

(** An integer literal. *)
Definition of_Z (n : Z) : double := dyadic n 0.

(** [x + y], [x * y], [x < y] and [x <= y] on Numbers. *)
Definition add : double -> double -> double := SFadd prec emax.
Definition mul : double -> double -> double := SFmul prec emax.
Definition ltb : double -> double -> bool := SFltb.
Definition leb : double -> double -> bool := SFleb.

(** A value of the format: a finite one has the mantissa and exponent
    that the format gives it. *)
Definition valid : double -> bool := valid_binary prec emax.

Definition is_finite (x : double) : bool :=
  match x with
  | S754_zero _ | S754_finite _ _ _ => true
  | _ => false
  end.

(** The rational number that a finite double is. *)
Definition to_Q (x : double) : Q :=
  match x with
  | S754_finite s m e => ((if s then -1 else 1) * inject_Z (Zpos m) * 2 ^ e)%Q
  | _ => 0%Q
  end.

(** *** Doubles counted in units of 2^-1074

    Every finite double is a whole number of units of 2^-1074, the
    smallest positive double.  The definitions below say in those units
    what the operations compute on doubles that are zero or positive;
    the proofs relate them to [SpecFloat]. *)

Definition units (x : double) : Z :=
  match x with
  | S754_finite _ m e => Zpos m * 2 ^ (e + 1074)
  | _ => 0
  end.

(** Zero, or positive and finite in its canonical form. *)
Definition good (x : double) : Prop :=
  match x with
  | S754_zero _ => True
  | S754_finite false m e => bounded prec emax m e = true
  | _ => False
  end.

(** [k / 2^n] rounded to the nearest integer, a tie to the even one. *)
Definition nearest_even (k n : Z) : Z :=
  let q := k / 2 ^ n in
  match 2 * (k mod 2 ^ n) ?= 2 ^ n with
  | Lt => q
  | Eq => if Z.even q then q else q + 1
  | Gt => q + 1
  end.

(** A number of units rounded to a double: 53 significant bits are
    kept. *)
Definition round (k : Z) : Z :=
  let n := Z.max (Z.log2 k + 1 - 53) 0 in
  nearest_even k n * 2 ^ n.

(** What [shr] holds after [j] single shifts of the mantissa [m]: the
    shifted mantissa, the last bit shifted out, and whether a bit before
    it was set. *)
Definition shifted (m : Z) (j : nat) : shr_record :=
  match j with
  | O => Build_shr_record m false false
  | S j' =>
      Build_shr_record (m / 2 ^ Z.of_nat j) (Z.odd (m / 2 ^ Z.of_nat j'))
        (negb (m mod 2 ^ Z.of_nat j' =? 0))
  end.

(** The number 1 in units. *)
Definition one : Z := 2 ^ 1074.

(** The largest step of the progress bar: 15 times the largest double
    below 1, rounded. *)
Definition largest_step : Z := round ((one - 2 ^ 1021) * 15).

(** How far [progress] can be after a number of ticks. *)
Definition reach (start : Z) (ticks : nat) : Z :=
  Nat.iter ticks (fun progress => round (progress + largest_step)) start.

End Double.

(** ** [encodeURIComponent]

    On strings of code units below 256 (none of them is a surrogate, so
    the function never throws). *)

Module Uri.
Import Js.

(** The characters left alone: letters, digits and [- _ . ! ~ * ' ( )]. *)
Definition unreserved (c : ascii) : bool :=
  let n := code_unit c in
  ((65 <=? n) && (n <=? 90) || (97 <=? n) && (n <=? 122) || (48 <=? n) && (n <=? 57)
   || (n =? 45) || (n =? 95) || (n =? 46) || (n =? 33) || (n =? 126) || (n =? 42)
   || (n =? 39) || (n =? 40) || (n =? 41))%N.

(** One hexadecimal digit, in capitals. *)
Definition hexDigit (n : N) : ascii :=
  if (n <? 10)%N then ascii_of_N (48 + n) else ascii_of_N (55 + n).

(** [%XX] for one octet. *)
Definition percent (octet : N) : string :=
  String "%" (String (hexDigit (octet / 16)) (String (hexDigit (octet mod 16)) "")).

(** The UTF-8 octets of a code unit below 256. *)
Definition utf8 (n : N) : list N :=
  if (n <? 128)%N then [n] else [(192 + n / 64)%N; (128 + n mod 64)%N].

Definition encodeUnit (c : ascii) : string :=
  if unreserved c then String c ""
  else fold_right (fun octet rest => percent octet +:+ rest) "" (utf8 (code_unit c)).

Fixpoint encodeURIComponent (s : string) : string :=
  match s with
  | EmptyString => EmptyString
  | String c s' => encodeUnit c +:+ encodeURIComponent s'
  end.

End Uri.

(** ** The main script of the web interface

  The templates are not part of the tree, so the page is the set of
  elements the script looks up, each one possibly absent
  ([getElementById] and [querySelector] answer [null], here [None]). *)

Module Main.
Import Js.

(** A toast appended to the body by [showToast]. *)
Record Toast : Type := mkToast {
  toast_type : string;
  toast_icon : string;
  toast_message : string
}.

(** A [fetch] call. *)
Record Request : Type := mkRequest {
  req_url : string;
  req_method : string;
  req_body : JsVal
}.

(** Overlay, body and toasts. *)
Record Ui : Type := mkUi {
  loadingOverlay : option string;   (* style.display of #loadingOverlay *)
  loadingText : option string;      (* textContent of #loadingText *)
  bodyOverflow : string;            (* document.body.style.overflow *)
  toasts : list Toast               (* toasts shown so far, oldest first *)
}.

(** The delete dialog and the two globals it works with. *)
Record DeleteDialog : Type := mkDeleteDialog {
  deleteModal : option string;      (* style.display of #deleteModal *)
  deleteFileName : option string;   (* textContent of #deleteFileName *)
  deleteToken : option string;      (* value of #deleteToken *)
  currentDeleteId : option string;  (* window.gpxExtractor.currentDeleteId, None = null *)
  currentDeleteName : option string
}.

Record ItemStyle : Type := mkItemStyle {
  transition : string;
  opacity : string;
  transform : string
}.

(** A displayed archive entry: an element carrying [data-unique-id]. *)
Record FileItem : Type := mkFileItem {
  data_unique_id : string;
  item_style : ItemStyle
}.

Inductive FilesListView : Type := Listing | EmptyState.

(** The archive list: the entries in document order, and the [#filesList]
    container, which shows them or the empty-state placeholder. *)
Record Archive : Type := mkArchive {
  fileItems : list FileItem;
  filesList : option FilesListView
}.

Record File : Type := mkFile {
  name : string;
  size : Z                          (* bytes, never negative *)
}.

(** The file chooser of the upload form; [fileInput] is [Some None] when
    the input exists and holds no file. *)
Record FileChooser : Type := mkFileChooser {
  fileInput : option (option File); (* #file and its files[0] *)
  fileLabel : option string;        (* display of .file-input-label *)
  fileInfo : option string;         (* display of .file-info *)
  fileName : option string;         (* textContent of .file-name *)
  fileSize : option string          (* textContent of .file-size *)
}.

Record Button : Type := mkButton {
  disabled : bool;
  innerHTML : string
}.

(** The submit side of the upload form. *)
Record SubmitUi : Type := mkSubmitUi {
  progressDiv : option string;      (* display of .upload-progress *)
  uploadButton : option Button;     (* .upload-button *)
  defaultPrevented : bool;          (* of the submit event being handled *)
  uploads : list File               (* forms the browser sent, oldest first *)
}.

Record Net : Type := mkNet {
  pathname : string;                (* window.location.pathname *)
  requests : list Request;          (* fetch calls, oldest first *)
  navigations : list string         (* assignments to window.location.href *)
}.

Record Page : Type := mkPage {
  ui : Ui;
  dialog : DeleteDialog;
  archive : Archive;
  chooser : FileChooser;
  submitUi : SubmitUi;
  net : Net
}.

(** Field updates. *)
Definition upd_ui (f : Ui -> Ui) (p : Page) : Page :=
  mkPage (f (ui p)) (dialog p) (archive p) (chooser p) (submitUi p) (net p).
Definition upd_dialog (f : DeleteDialog -> DeleteDialog) (p : Page) : Page :=
  mkPage (ui p) (f (dialog p)) (archive p) (chooser p) (submitUi p) (net p).
Definition upd_archive (f : Archive -> Archive) (p : Page) : Page :=
  mkPage (ui p) (dialog p) (f (archive p)) (chooser p) (submitUi p) (net p).
Definition upd_chooser (f : FileChooser -> FileChooser) (p : Page) : Page :=
  mkPage (ui p) (dialog p) (archive p) (f (chooser p)) (submitUi p) (net p).
Definition upd_submitUi (f : SubmitUi -> SubmitUi) (p : Page) : Page :=
  mkPage (ui p) (dialog p) (archive p) (chooser p) (f (submitUi p)) (net p).
Definition upd_net (f : Net -> Net) (p : Page) : Page :=
  mkPage (ui p) (dialog p) (archive p) (chooser p) (submitUi p) (f (net p)).

Definition set_loadingOverlay v (u : Ui) : Ui :=
  mkUi v (loadingText u) (bodyOverflow u) (toasts u).
Definition set_loadingText v (u : Ui) : Ui :=
  mkUi (loadingOverlay u) v (bodyOverflow u) (toasts u).
Definition set_bodyOverflow v (u : Ui) : Ui :=
  mkUi (loadingOverlay u) (loadingText u) v (toasts u).
Definition set_toasts v (u : Ui) : Ui :=
  mkUi (loadingOverlay u) (loadingText u) (bodyOverflow u) v.

Definition set_deleteModal v (d : DeleteDialog) : DeleteDialog :=
  mkDeleteDialog v (deleteFileName d) (deleteToken d) (currentDeleteId d) (currentDeleteName d).
Definition set_deleteFileName v (d : DeleteDialog) : DeleteDialog :=
  mkDeleteDialog (deleteModal d) v (deleteToken d) (currentDeleteId d) (currentDeleteName d).
Definition set_deleteToken v (d : DeleteDialog) : DeleteDialog :=
  mkDeleteDialog (deleteModal d) (deleteFileName d) v (currentDeleteId d) (currentDeleteName d).
Definition set_currentDeleteId v (d : DeleteDialog) : DeleteDialog :=
  mkDeleteDialog (deleteModal d) (deleteFileName d) (deleteToken d) v (currentDeleteName d).
Definition set_currentDeleteName v (d : DeleteDialog) : DeleteDialog :=
  mkDeleteDialog (deleteModal d) (deleteFileName d) (deleteToken d) (currentDeleteId d) v.

Definition set_fileItems v (a : Archive) : Archive := mkArchive v (filesList a).
Definition set_filesList v (a : Archive) : Archive := mkArchive (fileItems a) v.

Definition set_fileInput v (c : FileChooser) : FileChooser :=
  mkFileChooser v (fileLabel c) (fileInfo c) (fileName c) (fileSize c).
Definition set_fileLabel v (c : FileChooser) : FileChooser :=
  mkFileChooser (fileInput c) v (fileInfo c) (fileName c) (fileSize c).
Definition set_fileInfo v (c : FileChooser) : FileChooser :=
  mkFileChooser (fileInput c) (fileLabel c) v (fileName c) (fileSize c).
Definition set_fileName v (c : FileChooser) : FileChooser :=
  mkFileChooser (fileInput c) (fileLabel c) (fileInfo c) v (fileSize c).
Definition set_fileSize v (c : FileChooser) : FileChooser :=
  mkFileChooser (fileInput c) (fileLabel c) (fileInfo c) (fileName c) v.

Definition set_progressDiv v (s : SubmitUi) : SubmitUi :=
  mkSubmitUi v (uploadButton s) (defaultPrevented s) (uploads s).
Definition set_uploadButton v (s : SubmitUi) : SubmitUi :=
  mkSubmitUi (progressDiv s) v (defaultPrevented s) (uploads s).
Definition set_defaultPrevented v (s : SubmitUi) : SubmitUi :=
  mkSubmitUi (progressDiv s) (uploadButton s) v (uploads s).
Definition set_uploads v (s : SubmitUi) : SubmitUi :=
  mkSubmitUi (progressDiv s) (uploadButton s) (defaultPrevented s) v.

Definition set_requests v (n : Net) : Net := mkNet (pathname n) v (navigations n).
Definition set_navigations v (n : Net) : Net := mkNet (pathname n) (requests n) v.

Abbreviation Script := (Eff Page).

(** *** API URLs *)

Definition _basePath (p : Page) : string :=
  let path := pathname (net p) in
  if endsWith path "/" then path else path +:+ "/".

Definition API_selectFile (p : Page) : string := _basePath p +:+ "select-file".
Definition API_deleteFile (p : Page) : string := _basePath p +:+ "delete-file".

(** [fetch(url, {method: 'POST', body: JSON.stringify(body)})]: the call
    is recorded; what it settles to is given to the continuation. *)
Definition fetch_post (url : Page -> string) (body : JsVal) : Script unit :=
  modify (fun p =>
    upd_net (set_requests (requests (net p) ++ [mkRequest (url p) "POST" body])) p).

(** [window.location.href = target] *)
Definition navigate (target : string) : Script unit :=
  modify (fun p => upd_net (set_navigations (navigations (net p) ++ [target])) p).

(** *** Toasts and the loading overlay *)

(** [icons[type] || icons.info], for the types the scripts pass
    ([success], [error], [warning], [info]) and every other name that
    [Object.prototype] does not hold. *)
Definition getToastIcon (type : string) : string :=
  if String.eqb type "success" then "fa-check-circle"
  else if String.eqb type "error" then "fa-exclamation-triangle"
  else if String.eqb type "warning" then "fa-exclamation-circle"
  else "fa-info-circle".

Definition showToast (message type : string) : Script unit :=
  modify (fun p =>
    upd_ui (set_toasts (toasts (ui p) ++ [mkToast type (getToastIcon type) message])) p).

Definition showLoading (message : string) : Script unit :=
  modify (fun p =>
    match loadingOverlay (ui p) with
    | Some _ =>
        let p1 :=
          match loadingText (ui p) with
          | Some _ => upd_ui (set_loadingText (Some message)) p
          | None => p
          end in
        let p2 := upd_ui (set_loadingOverlay (Some "flex")) p1 in
        upd_ui (set_bodyOverflow "hidden") p2
    | None => p
    end).

Definition hideLoading : Script unit :=
  modify (fun p =>
    match loadingOverlay (ui p) with
    | Some _ =>
        upd_ui (set_bodyOverflow "auto") (upd_ui (set_loadingOverlay (Some "none")) p)
    | None => p
    end).

(** *** processFile *)

(** The synchronous part: show the overlay and send the request. *)
Definition processFile_start (uniqueId : string) : Script unit :=
  showLoading "Starting file processing..." ;;
  fetch_post API_selectFile (JObj {[ "unique_id" := JStr uniqueId ]}).

(** [.then(data => ...)]; the assignment to [location.href], the template
    literal and [new Error(...)] convert their value to a string, which can
    throw. *)
Definition processFile_then (data : JsVal) : Script unit :=
  hideLoading ;;
  redirect ← lift (get_prop data "redirect") ;
  cond ← (if truthy redirect then lift (get_prop data "url") else ret redirect) ;
  if truthy cond then
    url ← lift (get_prop data "url") ;
    href ← lift (js_to_string url) ;
    navigate href
  else
    job_id ← lift (get_prop data "job_id") ;
    if truthy job_id then
      id ← lift (js_to_string job_id) ;
      navigate ("/processing/" +:+ id)
    else
      err ← lift (get_prop data "error") ;
      message ← lift (js_to_string (js_or err (JStr "Failed to start processing"))) ;
      throw message.

(** [.catch(error => ...)] *)
Definition processFile_catch (message : string) : Script unit :=
  hideLoading ;;
  showToast (if isEmpty message then "Error starting file processing" else message) "error".

(** The promise chain, once the fetch has settled. *)
Definition processFile_settle (o : FetchOutcome) : Script unit :=
  match o with
  | Rejected message => processFile_catch message
  | Json data => try_catch (processFile_then data) processFile_catch
  end.

(** A whole call: the synchronous part, then the settled chain. *)
Definition processFile (uniqueId : string) (o : FetchOutcome) : Script unit :=
  processFile_start uniqueId ;; processFile_settle o.

(** *** The delete dialog *)

(** The focus that [showDeleteDialog] requests 100 ms later changes none of
    the modelled state. *)
Definition showDeleteDialog (uniqueId displayName : string) : Script unit :=
  modify (fun p =>
    let p1 := upd_dialog (set_currentDeleteId (Some uniqueId)) p in
    let p2 := upd_dialog (set_currentDeleteName (Some displayName)) p1 in
    match deleteModal (dialog p2), deleteFileName (dialog p2), deleteToken (dialog p2) with
    | Some _, Some _, Some _ =>
        let p3 := upd_dialog (set_deleteFileName (Some displayName)) p2 in
        let p4 := upd_dialog (set_deleteToken (Some "")) p3 in
        let p5 := upd_dialog (set_deleteModal (Some "flex")) p4 in
        upd_ui (set_bodyOverflow "hidden") p5
    | _, _, _ => p2
    end).

Definition hideDeleteDialog : Script unit :=
  modify (fun p =>
    let p1 :=
      match deleteModal (dialog p) with
      | Some _ =>
          upd_ui (set_bodyOverflow "auto") (upd_dialog (set_deleteModal (Some "none")) p)
      | None => p
      end in
    let p2 :=
      match deleteToken (dialog p1) with
      | Some _ => upd_dialog (set_deleteToken (Some "")) p1
      | None => p1
      end in
    upd_dialog (set_currentDeleteName None) (upd_dialog (set_currentDeleteId None) p2)).

(** A string stands for itself between the quotes of an attribute selector
    when it has no quote, no backslash and no line break.  The archive's
    identifiers (a sanitized stem and a date) are of that kind; for any
    other the model lets [querySelector] refuse the selector. *)
Definition cssStringPlain (s : string) : bool :=
  negb (includes s (String (ascii_of_N 34) "")) &&
  negb (includes s (String (ascii_of_N 92) "")) &&
  negb (includes s (String (ascii_of_N 10) "")) &&
  negb (includes s (String (ascii_of_N 12) "")) &&
  negb (includes s (String (ascii_of_N 13) "")).

Fixpoint find_item (uniqueId : string) (items : list FileItem) : option nat :=
  match items with
  | [] => None
  | item :: rest =>
      if String.eqb (data_unique_id item) uniqueId then Some 0
      else S <$> find_item uniqueId rest
  end.

(** [document.querySelector(`[data-unique-id="${uniqueId}"]`)]: the first
    entry with that identifier, as its position in the document. *)
Definition querySelector_unique_id (uniqueId : string) : Script (option nat) :=
  fun p =>
    if cssStringPlain uniqueId
    then (Normal (find_item uniqueId (fileItems (archive p))), p)
    else (Throw ("'[data-unique-id=" +:+ uniqueId +:+ "]' is not a valid selector"), p).

Definition fade_out (item : FileItem) : FileItem :=
  mkFileItem (data_unique_id item) (mkItemStyle "all 0.3s ease" "0" "translateX(-100%)").

(** The callback that [confirmDelete] schedules 300 ms after a successful
    deletion, for the element found at position [i]. *)
Definition removeItem_timer (i : nat) : Script unit :=
  modify (fun p => upd_archive (set_fileItems (delete i (fileItems (archive p)))) p) ;;
  filesList ← gets (fun p => filesList (archive p)) ;
  match filesList with
  | None => throw "Cannot read properties of null (reading 'querySelectorAll')"
  | Some _ =>
      remainingItems ← gets (fun p => fileItems (archive p)) ;
      when (length remainingItems =? 0)%nat
        (modify (upd_archive (set_filesList (Some EmptyState))))
  end.

Definition display_name (displayName : option string) : string :=
  match displayName with Some s => s | None => "null" end.

(** The synchronous part of [confirmDelete]: the two guards, then the
    request.  It answers the captured [uniqueId] and [displayName] when the
    request has been sent. *)
Definition confirmDelete_start : Script (option (string * option string)) :=
  token ← gets (fun p =>
    match deleteToken (dialog p) with Some value => trim value | None => "" end) ;
  uniqueId ← gets (fun p => currentDeleteId (dialog p)) ;
  displayName ← gets (fun p => currentDeleteName (dialog p)) ;
  if isEmpty token then
    showToast "Please enter the delete token" "warning" ;; mret None
  else
    match uniqueId with
    | Some uid =>
        if isEmpty uid then
          showToast "No file selected for deletion" "error" ;; mret None
        else
          showLoading "Deleting file..." ;;
          fetch_post API_deleteFile
            (JObj {[ "unique_id" := JStr uid; "token" := JStr token ]}) ;;
          mret (Some (uid, displayName))
    | None => showToast "No file selected for deletion" "error" ;; mret None
    end.

(** [.then(data => ...)]; the answer is the element whose removal has been
    scheduled.  The template literal of [showToast] converts the message
    to a string before the toast is added. *)
Definition confirmDelete_then (uniqueId : string) (displayName : option string)
    (data : JsVal) : Script (option nat) :=
  hideLoading ;;
  hideDeleteDialog ;;
  success ← lift (get_prop data "success") ;
  if truthy success then
    showToast ("Deleted: " +:+ display_name displayName) "success" ;;
    fileItem ← querySelector_unique_id uniqueId ;
    match fileItem with
    | Some i =>
        modify (fun p =>
          upd_archive (set_fileItems (alter fade_out i (fileItems (archive p)))) p) ;;
        mret (Some i)
    | None => mret None
    end
  else
    err ← lift (get_prop data "error") ;
    message ← lift (js_to_string (js_or err (JStr "Failed to delete file"))) ;
    showToast message "error" ;;
    mret None.

(** [.catch(error => ...)] *)
Definition confirmDelete_catch (message : string) : Script (option nat) :=
  hideLoading ;;
  hideDeleteDialog ;;
  showToast "Error deleting file" "error" ;;
  mret None.

Definition confirmDelete_settle (uniqueId : string) (displayName : option string)
    (o : FetchOutcome) : Script (option nat) :=
  match o with
  | Rejected message => confirmDelete_catch message
  | Json data => try_catch (confirmDelete_then uniqueId displayName data) confirmDelete_catch
  end.

(** A whole delete attempt: the synchronous part, the settled promise
    chain when a request went out, and the removal timer when one was
    scheduled. *)
Definition confirmDelete (o : FetchOutcome) : Script unit :=
  call ← confirmDelete_start ;
  match call with
  | None => mret tt
  | Some (uniqueId, displayName) =>
      scheduled ← confirmDelete_settle uniqueId displayName o ;
      match scheduled with
      | Some i => removeItem_timer i
      | None => mret tt
      end
  end.

(** *** The upload form *)

Section UploadForm.

(** [formatFileSize] goes through [Math.log] and [toFixed]; the text it
    yields is only displayed, so it is a parameter here. *)
Variable formatFileSize : Z -> string.

Definition resetFileInput : Script unit :=
  modify (fun p =>
    let p1 :=
      match fileInput (chooser p) with
      | Some _ => upd_chooser (set_fileInput (Some None)) p   (* value = '' drops the file *)
      | None => p
      end in
    let p2 :=
      match fileLabel (chooser p1) with
      | Some _ => upd_chooser (set_fileLabel (Some "inline-block")) p1
      | None => p1
      end in
    match fileInfo (chooser p2) with
    | Some _ => upd_chooser (set_fileInfo (Some "none")) p2
    | None => p2
    end).

(** The limit of the size check, [100 * 1024 * 1024]. *)
Definition MAX_UPLOAD_BYTES : Z := 100 * 1024 * 1024.

(** The block under [// Validate file], the same in both versions of the
    script. *)
Definition validateFile (file : File) : Script unit :=
  if negb (endsWith (toLowerCase (name file)) ".gpx") then
    showToast "Please select a GPX file" "error" ;;
    resetFileInput
  else if (MAX_UPLOAD_BYTES <? size file)%Z then
    showToast "File is too large. Maximum size is 100MB" "error" ;;
    resetFileInput
  else
    showToast "GPX file ready for processing" "success".

Definition files0 (p : Page) : option File :=
  match fileInput (chooser p) with Some file => file | None => None end.

(** The [change] listener of the file input, in the current script: every
    element is looked at before it is written. *)
Definition onFileChange : Script unit :=
  file ← gets files0 ;
  match file with
  | Some file =>
      modify (fun p =>
        match fileName (chooser p) with
        | Some _ => upd_chooser (set_fileName (Some (name file))) p
        | None => p
        end) ;;
      modify (fun p =>
        match fileSize (chooser p) with
        | Some _ => upd_chooser (set_fileSize (Some (formatFileSize (size file)))) p
        | None => p
        end) ;;
      modify (fun p =>
        match fileLabel (chooser p) with
        | Some _ => upd_chooser (set_fileLabel (Some "none")) p
        | None => p
        end) ;;
      modify (fun p =>
        match fileInfo (chooser p) with
        | Some _ => upd_chooser (set_fileInfo (Some "flex")) p
        | None => p
        end) ;;
      validateFile file
  | None => mret tt
  end.

(** Writing a property of an element that may be missing. *)
Definition write_element {A} (element : Page -> option A) (property : string)
    (write : Page -> Page) : Script unit :=
  fun p =>
    match element p with
    | Some _ => (Normal tt, write p)
    | None =>
        (Throw ("Cannot set properties of null (setting '" +:+ property +:+ "')"), p)
    end.

(** The same listener in the first version of the script
    (extract-gpx-parts/web/static/script.js): the four display elements
    are written without a look, so a missing one ends the handler with a
    TypeError before the file is validated. *)
Definition onFileChange_v1 : Script unit :=
  file ← gets files0 ;
  match file with
  | Some file =>
      write_element (fun p => fileName (chooser p)) "textContent"
        (upd_chooser (set_fileName (Some (name file)))) ;;
      write_element (fun p => fileSize (chooser p)) "textContent"
        (upd_chooser (set_fileSize (Some (formatFileSize (size file))))) ;;
      write_element (fun p => fileLabel (chooser p)) "style"
        (upd_chooser (set_fileLabel (Some "none"))) ;;
      write_element (fun p => fileInfo (chooser p)) "style"
        (upd_chooser (set_fileInfo (Some "flex"))) ;;
      validateFile file
  | None => mret tt
  end.

(** The user picks [file] in the file input: the browser stores it in the
    input and dispatches [change].  [setupFileInput] attaches the listener
    only when the input exists. *)
Definition selectFile (listener : Script unit) (file : File) (p : Page) : Page :=
  match fileInput (chooser p) with
  | Some _ => exec listener (upd_chooser (set_fileInput (Some (Some file))) p)
  | None => p
  end.

(** The [submit] listener of the upload form.  The progress display it
    starts at the end is [simulateProgress] below. *)
Definition onSubmit : Script unit :=
  file ← gets files0 ;
  match file with
  | None =>
      modify (upd_submitUi (set_defaultPrevented true)) ;;
      showToast "Please select a GPX file first" "error"
  | Some _ =>
      progressDiv ← gets (fun p => progressDiv (submitUi p)) ;
      match progressDiv with
      | Some _ =>
          modify (upd_submitUi (set_progressDiv (Some "block"))) ;;
          write_element (fun p => uploadButton (submitUi p)) "disabled"
            (upd_submitUi (set_uploadButton
               (Some (mkButton true "<i class='fas fa-spinner fa-spin'></i> Processing..."))))
      | None => mret tt
      end
  end.

(** The user submits the upload form: the listener runs, and unless it
    prevented the default action the browser sends the form with the file
    of the input. *)
Definition submitForm (p : Page) : Page :=
  let p1 := exec onSubmit (upd_submitUi (set_defaultPrevented false) p) in
  if defaultPrevented (submitUi p1) then p1
  else
    match files0 p1 with
    | Some file => upd_submitUi (set_uploads (uploads (submitUi p1) ++ [file])) p1
    | None => p1
    end.

End UploadForm.

(** *** The simulated progress display

    [progress] is a Number, and [Math.random()] a draw from a given
    list. *)

(** What one run of the interval callback shows. *)
Record Frame : Type := mkFrame {
  frame_width : Double.double;  (* the number written to progressFill.style.width,
                                   in percent *)
  frame_text : string           (* progressText.textContent *)
}.

(** The [if (progress < 30) ... else ...] chain: the text shown at
    [progress], and whether the interval is cleared. *)
Definition progressText_at (progress : Double.double) : string * bool :=
  if Double.ltb progress (Double.of_Z 30) then ("Uploading file...", false)
  else if Double.ltb progress (Double.of_Z 60) then ("Analyzing GPX structure...", false)
  else if Double.ltb progress (Double.of_Z 90) then ("Extracting components...", false)
  else ("Almost done...", true).

(** One run of the interval callback, from the value of [progress] and a
    draw of [Math.random()]: the new [progress], the frame, cleared or not. *)
Definition interval_callback (progress random : Double.double)
    : Double.double * Frame * bool :=
  let progress := Double.add progress (Double.mul random (Double.of_Z 15)) in
  let progress :=
    if Double.ltb (Double.of_Z 90) progress then Double.of_Z 90 else progress in
  let (text, cleared) := progressText_at progress in
  (progress, mkFrame progress text, cleared).

(** The interval: a callback every 200 ms, one draw each, until cleared. *)
Fixpoint run_interval (progress : Double.double) (draws : list Double.double)
    : list Frame :=
  match draws with
  | [] => []
  | random :: rest =>
      let '(progress, frame, cleared) := interval_callback progress random in
      frame :: (if cleared then [] else run_interval progress rest)
  end.

(** [simulateProgress]: nothing without both elements, otherwise the
    interval from [progress = 0].  The answer is the sequence of frames
    displayed. *)
Definition simulateProgress (progressFill progressText : bool)
    (draws : list Double.double) : list Frame :=
  if negb progressFill || negb progressText then []
  else run_interval (Double.of_Z 0) draws.

End Main.

(** ** The results page script *)

Module Results.
Import Js.

(** A [Set] of strings: its elements in insertion order, each once. *)
Module JsSet.

Definition has (x : string) (s : list string) : bool := bool_decide (x ∈ s).

Definition add (x : string) (s : list string) : list string :=
  if has x s then s else s ++ [x].

Fixpoint delete (x : string) (s : list string) : list string :=
  match s with
  | [] => []
  | y :: rest => if String.eqb y x then delete x rest else y :: delete x rest
  end.

Definition clear (s : list string) : list string := [].

Definition size (s : list string) : nat := length s.

End JsSet.

Record Checkbox : Type := mkCheckbox {
  filename : string;               (* dataset.filename *)
  checked : bool
}.

(** A [.file-item] row of the results table, with the first
    [.file-checkbox] inside it, if any. *)
Record FileRow : Type := mkFileRow {
  data_type : string;
  row_checkbox : option Checkbox
}.

Record SelectAllBox : Type := mkSelectAllBox {
  all_checked : bool;
  indeterminate : bool
}.

Record Overlay : Type := mkOverlay {
  overlay_display : string;
  overlay_message : option string  (* text of .loading-content p, when there *)
}.

Record ResultsPage : Type := mkResultsPage {
  rows : list FileRow;
  selectedFiles : list string;               (* window.gpxExtractor.selectedFiles *)
  selectedCount : option string;             (* textContent of #selectedCount *)
  downloadSelectedBtn : option Main.Button;  (* #downloadSelectedBtn *)
  selectAllCheckbox : option SelectAllBox;   (* #selectAllCheckbox *)
  loadingOverlay : option Overlay;           (* #loadingOverlay *)
  outputDirectory : string;                  (* window.gpxExtractor.outputDirectory *)
  toasts : list Main.Toast;
  requests : list Main.Request;
  downloads : list string                    (* names of the files saved *)
}.

Definition set_rows v (r : ResultsPage) : ResultsPage :=
  mkResultsPage v (selectedFiles r) (selectedCount r) (downloadSelectedBtn r)
    (selectAllCheckbox r) (loadingOverlay r) (outputDirectory r) (toasts r)
    (requests r) (downloads r).
Definition set_selectedFiles v (r : ResultsPage) : ResultsPage :=
  mkResultsPage (rows r) v (selectedCount r) (downloadSelectedBtn r)
    (selectAllCheckbox r) (loadingOverlay r) (outputDirectory r) (toasts r)
    (requests r) (downloads r).
Definition set_selectedCount v (r : ResultsPage) : ResultsPage :=
  mkResultsPage (rows r) (selectedFiles r) v (downloadSelectedBtn r)
    (selectAllCheckbox r) (loadingOverlay r) (outputDirectory r) (toasts r)
    (requests r) (downloads r).
Definition set_downloadSelectedBtn v (r : ResultsPage) : ResultsPage :=
  mkResultsPage (rows r) (selectedFiles r) (selectedCount r) v
    (selectAllCheckbox r) (loadingOverlay r) (outputDirectory r) (toasts r)
    (requests r) (downloads r).
Definition set_selectAllCheckbox v (r : ResultsPage) : ResultsPage :=
  mkResultsPage (rows r) (selectedFiles r) (selectedCount r) (downloadSelectedBtn r)
    v (loadingOverlay r) (outputDirectory r) (toasts r) (requests r) (downloads r).
Definition set_loadingOverlay v (r : ResultsPage) : ResultsPage :=
  mkResultsPage (rows r) (selectedFiles r) (selectedCount r) (downloadSelectedBtn r)
    (selectAllCheckbox r) v (outputDirectory r) (toasts r) (requests r) (downloads r).
Definition set_toasts v (r : ResultsPage) : ResultsPage :=
  mkResultsPage (rows r) (selectedFiles r) (selectedCount r) (downloadSelectedBtn r)
    (selectAllCheckbox r) (loadingOverlay r) (outputDirectory r) v (requests r)
    (downloads r).
Definition set_requests v (r : ResultsPage) : ResultsPage :=
  mkResultsPage (rows r) (selectedFiles r) (selectedCount r) (downloadSelectedBtn r)
    (selectAllCheckbox r) (loadingOverlay r) (outputDirectory r) (toasts r) v
    (downloads r).
Definition set_downloads v (r : ResultsPage) : ResultsPage :=
  mkResultsPage (rows r) (selectedFiles r) (selectedCount r) (downloadSelectedBtn r)
    (selectAllCheckbox r) (loadingOverlay r) (outputDirectory r) (toasts r)
    (requests r) v.

Abbreviation Script := (Eff ResultsPage).

(** [window.gpxUtils.showToast] *)
Definition showToast (message type : string) : Script unit :=
  modify (fun r =>
    set_toasts (toasts r ++ [Main.mkToast type (Main.getToastIcon type) message]) r).

(** [document.querySelectorAll('.file-checkbox')] *)
Definition checkboxes (r : ResultsPage) : list Checkbox :=
  omap row_checkbox (rows r).

Definition updateSelectedCount : Script unit :=
  modify (fun r =>
    let count := JsSet.size (selectedFiles r) in
    let r1 :=
      match selectedCount r with
      | Some _ => set_selectedCount (Some (nat_to_string count)) r
      | None => r
      end in
    match downloadSelectedBtn r1 with
    | Some _ =>
        set_downloadSelectedBtn
          (Some (Main.mkButton (count =? 0)%nat
             (if (count =? 0)%nat
              then "<i class='fas fa-download'></i> Download Selected (0)"
              else "<i class='fas fa-download'></i> Download Selected ("
                   +:+ nat_to_string count +:+ ")"))) r1
    | None => r1
    end).

Definition updateSelectAllCheckbox : Script unit :=
  modify (fun r =>
    let totalCheckboxes := length (checkboxes r) in
    let selectedCount := JsSet.size (selectedFiles r) in
    match selectAllCheckbox r with
    | Some _ =>
        set_selectAllCheckbox
          (Some (mkSelectAllBox
             ((selectedCount =? totalCheckboxes)%nat && (0 <? totalCheckboxes)%nat)
             ((0 <? selectedCount)%nat && (selectedCount <? totalCheckboxes)%nat))) r
    | None => r
    end).

Definition check (row : FileRow) : FileRow :=
  match row_checkbox row with
  | Some checkbox => mkFileRow (data_type row) (Some (mkCheckbox (filename checkbox) true))
  | None => row
  end.

(** [forEach] over the checkboxes of the rows that [pick] selects, first
    to last: each one is checked and its name added to the set. *)
Definition select_rows (pick : FileRow -> bool) (r : ResultsPage) : ResultsPage :=
  let picked := omap row_checkbox (List.filter pick (rows r)) in
  set_selectedFiles
    (fold_left (fun selected checkbox => JsSet.add (filename checkbox) selected)
       picked (selectedFiles r))
    (set_rows (map (fun row => if pick row then check row else row) (rows r)) r).

Definition selectAll : Script unit :=
  modify (select_rows (fun _ => true)) ;;
  updateSelectedCount ;;
  updateSelectAllCheckbox.

Definition uncheck (row : FileRow) : FileRow :=
  match row_checkbox row with
  | Some checkbox => mkFileRow (data_type row) (Some (mkCheckbox (filename checkbox) false))
  | None => row
  end.

Definition selectNone : Script unit :=
  modify (fun r => set_rows (map uncheck (rows r)) r) ;;
  modify (fun r => set_selectedFiles (JsSet.clear (selectedFiles r)) r) ;;
  updateSelectedCount ;;
  updateSelectAllCheckbox.

(** [document.querySelectorAll(`.file-item[data-type="${type}"]`)] picks
    the rows of that type when [type] stands for itself between the
    quotes.  A [type] with a quote, a backslash or a line break is read by
    the CSS parser as another selector, or refused; the parser is outside
    the model, which ends the call there, after [selectNone]. *)
Definition selectByType (type : string) : Script unit :=
  selectNone ;;
  (if Main.cssStringPlain type then
     modify (select_rows (fun row => String.eqb (data_type row) type))
   else
     throw ("'.file-item[data-type=" +:+ type +:+ "]' is not a valid selector")) ;;
  updateSelectedCount ;;
  updateSelectAllCheckbox ;;
  count ← gets (fun r => JsSet.size (selectedFiles r)) ;
  showToast
    ("Selected " +:+ nat_to_string count +:+ " " +:+ type +:+ " file"
     +:+ (if negb (count =? 1)%nat then "s" else ""))
    "info".

Definition toggleSelectAll : Script unit :=
  box ← gets selectAllCheckbox ;
  match box with
  | None => throw "Cannot read properties of null (reading 'checked')"
  | Some box => if all_checked box then selectAll else selectNone
  end.

(** The [change] listener of the document, for the checkbox of row [i]
    after the browser has set its [checked] state. *)
Definition onCheckboxChange (i : nat) : Script unit :=
  row ← gets (fun r => rows r !! i) ;
  match row ≫= row_checkbox with
  | Some target =>
      modify (fun r =>
        set_selectedFiles
          (if checked target
           then JsSet.add (filename target) (selectedFiles r)
           else JsSet.delete (filename target) (selectedFiles r)) r) ;;
      updateSelectedCount ;;
      updateSelectAllCheckbox
  | None => mret tt
  end.

Definition flip (row : FileRow) : FileRow :=
  match row_checkbox row with
  | Some checkbox =>
      mkFileRow (data_type row) (Some (mkCheckbox (filename checkbox) (negb (checked checkbox))))
  | None => row
  end.

(** What the user does on the results page. *)
Inductive Operation : Type :=
  | OpSelectAll                       (* the Select All button, or Ctrl+A *)
  | OpSelectNone
  | OpSelectByType (type : string)
  | OpToggleSelectAll                 (* a click on the select-all checkbox *)
  | OpCheckbox (i : nat).             (* a click on the checkbox of row i *)

Definition perform (op : Operation) (r : ResultsPage) : ResultsPage :=
  match op with
  | OpSelectAll => exec selectAll r
  | OpSelectNone => exec selectNone r
  | OpSelectByType type => exec (selectByType type) r
  | OpToggleSelectAll =>
      (* the browser flips the box, then its handler runs *)
      let r1 :=
        match selectAllCheckbox r with
        | Some box => set_selectAllCheckbox (Some (mkSelectAllBox (negb (all_checked box)) false)) r
        | None => r
        end in
      exec toggleSelectAll r1
  | OpCheckbox i => exec (onCheckboxChange i) (set_rows (alter flip i (rows r)) r)
  end.

Definition perform_all (ops : list Operation) (r : ResultsPage) : ResultsPage :=
  fold_left (fun r op => perform op r) ops r.

(** [initializeResults], run when the document is loaded; the keyboard
    shortcuts it installs call [selectAll] and [downloadSelected]. *)
Definition initializeResults : Script unit := updateSelectedCount.

Definition showLoadingOverlay (message : string) : Script unit :=
  modify (fun r =>
    match loadingOverlay r with
    | Some overlay =>
        set_loadingOverlay
          (Some (mkOverlay "flex"
             (match overlay_message overlay with Some _ => Some message | None => None end))) r
    | None => r
    end).

Definition hideLoadingOverlay : Script unit :=
  modify (fun r =>
    match loadingOverlay r with
    | Some overlay => set_loadingOverlay (Some (mkOverlay "none" (overlay_message overlay))) r
    | None => r
    end).

(** What the download request settles to. *)
Inductive DownloadOutcome : Type :=
  | DownloadRejected (message : string)   (* fetch failed *)
  | DownloadRefused (error : Completion JsVal)
      (* !response.ok, with what response.json() gives *)
  | DownloadBlob (blob : Completion unit).
      (* response.ok, with what response.blob() gives: the body, or a
         rejection while it is read *)

Section Download.

(** [new Date().toISOString().slice(0, 10)] *)
Variable today : string.

(** [downloadSelected] up to its first [await]: [None] when it returned
    at the guard, the array of selected names when the request went out. *)
Definition downloadSelected_start : Script (option (list string)) :=
  selectedFiles ← gets selectedFiles ;
  if (length selectedFiles =? 0)%nat then
    showToast "No files selected" "warning" ;; mret None
  else
    showLoadingOverlay "Preparing download..." ;;
    directory ← gets outputDirectory ;
    modify (fun r =>
      set_requests
        (requests r ++
           [Main.mkRequest "/download-selected" "POST"
              (JObj {[ "files" := JArr (JStr <$> selectedFiles);
                       "directory" := JStr directory ]})]) r) ;;
    mret (Some selectedFiles).

(** The rest of the [try] block. *)
Definition downloadSelected_try (selectedFiles : list string) (o : DownloadOutcome)
    : Script unit :=
  match o with
  | DownloadRejected message => throw message
  | DownloadRefused (Throw message) => throw message
  | DownloadRefused (Normal error) =>
      err ← lift (get_prop error "error") ;
      message ← lift (js_to_string (js_or err (JStr "Download failed"))) ;
      throw message
  | DownloadBlob (Throw message) => throw message
  | DownloadBlob (Normal _) =>
      modify (fun r =>
        set_downloads (downloads r ++ ["selected_gpx_files_" +:+ today +:+ ".zip"]) r) ;;
      showToast ("Downloaded " +:+ nat_to_string (length selectedFiles) +:+ " files") "success"
  end.

Definition downloadSelected (o : DownloadOutcome) : Script unit :=
  started ← downloadSelected_start ;
  match started with
  | None => mret tt
  | Some selectedFiles =>
      try_catch (downloadSelected_try selectedFiles o)
        (fun message => showToast ("Download failed: " +:+ message) "error") ;;
      hideLoadingOverlay   (* finally *)
  end.

End Download.

(** [getFileDownloadUrl(filename)]; [origin] is [window.location.origin]. *)
Definition getFileDownloadUrl (origin : string) (filename : string) (r : ResultsPage)
    : string :=
  origin +:+ "/download/" +:+ Uri.encodeURIComponent (outputDirectory r)
  +:+ "/" +:+ Uri.encodeURIComponent filename.

End Results.

(** ** The short-URL expander of the Google Maps converter *)

Module URLExpander.
Import Js.

(** *** The regular expressions of [isValidExpandedUrl]

    A matcher reads the rest of the input from the current position and
    says whether the rest of the pattern matches there. *)
Definition Matcher : Type := string -> bool.

Definition accept : Matcher := fun _ => true.

(** A literal, then [k]. *)
Fixpoint lit (literal : string) (k : Matcher) (s : string) : bool :=
  match literal with
  | EmptyString => k s
  | String c literal' =>
      match s with
      | EmptyString => false
      | String d s' => Ascii.eqb d c && lit literal' k s'
      end
  end.

(** [.+] then [k]: one or more characters other than line terminators. *)
Fixpoint any_plus (k : Matcher) (s : string) : bool :=
  match s with
  | EmptyString => false
  | String c s' => negb (isLineTerminator c) && (k s' || any_plus k s')
  end.

(** [RegExp.prototype.test] for a pattern without anchors: a match at some
    position. *)
Fixpoint test (pattern : Matcher) (s : string) : bool :=
  pattern s ||
  match s with
  | EmptyString => false
  | String _ s' => test pattern s'
  end.

Definition googleMapsPatterns : list Matcher :=
  [ lit "maps.google." accept;                        (* /maps\.google\./ *)
    lit "www.google." (any_plus (lit "/maps" accept)); (* /www\.google\..+\/maps/ *)
    lit "maps.app.goo.gl" accept ].                   (* /maps\.app\.goo\.gl/ *)

(** [url.includes(x)]: a substring test on a string, a membership test on
    an array, a TypeError on a value without that method. *)
Definition includes_method (url : JsVal) (x : string) : Completion bool :=
  match url with
  | JStr s => Normal (includes s x)
  | JArr elems =>
      Normal (existsb (fun e => match e with JStr s => String.eqb s x | _ => false end) elems)
  | JUndefined => Throw "Cannot read properties of undefined (reading 'includes')"
  | JNull => Throw "Cannot read properties of null (reading 'includes')"
  | _ => Throw "url.includes is not a function"
  end.

(** [a || b] on completions of booleans, [b] evaluated only when needed. *)
Definition or_else (a b : Completion bool) : Completion bool :=
  match a with
  | Normal true => Normal true
  | Normal false => b
  | Throw message => Throw message
  end.

(** [pattern.test(url)] converts [url] to a string before it matches. *)
Definition isValidExpandedUrl (url : JsVal) : Completion bool :=
  match js_to_string url with
  | Throw message => Throw message
  | Normal text =>
      if existsb (fun pattern => test pattern text) googleMapsPatterns
      then or_else (includes_method url "@")
             (or_else (includes_method url "q=") (includes_method url "dir/"))
      else Normal false
  end.

(** [expanded !== shortUrl], for the string [shortUrl]. *)
Definition differs (expanded : JsVal) (shortUrl : string) : bool :=
  match expanded with
  | JStr s => negb (String.eqb s shortUrl)
  | _ => true
  end.

(** An expansion method, as [await method.call(this, shortUrl)] sees it:
    the value its promise resolves to, or a rejection. *)
Definition Method : Type := string -> Completion JsVal.

(** The body of the [try] inside the loop: [Normal (Some url)] is the
    [return], [Normal None] falls out of the [if]. *)
Definition attempt (method : Method) (shortUrl : string) : Completion (option JsVal) :=
  match method shortUrl with
  | Throw message => Throw message
  | Normal expanded =>
      if truthy expanded && differs expanded shortUrl then
        match isValidExpandedUrl expanded with
        | Throw message => Throw message
        | Normal true => Normal (Some expanded)
        | Normal false => Normal None
        end
      else Normal None
  end.

(** [for (const method of methods) { try {...} catch (error) { continue; } }]
    and the final [throw]. *)
Fixpoint expand_with (methods : list Method) (shortUrl : string) : Completion JsVal :=
  match methods with
  | [] => Throw "All expansion methods failed"
  | method :: rest =>
      match attempt method shortUrl with
      | Normal (Some expanded) => Normal expanded
      | Normal None => expand_with rest shortUrl
      | Throw _ => expand_with rest shortUrl      (* console.warn; continue *)
      end
  end.

(** What the network would answer to each of the four methods. *)
Record Network : Type := mkNetwork {
  expandViaFetch : Method;
  expandViaIframe : Method;
  expandViaProxy : Method;
  expandViaCorsSite : Method
}.

Definition methods (net : Network) : list Method :=
  [expandViaFetch net; expandViaIframe net; expandViaProxy net; expandViaCorsSite net].

Definition expandUrl (net : Network) (shortUrl : string) : Completion JsVal :=
  expand_with (methods net) shortUrl.

(** *** The regular expressions of [extractRedirectFromHtml]

    Each of them has one group.  A matcher reads the rest of the input
    and delivers what the group holds when the rest of the pattern
    matches; alternatives are tried in the order of the backtracking
    matcher, a greedy quantifier taking the longer run first. *)
Definition Capture : Type := string -> option string.

(** A literal, then [k]. *)
Fixpoint literal (text : string) (k : Capture) (s : string) : option string :=
  match text with
  | EmptyString => k s
  | String c text' =>
      match s with
      | EmptyString => None
      | String d s' => if Ascii.eqb d c then literal text' k s' else None
      end
  end.

(** A literal under the [i] flag.  The literals of the patterns are ASCII;
    a code unit below 256 equals an ASCII character up to case exactly
    when their lower cases agree. *)
Fixpoint literal_i (text : string) (k : Capture) (s : string) : option string :=
  match text with
  | EmptyString => k s
  | String c text' =>
      match s with
      | EmptyString => None
      | String d s' =>
          if Ascii.eqb (lowerChar d) (lowerChar c) then literal_i text' k s' else None
      end
  end.

(** One character of a class, then [k]. *)
Definition one (class : ascii -> bool) (k : Capture) : Capture :=
  fun s =>
    match s with
    | EmptyString => None
    | String c s' => if class c then k s' else None
    end.

(** [class*] then [k], greedy. *)
Fixpoint star (class : ascii -> bool) (k : Capture) (s : string) : option string :=
  match s with
  | EmptyString => k s
  | String c s' =>
      if class c then
        match star class k s' with
        | Some found => Some found
        | None => k s
        end
      else k s
  end.

(** Inside the group [(class+)], after the characters [held]: more of the
    class, greedy, then [k] with what the group holds. *)
Fixpoint group_more (class : ascii -> bool) (k : string -> Capture) (held : string)
    (s : string) : option string :=
  match s with
  | EmptyString => k held s
  | String c s' =>
      if class c then
        match group_more class k (held +:+ String c EmptyString) s' with
        | Some found => Some found
        | None => k held s
        end
      else k held s
  end.

(** [(class+)] then [k]. *)
Definition group_plus (class : ascii -> bool) (k : string -> Capture) : Capture :=
  fun s =>
    match s with
    | EmptyString => None
    | String c s' => if class c then group_more class k (String c EmptyString) s' else None
    end.

(** The end of the pattern: the match succeeds with the group. *)
Definition matched (group : string) : Capture := fun _ => Some group.

(** [s.match(pattern)] for a pattern without anchors and without the [g]
    flag: the match at the leftmost position that has one; [None] is
    [null], [Some group] is the group 1 of the match. *)
Fixpoint search (pattern : Capture) (s : string) : option string :=
  match pattern s with
  | Some found => Some found
  | None =>
      match s with
      | EmptyString => None
      | String _ s' => search pattern s'
      end
  end.

(** The class of the two quotes, written Q in the patterns below: the
    double quote and the apostrophe. *)
Definition isQuote (c : ascii) : bool :=
  Ascii.eqb c (ascii_of_N 34) || Ascii.eqb c "'".

Definition notQuote (c : ascii) : bool := negb (isQuote c).

(** [[^>]] and [[^;]] *)
Definition isNot (x : ascii) (c : ascii) : bool := negb (Ascii.eqb c x).

(** [Q([^Q]+)Q] and the rest [k] of the pattern *)
Definition quoted (k : string -> Capture) : Capture :=
  one isQuote (group_plus notQuote (fun url => one isQuote (k url))).

(** [\s*=\s*] then [k]; [\s] is [isWhiteSpace] below 256. *)
Definition assignment (k : Capture) : Capture :=
  star isWhiteSpace (literal "=" (star isWhiteSpace k)).

Definition jsRedirectPatterns : list Capture :=
  [ (* /window\.location\.replace\(Q([^Q]+)Q\)/ *)
    literal "window.location.replace(" (quoted (fun url => literal ")" (matched url)));
    (* /window\.location\.href\s*=\s*Q([^Q]+)Q/ *)
    literal "window.location.href" (assignment (quoted matched));
    (* /location\.href\s*=\s*Q([^Q]+)Q/ *)
    literal "location.href" (assignment (quoted matched));
    (* /window\.location\s*=\s*Q([^Q]+)Q/ *)
    literal "window.location" (assignment (quoted matched)) ].

(** [/<meta[^>]*http-equiv=QrefreshQ[^>]*content=Q[^;]*;\s*url=([^Q]+)Q/i] *)
Definition metaPattern : Capture :=
  let url := group_plus notQuote (fun url => one isQuote (matched url)) in
  let content :=
    literal_i "content="
      (one isQuote
         (star (isNot ";") (literal_i ";" (star isWhiteSpace (literal_i "url=" url))))) in
  literal_i "<meta"
    (star (isNot ">")
       (literal_i "http-equiv="
          (one isQuote (literal_i "refresh" (one isQuote (star (isNot ">") content)))))).

(** [/<link[^>]*rel=QcanonicalQ[^>]*href=Q([^Q]+)Q/i] *)
Definition canonicalPattern : Capture :=
  literal_i "<link"
    (star (isNot ">")
       (literal_i "rel="
          (one isQuote
             (literal_i "canonical"
                (one isQuote
                   (star (isNot ">")
                      (literal_i "href=" (quoted matched)))))))).

(** The first pattern of the list that matches, with its group; the group
    is never empty, so [match && match[1]] holds for every match. *)
Fixpoint first_match (patterns : list Capture) (html : string) : option string :=
  match patterns with
  | [] => None
  | pattern :: rest =>
      match search pattern html with
      | Some found => if isEmpty found then first_match rest html else Some found
      | None => first_match rest html
      end
  end.

(** [extractRedirectFromHtml(html)]; [html] is [data.contents] of a JSON
    answer, and a value that is not a string has no usable [match]. *)
Definition extractRedirectFromHtml (html : JsVal) : Completion string :=
  match html with
  | JStr html =>
      match first_match (jsRedirectPatterns ++ [metaPattern; canonicalPattern]) html with
      | Some url => Normal url
      | None => Throw "No redirect found in HTML"
      end
  | JUndefined => Throw "Cannot read properties of undefined (reading 'match')"
  | JNull => Throw "Cannot read properties of null (reading 'match')"
  | _ => Throw "html.match is not a function"
  end.


(** *** The proxy and the expansion service

    [fetch] is an input: what the network answers to a URL. *)

Module Methods.

Record Response : Type := mkResponse {
  ok : bool;                          (* response.ok *)
  url : string;                       (* response.url *)
  json : Completion JsVal             (* what response.json() settles to *)
}.

(** [await fetch(url)]: a response, or a rejection. *)
Definition Fetch : Type := string -> Completion Response.

Definition proxyServices : list string :=
  [ "https://api.allorigins.win/get?url=";
    "https://cors-anywhere.herokuapp.com/";
    "https://api.codetabs.com/v1/proxy?quest=" ].

(** The body of the [try] in the loop of [expandViaProxy]:
    [Normal (Some url)] is a [return], [Normal None] falls out of the
    [if]. *)
Definition tryProxy (fetch : Fetch) (proxyBase shortUrl : string)
    : Completion (option string) :=
  let proxyUrl := proxyBase +:+ Uri.encodeURIComponent shortUrl in
  match fetch proxyUrl with
  | Throw message => Throw message
  | Normal response =>
      if ok response then
        if includes proxyBase "allorigins" then
          match json response with
          | Throw message => Throw message
          | Normal data =>
              match get_prop data "contents" with
              | Throw message => Throw message
              | Normal contents =>
                  match extractRedirectFromHtml contents with
                  | Throw message => Throw message
                  | Normal found => Normal (Some found)
                  end
              end
          end
        else Normal (Some (url response))
      else Normal None
  end.

(** [for (const proxyBase of proxyServices) { try {...} catch (error)
    { continue; } }] and the final [throw]. *)
Fixpoint tryProxies (fetch : Fetch) (services : list string) (shortUrl : string)
    : Completion string :=
  match services with
  | [] => Throw "All proxy services failed"
  | proxyBase :: rest =>
      match tryProxy fetch proxyBase shortUrl with
      | Normal (Some found) => Normal found
      | Normal None => tryProxies fetch rest shortUrl
      | Throw _ => tryProxies fetch rest shortUrl
      end
  end.

Definition expandViaProxy (fetch : Fetch) (shortUrl : string) : Completion string :=
  tryProxies fetch proxyServices shortUrl.

(** The [try] block of [expandViaCorsSite]. *)
Definition tryCorsSite (fetch : Fetch) (shortUrl : string) : Completion (option JsVal) :=
  match fetch ("https://unshorten.me/s/" +:+ Uri.encodeURIComponent shortUrl) with
  | Throw message => Throw message
  | Normal response =>
      if ok response then
        match json response with
        | Throw message => Throw message
        | Normal data =>
            match get_prop data "success" with
            | Throw message => Throw message
            | Normal success =>
                if truthy success then
                  match get_prop data "url" with
                  | Throw message => Throw message
                  | Normal found => if truthy found then Normal (Some found) else Normal None
                  end
                else Normal None
            end
        end
      else Normal None
  end.

Definition expandViaCorsSite (fetch : Fetch) (shortUrl : string) : Completion JsVal :=
  match tryCorsSite fetch shortUrl with
  | Normal (Some found) => Normal found
  | Normal None => Throw "CORS-enabled services failed"
  | Throw _ => Throw "CORS-enabled services failed"      (* the empty [catch] *)
  end.

End Methods.

End URLExpander.

(** ** The Google Maps to GPX converter *)

Module Converter.
Import Js.

(** [text.replace(/c/g, replacement)] for a pattern that is one
    character. *)
Fixpoint replaceAll (c : ascii) (replacement : string) (text : string) : string :=
  match text with
  | EmptyString => EmptyString
  | String d text' =>
      (if Ascii.eqb d c then replacement else String d EmptyString)
      +:+ replaceAll c replacement text'
  end.

Definition escapeXml (text : string) : string :=
  replaceAll "'" "&#39;"
    (replaceAll (ascii_of_N 34) "&quot;"
       (replaceAll ">" "&gt;"
          (replaceAll "<" "&lt;"
             (replaceAll "&" "&amp;" text)))).

(** [isShortUrl]: the five patterns are literals. *)
Definition shortUrlPatterns : list URLExpander.Matcher :=
  [ URLExpander.lit "maps.app.goo.gl" URLExpander.accept;   (* /maps\.app\.goo\.gl/ *)
    URLExpander.lit "goo.gl/maps" URLExpander.accept;       (* /goo\.gl\/maps/ *)
    URLExpander.lit "bit.ly" URLExpander.accept;            (* /bit\.ly/ *)
    URLExpander.lit "tinyurl.com" URLExpander.accept;       (* /tinyurl\.com/ *)
    URLExpander.lit "t.co" URLExpander.accept ].            (* /t\.co/ *)

Definition isShortUrl (url : string) : bool :=
  existsb (fun pattern => URLExpander.test pattern url) shortUrlPatterns.

(** [/[^a-z0-9]/gi] matches a code unit below 256 exactly when it is not
    an ASCII letter or digit: with the [i] flag both sides are compared in
    upper case, and no other code unit of that range has an upper case
    among A-Z. *)
Definition isAlnum (c : ascii) : bool :=
  let n := code_unit c in
  ((65 <=? n) && (n <=? 90) || (97 <=? n) && (n <=? 122) || (48 <=? n) && (n <=? 57))%N.

(** [s.replace(/[^a-z0-9]/gi, '_')] *)
Fixpoint replaceNonAlnum (s : string) : string :=
  match s with
  | EmptyString => EmptyString
  | String c s' => String (if isAlnum c then c else "_"%char) (replaceNonAlnum s')
  end.

(** The texts [downloadGPX] hands to [showStatus]. *)
Inductive StatusText : Type :=
  | NoGpxData
      (* No GPX data to download. Please process URLs first. *)
  | EmptyGpxContent
      (* GPX content is empty. Please try processing the URLs again. *)
  | Downloaded (filename : string).
      (* GPX file <filename> downloaded successfully, and where to find it *)

Record Status : Type := mkStatus {
  status_text : StatusText;       (* textContent *)
  status_class : string           (* className *)
}.

(** A file the browser saves when the script clicks its link. *)
Record Download : Type := mkDownload {
  download_name : string;         (* a.download *)
  download_content : string;      (* the Blob's text *)
  download_type : string          (* the Blob's type *)
}.

Section Page.

(** A parsed point; [downloadGPX] only counts them. *)
Variable Point : Type.

Record ConverterPage : Type := mkConverterPage {
  parsedPoints : list Point;          (* this.parsedPoints *)
  routeName : option string;          (* value of #routeName *)
  gpxPreview : option string;         (* textContent of #gpxPreview *)
  statusMessage : option (option Status);
      (* #statusMessage, [Some None] before the first status *)
  downloads : list Download
}.

Definition showStatus (message : StatusText) (type : string) : Eff ConverterPage unit :=
  element ← gets statusMessage ;
  match element with
  | None => throw "Cannot set properties of null (setting 'textContent')"
  | Some _ =>
      modify (fun p =>
        mkConverterPage (parsedPoints p) (routeName p) (gpxPreview p)
          (Some (Some (mkStatus message ("status-message " +:+ type)))) (downloads p))
  end.

Definition downloadGPX : Eff ConverterPage unit :=
  points ← gets parsedPoints ;
  if (length points =? 0)%nat then showStatus NoGpxData "error"
  else
    preview ← gets gpxPreview ;
    match preview with
    | None => throw "Cannot read properties of null (reading 'textContent')"
    | Some gpxContent =>
        if isEmpty gpxContent || String.eqb (trim gpxContent) "" then
          showStatus EmptyGpxContent "error"
        else
          input ← gets routeName ;
          match input with
          | None => throw "Cannot read properties of null (reading 'value')"
          | Some value =>
              let name := if isEmpty (trim value) then "route" else trim value in
              let filename := toLowerCase (replaceNonAlnum name) +:+ ".gpx" in
              modify (fun p =>
                mkConverterPage (parsedPoints p) (routeName p) (gpxPreview p)
                  (statusMessage p)
                  (downloads p ++ [mkDownload filename gpxContent "application/gpx+xml"])) ;;
              showStatus (Downloaded filename) "success"
          end
    end.

End Page.

Arguments mkConverterPage {Point}.
Arguments parsedPoints {Point}.
Arguments routeName {Point}.
Arguments gpxPreview {Point}.
Arguments statusMessage {Point}.
Arguments downloads {Point}.
Arguments showStatus {Point}.
Arguments downloadGPX {Point}.

End Converter.

(** ** The archive store, as specified

    The Flask application that owns the archive (app.py) is not part of
    the tree.  This module follows sections 3, 4.2, 4.3 and 6 of the
    specification. *)

Module ArchiveStore.
Import Js.

(** Modelled from the spec: the states of an entry, the answers of an
    upload and the states of a job (sections 3 and 4); app.py is missing. *)
Inductive Status : Type := Uploaded | Queued | Processing | Ready | Failed.
Inductive Action : Type := Skipped | Created | Replaced.
Inductive JobState : Type := JobQueued | JobRunning | JobSucceeded | JobFailed.

(** Modelled from the spec: a build date, at day granularity (section
    4.2); app.py is missing. *)
Record Date : Type := mkDate {
  year : nat;
  month : nat;
  day : nat
}.

(** Modelled from the spec: the order of build dates that the dedup
    decision compares with; app.py is missing. *)
Definition date_leb (a b : Date) : bool :=
  (year a <? year b)%nat ||
  (year a =? year b)%nat &&
    ((month a <? month b)%nat || (month a =? month b)%nat && (day a <=? day b)%nat).

(** A number in decimal, padded with zeros to [width] digits. *)
Fixpoint pad (width : nat) (digits : string) : string :=
  match width with
  | O => digits
  | S w => if (String.length digits <=? w)%nat then "0" +:+ pad w digits else digits
  end.

(** Modelled from the spec: the formatted build date of an identity,
    [YYYYMMDD] (section 4.2); app.py is missing. *)
Definition format_date (d : Date) : string :=
  pad 4 (nat_to_string (year d)) +:+ pad 2 (nat_to_string (month d))
  +:+ pad 2 (nat_to_string (day d)).

(** Modelled from the spec: the ArchiveEntry of section 3; app.py is
    missing. *)
Record ArchiveEntry : Type := mkArchiveEntry {
  unique_id : string;
  original_filename : string;
  clean_name : string;
  build_date : Date;
  status : Status;
  output_directory : option string;
  description : string;
  created_at : Date;
  updated_at : Date
}.

(** Modelled from the spec: the Job of section 3; app.py is missing. *)
Record Job : Type := mkJob {
  job_id : nat;
  job_target : string;              (* the unique_id it works on *)
  job_state : JobState;
  progress : nat;
  phase_label : string;
  error_message : option string
}.

(** Modelled from the spec: the archive, that is the entries in listing
    order, the original bytes by [unique_id], and the jobs; app.py is
    missing. *)
Record Store : Type := mkStore {
  entries : list ArchiveEntry;
  originals : gmap string string;
  jobs : list Job
}.

(** Modelled from the spec: an upload as it arrives, that is the file,
    the build timestamp its document declares (already parsed, if any),
    and the day of receipt; app.py is missing. *)
Record Upload : Type := mkUpload {
  upload_filename : string;
  upload_bytes : string;
  declared_build_date : option Date;
  received_on : Date
}.

Inductive UploadResult : Type :=
  | ValidationError
  | Accepted (action : Action) (unique_id : string).

Section Policy.

(** The specification names these without fixing them. *)
Variable stem : string -> string.          (* a file name without its extension *)
Variable sanitize : string -> string.
Variable expected_extension : string.
Variable max_upload_bytes : nat.

(** Modelled from the spec: the upload constraints of section 6 (extension
    and size, checked before the identity is computed); app.py is missing. *)
Definition validate (u : Upload) : bool :=
  endsWith (upload_filename u) expected_extension &&
  (String.length (upload_bytes u) <=? max_upload_bytes)%nat.

(** Modelled from the spec: [clean_name = sanitize(stem(original_filename))]
    of section 4.2; app.py is missing. *)
Definition clean_name_of (u : Upload) : string := sanitize (stem (upload_filename u)).

(** Modelled from the spec: the build date of section 4.2, the declared
    timestamp if present and the day of receipt otherwise; app.py is
    missing. *)
Definition build_date_of (u : Upload) : Date :=
  match declared_build_date u with
  | Some d => d
  | None => received_on u
  end.

(** Modelled from the spec: [identify] of section 4.2, the clean name
    joined to the formatted build date ([name_YYYYMMDD]); app.py is
    missing. *)
Definition identify (u : Upload) : string :=
  clean_name_of u +:+ "_" +:+ format_date (build_date_of u).

Definition terminal (s : JobState) : bool :=
  match s with
  | JobSucceeded | JobFailed => true
  | JobQueued | JobRunning => false
  end.

(** Modelled from the spec: [enqueue] of section 4.3, which coalesces a
    request into the job in flight for the same identity; app.py is
    missing. *)
Definition enqueue (uid : string) (s : Store) : nat * Store :=
  match List.find (fun j => String.eqb (job_target j) uid && negb (terminal (job_state j)))
          (jobs s) with
  | Some j => (job_id j, s)
  | None =>
      let id := length (jobs s) in
      (id, mkStore (entries s) (originals s)
             (jobs s ++ [mkJob id uid JobQueued 0 "uploading" None]))
  end.

(** Modelled from the spec: the entry a Created or Replaced upload
    writes, in [Queued] and without output directory; app.py is missing. *)
Definition fresh_entry (u : Upload) : ArchiveEntry :=
  mkArchiveEntry (identify u) (upload_filename u) (clean_name_of u) (build_date_of u)
    Queued None "" (received_on u) (received_on u).

Definition has_clean_name (name : string) (e : ArchiveEntry) : bool :=
  String.eqb (clean_name e) name.

(** Modelled from the spec: the dedup decision of section 4.2 ([upsert]);
    app.py is missing.  An entry with the same clean name and a build date
    not older than the incoming one makes the upload [Skipped] and nothing
    is written; an older one is [Replaced] in place, with its bytes, and
    reset to [Queued]; no entry gives [Created]. *)
Definition upsert (u : Upload) (s : Store) : Action * string * Store :=
  match List.find (has_clean_name (clean_name_of u)) (entries s) with
  | Some existing =>
      if date_leb (build_date_of u) (build_date existing) then
        (Skipped, unique_id existing, s)
      else
        (Replaced, identify u,
         mkStore
           (map (fun e => if has_clean_name (clean_name_of u) e then fresh_entry u else e)
              (entries s))
           (<[identify u := upload_bytes u]> (delete (unique_id existing) (originals s)))
           (jobs s))
  | None =>
      (Created, identify u,
       mkStore (entries s ++ [fresh_entry u])
         (<[identify u := upload_bytes u]> (originals s))
         (jobs s))
  end.

(** Modelled from the spec: the Upload operation of section 6 with the
    data flow of section 2 (validate, identify and upsert, then a job when
    a fresh entry is needed); app.py is missing. *)
Definition upload (u : Upload) (s : Store) : UploadResult * Store :=
  if validate u then
    let '(action, uid, s1) := upsert u s in
    match action with
    | Skipped => (Accepted Skipped uid, s1)
    | _ => (Accepted action uid, snd (enqueue uid s1))
    end
  else (ValidationError, s).

End Policy.

End ArchiveStore.

(** ** The extractor, as specified

    The extraction engine (gpx_extractor.py) is not part of the tree.
    This module follows sections 3, 4.1 and 6 of the specification, from
    the parsed document on. *)

Module Extractor.
Import Js.

Record Point : Type := mkPoint {
  latitude : string;
  longitude : string;
  elevation : option string;
  timestamp : option string
}.

Record Marker : Type := mkMarker {
  marker_name : option string;
  marker_point : Point
}.

(** A track or a route. *)
Record Path : Type := mkPath {
  path_name : option string;
  path_points : list Point
}.

(** The two schema versions, and a document that declares none. *)
Inductive Namespace : Type := Gpx10 | Gpx11 | Unqualified.

Record Metadata : Type := mkMetadata {
  generated : string;
  meta_description : string;
  other_fields : list (string * string)
}.

(** Modelled from the spec: the GeoDocument of section 3;
    gpx_extractor.py is missing. *)
Record GeoDocument : Type := mkGeoDocument {
  namespace : Namespace;
  metadata : option Metadata;
  markers : list Marker;
  tracks : list Path;
  routes : list Path
}.

Inductive Content : Type :=
  | MarkersContent (ms : list Marker)
  | TrackContent (t : Path)
  | RouteContent (r : Path).

Record OutputDocument : Type := mkOutputDocument {
  out_filename : string;
  out_namespace : Namespace;
  out_metadata : Metadata;
  out_content : Content
}.

Record SummaryLine : Type := mkSummaryLine {
  line_file : string;
  line_kind : string;
  line_points : nat
}.

Record Summary : Type := mkSummary {
  summary_lines : list SummaryLine;
  total_markers : nat;
  total_tracks : nat;
  total_routes : nat;
  total_points : nat;              (* track and route points *)
  no_components : bool             (* the note "no components found" *)
}.

(** Modelled from the spec: the result of the Extractor's contract,
    [{markers_file, track_files[], route_files[], summary_text}];
    gpx_extractor.py is missing. *)
Record Extraction : Type := mkExtraction {
  markers_file : option OutputDocument;
  track_files : list OutputDocument;
  route_files : list OutputDocument;
  summary_text : Summary
}.

Definition content_points (c : Content) : nat :=
  match c with
  | MarkersContent ms => length ms
  | TrackContent t => length (path_points t)
  | RouteContent r => length (path_points r)
  end.

Definition content_kind (c : Content) : string :=
  match c with
  | MarkersContent _ => "markers"
  | TrackContent _ => "track"
  | RouteContent _ => "route"
  end.

Definition document_points (d : OutputDocument) : nat := content_points (out_content d).

(** Modelled from the spec: the points an extraction wrote (markers of
    the markers output, points of all track and route outputs), as the
    round-trip property of section 8 counts them; gpx_extractor.py is
    missing. *)
Definition output_points (e : Extraction) : nat :=
  from_option document_points 0 (markers_file e)
  + sum_list (document_points <$> track_files e)
  + sum_list (document_points <$> route_files e).

(** Modelled from the spec: the markers and the track and route points
    of an input document, counted the same way; gpx_extractor.py is
    missing. *)
Definition input_points (doc : GeoDocument) : nat :=
  length (markers doc)
  + sum_list ((fun t => length (path_points t)) <$> tracks doc)
  + sum_list ((fun r => length (path_points r)) <$> routes doc).

Section Extract.

Variable sanitize : string -> string.   (* the file-name sanitizer *)
Variable ext : string.                  (* the extension of the container format *)
Variable clean_name : string.           (* of the source file *)
Variable source_filename : string.
Variable now : string.                  (* the generation timestamp *)

(** Modelled from the spec: the rewritten metadata block of section 4.1;
    gpx_extractor.py is missing. *)
Definition rewrite_metadata (doc : GeoDocument) : Metadata :=
  mkMetadata now ("Extracted from " +:+ source_filename)
    (from_option other_fields [] (metadata doc)).

(** Modelled from the spec: the output file name of a track or route
    (section 4.1): the sanitized name, or the positional fallback;
    gpx_extractor.py is missing. *)
Definition path_filename (kind : string) (index : nat) (p : Path) : string :=
  match path_name p with
  | Some n => sanitize n +:+ ext
  | None => kind +:+ "_" +:+ nat_to_string index +:+ ext
  end.

Definition summary_line (d : OutputDocument) : SummaryLine :=
  mkSummaryLine (out_filename d) (content_kind (out_content d)) (document_points d).

(** Modelled from the spec: the Extractor of section 4.1, on a parsed
    document: one markers file when there are markers, one file per track
    and per route, and the summary; gpx_extractor.py is missing. *)
Definition extract (doc : GeoDocument) : Extraction :=
  let meta := rewrite_metadata doc in
  let markers_out :=
    match markers doc with
    | [] => None
    | ms => Some (mkOutputDocument (clean_name +:+ "_markers" +:+ ext) (namespace doc) meta
                    (MarkersContent ms))
    end in
  let tracks_out :=
    imap (fun i t => mkOutputDocument (path_filename "track" (S i) t) (namespace doc) meta
                       (TrackContent t)) (tracks doc) in
  let routes_out :=
    imap (fun i r => mkOutputDocument (path_filename "route" (S i) r) (namespace doc) meta
                       (RouteContent r)) (routes doc) in
  let files := from_option (fun d => [d]) [] markers_out ++ tracks_out ++ routes_out in
  mkExtraction markers_out tracks_out routes_out
    (mkSummary (summary_line <$> files)
       (length (markers doc)) (length (tracks doc)) (length (routes doc))
       (sum_list (document_points <$> tracks_out) + sum_list (document_points <$> routes_out))
       (match files with [] => true | _ => false end)).

End Extract.

End Extractor.

(** ** The vocabulary of the claims *)

Module Spec.
Import Js.

(** *** Select/Process *)

(** A response contains a field when reading it gives a value that counts
    as true: this is how the scripts test for it. *)
Definition contains (o : FetchOutcome) (key : string) : bool :=
  match o with
  | Json data =>
      match get_prop data key with
      | Normal v => truthy v
      | Throw _ => false
      end
  | Rejected _ => false
  end.

Definition field (o : FetchOutcome) (key : string) : JsVal :=
  match o with
  | Json data =>
      match get_prop data key with
      | Normal v => v
      | Throw _ => JUndefined
      end
  | Rejected _ => JUndefined
  end.

Definition items (p : Main.Page) : list Main.FileItem := Main.fileItems (Main.archive p).
Definition shown (p : Main.Page) : list Main.Toast := Main.toasts (Main.ui p).

Definition error_toast (message : string) : Main.Toast :=
  Main.mkToast "error" "fa-exclamation-triangle" message.



(** *** Deletion *)

(** The token [confirmDelete] reads: the trimmed value of the input. *)
Definition token_of (p : Main.Page) : string :=
  match Main.deleteToken (Main.dialog p) with
  | Some value => trim value
  | None => ""
  end.

(** No entry is selected for deletion: the global is [null], or empty. *)
Definition no_selection (p : Main.Page) : Prop :=
  Main.currentDeleteId (Main.dialog p) = None \/
  Main.currentDeleteId (Main.dialog p) = Some "".

(** Both guards of [confirmDelete] pass, for the entry [uid]. *)
Definition request_sent (p : Main.Page) (uid : string) : Prop :=
  token_of p <> "" /\ Main.currentDeleteId (Main.dialog p) = Some uid /\ uid <> "".

(** *** Upload validation *)

Definition has_gpx_extension (f : Main.File) : bool :=
  endsWith (toLowerCase (Main.name f)) ".gpx".

Definition within_size_limit (f : Main.File) : bool :=
  (Main.size f <=? 100 * 1024 * 1024)%Z.

Definition input_present (p : Main.Page) : Prop :=
  Main.fileInput (Main.chooser p) <> None.

(** The four elements that display the chosen file. *)
Definition display_present (p : Main.Page) : Prop :=
  Main.fileName (Main.chooser p) <> None /\ Main.fileSize (Main.chooser p) <> None /\
  Main.fileLabel (Main.chooser p) <> None /\ Main.fileInfo (Main.chooser p) <> None.

Definition holds_file (f : Main.File) (p : Main.Page) : Prop :=
  Main.fileInput (Main.chooser p) = Some (Some f).

(** What is asked of a change listener, for the file [f] picked on page
    [p]: a file that fails a check is rejected (input reset, error shown,
    nothing uploaded by a following submit); the file stays in the input
    only if it passes both checks; and a wrong extension is reported
    whatever the size. *)
Definition validates (listener : Main.Script unit) (f : Main.File) (p : Main.Page) : Prop :=
  let p' := Main.selectFile listener f p in
  (has_gpx_extension f = false \/ within_size_limit f = false ->
     Main.files0 p' = None /\
     (exists message, shown p' = shown p ++ [error_toast message]) /\
     Main.uploads (Main.submitUi (Main.submitForm p')) = Main.uploads (Main.submitUi p)) /\
  (Main.files0 p' = Some f <-> has_gpx_extension f && within_size_limit f = true) /\
  (has_gpx_extension f = false ->
     shown p' = shown p ++ [error_toast "Please select a GPX file"]).

(** *** Progress *)

(** The phases of the specification and their ranges of percentage. *)
Inductive Phase : Type := uploading | parsing | extracting | summarizing.

Definition phase_range (ph : Phase) : Q * Q :=
  match ph with
  | uploading => (0, 10)
  | parsing => (10, 40)
  | extracting => (40, 90)
  | summarizing => (90, 100)
  end%Q.

Definition in_phase_range (ph : Phase) (p : Q) : bool :=
  Qle_bool (fst (phase_range ph)) p && Qle_bool p (snd (phase_range ph)).

(** The phase each text of the progress display stands for. *)
Definition phase_of_text (text : string) : option Phase :=
  if String.eqb text "Uploading file..." then Some uploading
  else if String.eqb text "Analyzing GPX structure..." then Some parsing
  else if String.eqb text "Extracting components..." then Some extracting
  else if String.eqb text "Almost done..." then Some summarizing
  else None.

(** The percentage a frame displays. *)
Definition percentage (frame : Main.Frame) : Q := Double.to_Q (Main.frame_width frame).

(** The text of the frame is that of a phase whose range holds the
    percentage of the frame. *)
Definition follows_phase_ranges (frame : Main.Frame) : bool :=
  match phase_of_text (Main.frame_text frame) with
  | Some ph => in_phase_range ph (percentage frame)
  | None => false
  end.

(** The text of the frame goes with its percentage as the script has it:
    it changes at 30, 60 and 90. *)
Definition shows_by_thresholds (frame : Main.Frame) : Prop :=
  let p := percentage frame in
  let text := Main.frame_text frame in
  (text = "Uploading file..." <-> p < 30)%Q /\
  (text = "Analyzing GPX structure..." <-> 30 <= p /\ p < 60)%Q /\
  (text = "Extracting components..." <-> 60 <= p /\ p < 90)%Q /\
  (text = "Almost done..." <-> 90 <= p)%Q.

Definition widths (frames : list Main.Frame) : list Q := percentage <$> frames.

(** Never decreasing from one step to the next. *)
Definition non_decreasing (ws : list Q) : Prop :=
  forall i a b, ws !! i = Some a -> ws !! (S i) = Some b -> (a <= b)%Q.

(** What [Math.random()] returns: a double that is zero or positive and
    less than 1. *)
Definition is_draw (r : Double.double) : Prop :=
  Double.valid r = true /\
  Double.leb (Double.of_Z 0) r = true /\ Double.ltb r (Double.of_Z 1) = true.

(** *** URL expansion *)

(** A method yields a usable URL: it resolves to a value that counts as
    true, is not the input, and passes [isValidExpandedUrl]. *)
Definition acceptable (shortUrl : string) (c : Completion JsVal) : bool :=
  match c with
  | Normal v =>
      truthy v && URLExpander.differs v shortUrl &&
      match URLExpander.isValidExpandedUrl v with Normal true => true | _ => false end
  | Throw _ => false
  end.

Definition matches_a_host_pattern (url : string) : bool :=
  existsb (fun pattern => URLExpander.test pattern url) URLExpander.googleMapsPatterns.

Definition has_a_location_marker (url : string) : bool :=
  includes url "@" || includes url "q=" || includes url "dir/".

(** *** Selection on the results page *)

(** The displayed count is the size of the set, and the Download Selected
    button is disabled exactly when the set is empty. *)
Definition display_consistent (r : Results.ResultsPage) : Prop :=
  let count := Results.JsSet.size (Results.selectedFiles r) in
  (forall text, Results.selectedCount r = Some text -> text = nat_to_string count) /\
  (forall button, Results.downloadSelectedBtn r = Some button ->
     (Main.disabled button = true <-> Results.selectedFiles r = [])).

(** The part of the page that [display_consistent] reads. *)
Definition counters (r : Results.ResultsPage) :=
  (Results.selectedFiles r, Results.selectedCount r, Results.downloadSelectedBtn r).

(** A script that never throws. *)
Definition total {S} (m : Eff S unit) : Prop := forall s, fst (m s) = Normal tt.

(** *** Strings *)

(** Every character of the string is white space. *)
Definition blank (s : string) : Prop :=
  Forall (fun c => isWhiteSpace c = true) (list_ascii_of_string s).

(** A non-empty run of characters none of which ends a line: what [.+]
    matches. *)
Definition one_line (s : string) : Prop :=
  s <> "" /\ Forall (fun c => isLineTerminator c = false) (list_ascii_of_string s).

(** *** Concrete pages and inputs *)

Definition example_page : Main.Page :=
  Main.mkPage
    (Main.mkUi (Some "none") (Some "") "auto" [])
    (Main.mkDeleteDialog (Some "flex") (Some "S.gpx") (Some " secret ")
       (Some "S_20260102") (Some "S.gpx"))
    (Main.mkArchive
       [Main.mkFileItem "A_20251224" (Main.mkItemStyle "" "" "");
        Main.mkFileItem "S_20260102" (Main.mkItemStyle "" "" "")]
       (Some Main.Listing))
    (Main.mkFileChooser (Some None) (Some "inline-block") (Some "none") (Some "") (Some ""))
    (Main.mkSubmitUi (Some "none") (Some (Main.mkButton false "Extract")) false [])
    (Main.mkNet "/extract-gpx-parts" [] []).

(** The same page with only blanks typed into the token input. *)
Definition blank_token_page : Main.Page :=
  Main.upd_dialog (Main.set_deleteToken (Some "   ")) example_page.

Definition example_file : Main.File := Main.mkFile "Tour.GPX" (200 * 1024 * 1024).

Definition example_formatFileSize (bytes : Z) : string := Z_to_string bytes +:+ " B".

(** Eleven draws of 0.5, then 0.49999999999999994, the largest double
    below 0.5. *)
Definition example_draws : list Double.double :=
  repeat (Double.dyadic 1 (-1)) 11 ++ [Double.dyadic (2 ^ 53 - 1) (-54)].

Definition example_upload : ArchiveStore.Upload :=
  ArchiveStore.mkUpload "S.gpx" "<gpx/>" (Some (ArchiveStore.mkDate 2026 1 2))
    (ArchiveStore.mkDate 2026 3 14).

(** A stem and a sanitizer to run the archive with: the name up to its
    first dot, kept as it is. *)
Fixpoint example_stem (s : string) : string :=
  match s with
  | EmptyString => EmptyString
  | String c s' => if Ascii.eqb c "."%char then EmptyString else String c (example_stem s')
  end.

Definition example_sanitize (s : string) : string := s.

Definition empty_store : ArchiveStore.Store := ArchiveStore.mkStore [] ∅ [].

End Spec.

(** ** The vocabulary of the further properties *)

Module Properties.
Import Js.

(** *** The main script *)

(** The loading overlay is hidden and the page scrolls again. *)
Definition hidden_overlay (before after : Main.Page) : Prop :=
  Main.loadingOverlay (Main.ui after)
  = (fun _ => "none") <$> Main.loadingOverlay (Main.ui before) /\
  (Main.loadingOverlay (Main.ui before) <> None -> Main.bodyOverflow (Main.ui after) = "auto").

(** The delete dialog is closed: the modal hidden, the token input
    cleared, no entry selected for deletion any more. *)
Definition dialog_closed (before after : Main.Page) : Prop :=
  Main.deleteModal (Main.dialog after)
  = (fun _ => "none") <$> Main.deleteModal (Main.dialog before) /\
  Main.deleteToken (Main.dialog after)
  = (fun _ => "") <$> Main.deleteToken (Main.dialog before) /\
  Main.currentDeleteId (Main.dialog after) = None /\
  Main.currentDeleteName (Main.dialog after) = None.

(** The user types into the token input. *)
Definition type_token (text : string) (p : Main.Page) : Main.Page :=
  match Main.deleteToken (Main.dialog p) with
  | Some _ => Main.upd_dialog (Main.set_deleteToken (Some text)) p
  | None => p
  end.

Definition success_toast (message : string) : Main.Toast :=
  Main.mkToast "success" "fa-check-circle" message.

(** *** The results page *)

(** The names of the ticked checkboxes, in document order. *)
Definition ticked (r : Results.ResultsPage) : list string :=
  Results.filename <$> List.filter Results.checked (Results.checkboxes r).

(** The names of all checkboxes. *)
Definition box_names (r : Results.ResultsPage) : list string :=
  Results.filename <$> Results.checkboxes r.

(** The set holds exactly the names of the ticked checkboxes. *)
Definition selection_agrees (r : Results.ResultsPage) : Prop :=
  forall name, name ∈ Results.selectedFiles r <-> name ∈ ticked r.

(** A page as the server renders it: nothing ticked, nothing selected, and
    no two checkboxes for the same file. *)
Definition fresh_page (r : Results.ResultsPage) : Prop :=
  Results.selectedFiles r = [] /\ ticked r = [] /\ NoDup (box_names r).

(** The name of the checkbox of a row, and that name when it is ticked. *)
Definition row_name (row : Results.FileRow) : option string :=
  Results.filename <$> Results.row_checkbox row.

Definition row_ticked (row : Results.FileRow) : option string :=
  checkbox ← Results.row_checkbox row ;
  if Results.checked checkbox then Some (Results.filename checkbox) else None.

(** What the selection functions keep: unique names, a set without
    repetition, and the set agreeing with the checkboxes. *)
Definition selection_invariant (r : Results.ResultsPage) : Prop :=
  NoDup (box_names r) /\ NoDup (Results.selectedFiles r) /\ selection_agrees r.

(** The select-all checkbox shows what [updateSelectAllCheckbox] computes
    from the set and the checkboxes. *)
Definition box_consistent (r : Results.ResultsPage) : Prop :=
  forall box, Results.selectAllCheckbox r = Some box ->
    let total := length (Results.checkboxes r) in
    let selected := Results.JsSet.size (Results.selectedFiles r) in
    box = Results.mkSelectAllBox
            ((selected =? total)%nat && (0 <? total)%nat)
            ((0 <? selected)%nat && (selected <? total)%nat).

(** The select-all checkbox as the server renders it. *)
Definition box_clear (r : Results.ResultsPage) : Prop :=
  forall box, Results.selectAllCheckbox r = Some box ->
    box = Results.mkSelectAllBox false false.

Definition all_ticked (r : Results.ResultsPage) : Prop :=
  Results.checkboxes r <> [] /\
  Forall (fun checkbox => Results.checked checkbox = true) (Results.checkboxes r).

Definition some_ticked (r : Results.ResultsPage) : Prop :=
  Exists (fun checkbox => Results.checked checkbox = true) (Results.checkboxes r).

Definition some_unticked (r : Results.ResultsPage) : Prop :=
  Exists (fun checkbox => Results.checked checkbox = false) (Results.checkboxes r).

(** The file names of the checkboxes in the rows of one [data-type]. *)
Definition names_of_type (type : string) (r : Results.ResultsPage) : list string :=
  Results.filename <$>
    omap Results.row_checkbox
      (List.filter (fun row => String.eqb (Results.data_type row) type) (Results.rows r)).

(** The request that [downloadSelected] sends for the page [r]. *)
Definition download_request (r : Results.ResultsPage) : Main.Request :=
  Main.mkRequest "/download-selected" "POST"
    (JObj {[ "files" := JArr (JStr <$> Results.selectedFiles r);
             "directory" := JStr (Results.outputDirectory r) ]}).

(** The overlay of the results page is hidden, if the page has one. *)
Definition overlay_hidden (r : Results.ResultsPage) : Prop :=
  forall overlay, Results.loadingOverlay r = Some overlay ->
    Results.overlay_display overlay = "none".

(** A results page with two files and a row without checkbox, as
    rendered. *)
Definition example_results : Results.ResultsPage :=
  Results.mkResultsPage
    [ Results.mkFileRow "track" (Some (Results.mkCheckbox "tour_track.gpx" false));
      Results.mkFileRow "waypoints" (Some (Results.mkCheckbox "tour_waypoints.gpx" false));
      Results.mkFileRow "route" None ]
    [] (Some "0") (Some (Main.mkButton true "Download Selected (0)"))
    (Some (Results.mkSelectAllBox false false))
    (Some (Results.mkOverlay "none" (Some "")))
    "tour_20260102" [] [] [].

(** *** Encoded URL components *)

(** A character of an encoded component: unreserved, or part of [%XX]. *)
Definition uri_char (c : ascii) : bool :=
  Uri.unreserved c || Ascii.eqb c "%".

Definition uri_safe (s : string) : Prop :=
  Forall (fun c => uri_char c = true) (list_ascii_of_string s).

Definition hexValue (c : ascii) : N :=
  let n := code_unit c in if (n <? 58)%N then (n - 48)%N else (n - 55)%N.

(** Reads one encoded code unit back from the front of a string. *)
Definition decodeUnit (s : string) : option (ascii * string) :=
  match s with
  | String "%" (String h1 (String h2 rest)) =>
      let octet := (hexValue h1 * 16 + hexValue h2)%N in
      if (octet <? 128)%N then Some (ascii_of_N octet, rest)
      else
        match rest with
        | String "%" (String h3 (String h4 rest')) =>
            Some (ascii_of_N ((octet - 192) * 64 + (hexValue h3 * 16 + hexValue h4 - 128)),
                  rest')
        | _ => None
        end
  | String c rest => Some (c, rest)
  | EmptyString => None
  end.

(** *** URL expansion *)

(** How a number prints: digits, a sign, a point, an exponent, or one of
    the words [Infinity] and [NaN]. *)
Definition numeric (s : string) : Prop :=
  Forall (fun c => includes "0123456789+-.eInfinityNaN" (String c "") = true)
    (list_ascii_of_string s).

(** No double quote and no apostrophe. *)
Definition quote_free (s : string) : Prop :=
  Forall (fun c => URLExpander.isQuote c = false) (list_ascii_of_string s).

(** [url] stands in [html] right before a quote. *)
Definition before_a_quote (html url : string) : Prop :=
  exists pre quote post,
    html = pre +:+ url +:+ String quote post /\ URLExpander.isQuote quote = true.

(** What every match of a pattern delivers. *)
Definition delivers_url (pattern : URLExpander.Capture) : Prop :=
  forall s found, pattern s = Some found ->
    found <> "" /\ quote_free found /\ before_a_quote s found.

(** The end of a pattern hands the group over unchanged. *)
Definition returns_group (k : string -> URLExpander.Capture) : Prop :=
  forall group s found, k group s = Some found -> found = group.

(** *** The converter *)

(** What [escapeXml] makes of one character. *)
Definition xml_entity (c : ascii) : string :=
  if Ascii.eqb c "&" then "&amp;"
  else if Ascii.eqb c "<" then "&lt;"
  else if Ascii.eqb c ">" then "&gt;"
  else if Ascii.eqb c (ascii_of_N 34) then "&quot;"
  else if Ascii.eqb c "'" then "&#39;"
  else String c "".

(** The text with every character replaced by its entity, in one pass. *)
Fixpoint escaped (text : string) : string :=
  match text with
  | EmptyString => EmptyString
  | String c text' => xml_entity c +:+ escaped text'
  end.

(** No character that opens or closes markup or an attribute value. *)
Definition markup_free (s : string) : Prop :=
  Forall (fun c => c <> "<"%char /\ c <> ">"%char /\ c <> ascii_of_N 34 /\ c <> "'"%char)
    (list_ascii_of_string s).

(** A lower-case letter, a digit or an underscore. *)
Definition file_name_char (c : ascii) : bool :=
  let n := code_unit c in
  ((97 <=? n) && (n <=? 122) || (48 <=? n) && (n <=? 57) || (n =? 95))%N.

(** The name [downloadGPX] gives the file for the route name in the
    input. *)
Definition gpx_file_name (value : string) : string :=
  toLowerCase
    (Converter.replaceNonAlnum (if isEmpty (trim value) then "route" else trim value))
  +:+ ".gpx".

Definition error_status (text : Converter.StatusText) : Converter.Status :=
  Converter.mkStatus text "status-message error".

End Properties.

(** * Proofs *)

Import Js Spec.

(** ** Running scripts *)

Ltac monad_unfold :=
  cbv beta iota zeta delta
    [mbind mret eff_bind eff_ret bind ret lift gets modify throw try_catch when exec
     fst snd].

Ltac monad_unfold_in H :=
  cbv beta iota zeta delta
    [mbind mret eff_bind eff_ret bind ret lift gets modify throw try_catch when exec
     fst snd] in H.

Ltac main_unfold :=
  unfold Main.processFile, Main.processFile_start, Main.processFile_settle,
    Main.processFile_then, Main.processFile_catch,
    Main.confirmDelete, Main.confirmDelete_start, Main.confirmDelete_settle,
    Main.confirmDelete_then, Main.confirmDelete_catch, Main.removeItem_timer,
    Main.querySelector_unique_id, Main.hideDeleteDialog,
    Main.showLoading, Main.hideLoading, Main.fetch_post, Main.navigate, Main.showToast;
  monad_unfold.

Ltac upload_unfold :=
  unfold Main.selectFile, Main.onFileChange, Main.onFileChange_v1, Main.validateFile,
    Main.resetFileInput, Main.write_element, Main.showToast, Main.submitForm, Main.onSubmit,
    Main.files0;
  monad_unfold.

Ltac results_unfold :=
  unfold Results.perform, Results.selectAll, Results.selectNone, Results.selectByType,
    Results.toggleSelectAll, Results.onCheckboxChange, Results.initializeResults,
    Results.updateSelectedCount, Results.updateSelectAllCheckbox, Results.showToast,
    Results.downloadSelected, Results.downloadSelected_start, Results.showLoadingOverlay,
    Results.hideLoadingOverlay;
  monad_unfold.

Lemma total_modify {S} (f : S -> S) : total (modify f).
Proof. intros s. reflexivity. Qed.

Lemma total_seq {S} (m k : Eff S unit) : total m -> total k -> total (m ;; k).
Proof.
  intros Hm Hk s. specialize (Hm s).
  unfold mbind, eff_bind, bind. destruct (m s) as [c s']. cbn in Hm. subst c. apply Hk.
Qed.

Lemma exec_seq {S} (m k : Eff S unit) (s : S) :
  total m -> exec (m ;; k) s = exec k (exec m s).
Proof.
  intros Hm. specialize (Hm s).
  unfold exec, mbind, eff_bind, bind. destruct (m s) as [c s']. cbn in Hm. subst c.
  reflexivity.
Qed.

Lemma exec_throw {S} (message : string) (k : Eff S unit) (s : S) :
  exec (@throw S unit message ;; k) s = s.
Proof. reflexivity. Qed.

Lemma isEmpty_true (s : string) : isEmpty s = true <-> s = "".
Proof. destruct s; cbn; split; congruence. Qed.

Lemma isEmpty_false (s : string) : isEmpty s = false <-> s <> "".
Proof. destruct s; cbn; split; congruence. Qed.

(** ** Strings *)

Lemma append_nil_l (s : string) : "" +:+ s = s.
Proof. reflexivity. Qed.

Lemma append_cons (c : ascii) (s t : string) : String c s +:+ t = String c (s +:+ t).
Proof. reflexivity. Qed.

Lemma startsWith_spec (s p : string) :
  startsWith s p = true <-> exists rest, s = p +:+ rest.
Proof.
  revert s. induction p as [|c p IH]; intros s; cbn.
  - split; [intros _; exists s; reflexivity|reflexivity].
  - destruct s as [|d s]; [split; [discriminate|intros [rest [=]]]|].
    rewrite andb_true_iff, IH, Ascii.eqb_eq. split.
    + intros [-> [rest ->]]. exists rest. reflexivity.
    + intros [rest [= -> ->]]. eauto.
Qed.

Lemma includes_spec (s sub : string) :
  includes s sub = true <-> exists pre post, s = pre +:+ sub +:+ post.
Proof.
  induction s as [|c s IH].
  - cbn [includes]. rewrite orb_false_r, startsWith_spec. split.
    + intros [rest H]. exists "", rest. exact H.
    + intros ([|d pre] & post & H); [exists post; exact H|discriminate].
  - cbn [includes]. rewrite orb_true_iff, startsWith_spec, IH. split.
    + intros [[rest ->] | (pre & post & ->)].
      * exists "", rest. reflexivity.
      * exists (String c pre), post. reflexivity.
    + intros ([|d pre] & post & H).
      * left. exists post. exact H.
      * right. injection H as -> ->. eauto.
Qed.

Lemma endsWith_spec (s suffix : string) :
  endsWith s suffix = true <-> exists pre, s = pre +:+ suffix.
Proof.
  induction s as [|c s IH].
  - cbn [endsWith]. rewrite orb_false_r, String.eqb_eq. split.
    + intros <-. exists "". reflexivity.
    + intros [[|d pre] H]; [exact H|discriminate].
  - cbn [endsWith]. rewrite orb_true_iff, String.eqb_eq, IH. split.
    + intros [<- | [pre ->]]; [exists ""; reflexivity|exists (String c pre); reflexivity].
    + intros [[|d pre] H]; [left; exact H|right].
      injection H as -> ->. eauto.
Qed.

Lemma trimStart_empty (s : string) : trimStart s = "" <-> blank s.
Proof.
  unfold blank. induction s as [|c s IH]; cbn.
  - split; [constructor|reflexivity].
  - destruct (isWhiteSpace c) eqn:E.
    + rewrite IH. split; [intros H; constructor; assumption|intros H; inversion H; assumption].
    + split; [discriminate|]. intros H. inversion H. congruence.
Qed.

Lemma trimEnd_empty (s : string) : trimEnd s = "" -> s = "" \/ trimStart s = "".
Proof.
  induction s as [|c s IH]; cbn; [auto|].
  destruct (isWhiteSpace c) eqn:E; cbn.
  - destruct (isEmpty (trimEnd s)) eqn:E2; [|discriminate].
    intros _. right. destruct (trimEnd s) eqn:E3; [|discriminate].
    destruct (IH eq_refl) as [-> | H]; [reflexivity|exact H].
  - discriminate.
Qed.

Lemma trimEnd_blank (s : string) : blank s -> trimEnd s = "".
Proof.
  unfold blank. induction s as [|c s IH]; cbn; [reflexivity|].
  intros H. inversion H as [|? ? Hc Hs]; subst. rewrite Hc, (IH Hs). reflexivity.
Qed.

Lemma trimStart_idem (s : string) : trimStart (trimStart s) = trimStart s.
Proof.
  induction s as [|c s IH]; cbn; [reflexivity|].
  destruct (isWhiteSpace c) eqn:E; [exact IH|]. cbn. rewrite E. reflexivity.
Qed.

(** What trims to nothing is what consists of white space. *)
Lemma trim_empty (s : string) : trim s = "" <-> blank s.
Proof.
  unfold trim. split.
  - intros H. apply trimEnd_empty in H as [H|H].
    + apply trimStart_empty, H.
    + rewrite trimStart_idem in H. apply trimStart_empty, H.
  - intros H. apply trimStart_empty in H. rewrite H. reflexivity.
Qed.

(** ** Select/Process *)







(** ** Deletion *)

Lemma delete_alter_same {A} (f : A -> A) (i : nat) (l : list A) :
  delete i (alter f i l) = delete i l.
Proof.
  revert i; induction l as [|x l IH]; intros [|i]; cbn; try reflexivity.
  f_equal. apply IH.
Qed.

Lemma delete_neq {A} (i : nat) (l : list A) : (i < length l)%nat -> delete i l <> l.
Proof.
  intros Hi Heq. apply (f_equal length) in Heq.
  rewrite length_delete in Heq; [lia|].
  apply lookup_lt_is_Some. exact Hi.
Qed.

Lemma find_item_lt (uid : string) (l : list Main.FileItem) (i : nat) :
  Main.find_item uid l = Some i -> (i < length l)%nat.
Proof.
  revert i; induction l as [|x l IH]; intros i; cbn; [discriminate|].
  destruct (String.eqb _ _).
  - intros [= <-]. lia.
  - destruct (Main.find_item uid l) as [j|]; cbn; [|discriminate].
    intros [= <-]. specialize (IH j eq_refl). lia.
Qed.

Lemma find_item_id (uid : string) (l : list Main.FileItem) (i : nat) :
  Main.find_item uid l = Some i ->
  exists item, l !! i = Some item /\ Main.data_unique_id item = uid.
Proof.
  revert i; induction l as [|x l IH]; intros i; cbn; [discriminate|].
  destruct (String.eqb _ _) eqn:E.
  - intros [= <-]. exists x. split; [reflexivity|]. apply String.eqb_eq, E.
  - destruct (Main.find_item uid l) as [j|]; cbn; [|discriminate].
    intros [= <-]. apply (IH j eq_refl).
Qed.

(** With both guards passed, the synchronous part sends the request and
    leaves the list and the toasts alone. *)
Lemma confirmDelete_start_sent (p : Main.Page) (uid : string) :
  request_sent p uid ->
  exists p1,
    Main.confirmDelete_start p =
      (Normal (Some (uid, Main.currentDeleteName (Main.dialog p))), p1) /\
    Main.archive p1 = Main.archive p /\ shown p1 = shown p /\
    exists request, Main.requests (Main.net p1) = Main.requests (Main.net p) ++ [request].
Proof.
  intros (Htok & Hid & Huid). apply isEmpty_false in Htok, Huid.
  unfold token_of in Htok. main_unfold. rewrite Htok, Hid, Huid.
  eexists; split; [reflexivity|].
  destruct p as [[[ov|] [txt|] bo ts] d a c s n]; cbn; eauto.
Qed.

Lemma confirmDelete_settle_failure (uid : string) (name : option string)
    (o : FetchOutcome) (p : Main.Page) :
  contains o "success" = false ->
  exists p2 message,
    Main.confirmDelete_settle uid name o p = (Normal None, p2) /\
    Main.archive p2 = Main.archive p /\ shown p2 = shown p ++ [error_toast message].
Proof.
  intros Hs.
  destruct p as [[ov txt bo ts] [dm dn dt did dname] a c s n].
  main_unfold. destruct o as [m | data].
  - destruct ov, dm, dt; cbn; eauto.
  - destruct data; cbn in Hs; try discriminate; cbn [get_prop];
      try (destruct ov, dm, dt; cbn; eauto; fail).
    revert Hs.
    generalize (default JUndefined (fields !! "success")) as sc.
    generalize (default JUndefined (fields !! "error")) as e. intros e sc Hs.
    rewrite Hs. destruct (js_to_string (js_or e _)) as [text|message];
      destruct ov, dm, dt; cbn; eauto.
Qed.

Lemma confirmDelete_settle_success (uid : string) (name : option string)
    (o : FetchOutcome) (p : Main.Page) :
  contains o "success" = true ->
  Main.cssStringPlain uid = true ->
  exists p2,
    Main.confirmDelete_settle uid name o p = (Normal (Main.find_item uid (items p)), p2) /\
    Main.filesList (Main.archive p2) = Main.filesList (Main.archive p) /\
    items p2 =
      match Main.find_item uid (items p) with
      | Some i => alter Main.fade_out i (items p)
      | None => items p
      end.
Proof.
  intros Hs Hplain.
  destruct o as [m | data]; [discriminate|].
  destruct p as [[ov txt bo ts] [dm dn dt did dname] [its fl] c s n].
  destruct data; cbn in Hs; try discriminate.
  main_unfold. cbn [get_prop]. revert Hs.
  generalize (default JUndefined (fields !! "success")) as sc. intros sc Hs.
  rewrite Hs, Hplain. unfold items.
  destruct ov, dm, dt; cbn; destruct (Main.find_item uid its); cbn; eauto.
Qed.

Lemma removeItem_timer_items (i : nat) (p : Main.Page) :
  items (exec (Main.removeItem_timer i) p) = delete i (items p).
Proof.
  destruct p as [u d [its fl] c s n]. main_unfold. unfold items. cbn.
  destruct fl; cbn; [|reflexivity].
  destruct (length (delete i its) =? 0)%nat; reflexivity.
Qed.

Lemma confirmDelete_exec (o : FetchOutcome) (p p1 p2 : Main.Page)
    (uid : string) (name : option string) (r : option nat) :
  Main.confirmDelete_start p = (Normal (Some (uid, name)), p1) ->
  Main.confirmDelete_settle uid name o p1 = (Normal r, p2) ->
  exec (Main.confirmDelete o) p =
    match r with Some i => exec (Main.removeItem_timer i) p2 | None => p2 end.
Proof.
  intros H1 H2. unfold Main.confirmDelete. monad_unfold. rewrite H1, H2.
  destruct r; reflexivity.
Qed.

(** C3: for a delete attempt that reaches the server, a response that does
    not report success leaves the archive list (its entries and the
    container) exactly as it was and shows an error toast; and an entry
    that is displayed is removed from the list if and only if the response
    reports success. *)
Theorem confirmDelete_removes_iff_success (o : FetchOutcome) (p : Main.Page) (uid : string) :
  request_sent p uid ->
  let p' := exec (Main.confirmDelete o) p in
  (contains o "success" = false ->
     Main.archive p' = Main.archive p /\
     exists message, shown p' = shown p ++ [error_toast message]) /\
  (forall i, Main.cssStringPlain uid = true -> Main.find_item uid (items p) = Some i ->
     (items p' = delete i (items p) <-> contains o "success" = true)).
Proof.
  intros Hsent p'.
  destruct (confirmDelete_start_sent p uid Hsent) as (p1 & Hstart & Harch1 & Hshown1 & _).
  assert (Hfail : contains o "success" = false ->
     Main.archive p' = Main.archive p /\
     exists message, shown p' = shown p ++ [error_toast message]).
  { intros Hs.
    destruct (confirmDelete_settle_failure uid (Main.currentDeleteName (Main.dialog p)) o p1 Hs)
      as (p2 & message & Hsettle & Harch2 & Hshown2).
    subst p'. rewrite (confirmDelete_exec _ _ _ _ _ _ _ Hstart Hsettle).
    split; [congruence|]. exists message. congruence. }
  split; [exact Hfail|].
  intros i Hplain Hfind.
  destruct (contains o "success") eqn:Hs.
  - split; [reflexivity|]. intros _.
    destruct (confirmDelete_settle_success uid (Main.currentDeleteName (Main.dialog p)) o p1
                Hs Hplain) as (p2 & Hsettle & _ & Hitems2).
    assert (Hi1 : items p1 = items p) by (unfold items; congruence).
    rewrite Hi1, Hfind in Hsettle, Hitems2.
    subst p'. rewrite (confirmDelete_exec _ _ _ _ _ _ _ Hstart Hsettle).
    rewrite removeItem_timer_items, Hitems2. apply delete_alter_same.
  - split; [|discriminate]. intros Hrem.
    destruct (Hfail eq_refl) as [Harch _].
    unfold items in Hrem at 1. rewrite Harch in Hrem. fold (items p) in Hrem.
    symmetry in Hrem. apply delete_neq in Hrem; [contradiction|].
    eapply find_item_lt; eauto.
Qed.

(** On the example page the entry S_20260102 is selected and a token is
    typed in; a successful response removes that entry and keeps the other. *)
Lemma confirmDelete_removes_iff_success_witness :
  request_sent example_page "S_20260102" /\
  items (exec (Main.confirmDelete (Json (JObj {[ "success" := JBool true ]}))) example_page)
  = [Main.mkFileItem "A_20251224" (Main.mkItemStyle "" "" "")].
Proof.
  assert (H : request_sent example_page "S_20260102")
    by (repeat split; vm_compute; discriminate).
  split; [exact H|].
  apply (proj2 (confirmDelete_removes_iff_success
                  (Json (JObj {[ "success" := JBool true ]})) example_page "S_20260102" H)
           1%nat eq_refl eq_refl).
  reflexivity.
Defined.

(** C9: when the trimmed token is empty, or no entry is selected for
    deletion, [confirmDelete] sends no request and changes nothing on the
    page but for one warning or error toast. *)
Theorem confirmDelete_guards (o : FetchOutcome) (p : Main.Page) :
  token_of p = "" \/ no_selection p ->
  let p' := exec (Main.confirmDelete o) p in
  Main.requests (Main.net p') = Main.requests (Main.net p) /\
  Main.archive p' = Main.archive p /\
  exists toast,
    (Main.toast_type toast = "warning" \/ Main.toast_type toast = "error") /\
    p' = Main.upd_ui (Main.set_toasts (shown p ++ [toast])) p.
Proof.
  intros H.
  unfold Main.confirmDelete, Main.confirmDelete_start, Main.showToast, shown.
  monad_unfold. fold (token_of p).
  destruct (isEmpty (token_of p)) eqn:Ht.
  - cbn. split; [reflexivity|]. split; [reflexivity|].
    eexists; split; [|reflexivity]; left; reflexivity.
  - apply isEmpty_false in Ht.
    destruct H as [H | [H | H]]; [congruence | |]; rewrite H; cbn;
      (split; [reflexivity|]; split; [reflexivity|]);
      eexists; (split; [|reflexivity]); right; reflexivity.
Qed.

(** With only blanks in the token input, nothing is sent. *)
Lemma confirmDelete_guards_witness :
  token_of blank_token_page = "" /\
  Main.requests
    (Main.net (exec (Main.confirmDelete (Json (JObj {[ "success" := JBool true ]})))
                 blank_token_page)) = [].
Proof.
  split; [reflexivity|].
  exact (proj1 (confirmDelete_guards (Json (JObj {[ "success" := JBool true ]}))
                  blank_token_page (or_introl eq_refl))).
Defined.

(** ** Upload validation *)

Lemma size_check (f : Main.File) :
  (Main.MAX_UPLOAD_BYTES <? Main.size f)%Z = negb (within_size_limit f).
Proof. unfold within_size_limit, Main.MAX_UPLOAD_BYTES. lia. Qed.

(** The validation block, on a page whose input holds the file. *)
Lemma validateFile_spec (f : Main.File) (p : Main.Page) :
  holds_file f p ->
  let p' := exec (Main.validateFile f) p in
  Main.submitUi p' = Main.submitUi p /\
  (if has_gpx_extension f then
     if within_size_limit f then
       Main.files0 p' = Some f
     else
       Main.files0 p' = None /\
       shown p' = shown p ++ [error_toast "File is too large. Maximum size is 100MB"]
   else
     Main.files0 p' = None /\ shown p' = shown p ++ [error_toast "Please select a GPX file"]).
Proof.
  unfold holds_file.
  destruct p as [u d a [fi fl fo fn fs] sb n]. cbn. intros ->.
  upload_unfold. fold (has_gpx_extension f). rewrite (size_check f).
  destruct (has_gpx_extension f), (within_size_limit f); cbn;
    destruct fl, fo; cbn; auto.
Qed.

Lemma submitForm_without_file (p : Main.Page) :
  Main.files0 p = None ->
  Main.uploads (Main.submitUi (Main.submitForm p)) = Main.uploads (Main.submitUi p).
Proof.
  destruct p as [u d a [fi fl fo fn fs] [pd ub dp ups] n].
  upload_unfold. cbn. intros ->. reflexivity.
Qed.

(** A listener that ends in the validation block, after display updates
    that keep the file, the toasts and the submit side, validates. *)
Lemma validates_intro (listener : Main.Script unit) (f : Main.File) (p p0 : Main.Page) :
  Main.selectFile listener f p = exec (Main.validateFile f) p0 ->
  holds_file f p0 -> shown p0 = shown p -> Main.submitUi p0 = Main.submitUi p ->
  validates listener f p.
Proof.
  intros Hsel Hfile Hshown Hsub. unfold validates. rewrite Hsel.
  destruct (validateFile_spec f p0 Hfile) as [Hsub' Hcases].
  rewrite Hshown in Hcases.
  destruct (has_gpx_extension f), (within_size_limit f); cbn [andb].
  - split; [intros [?|?]; discriminate|]. split; [tauto|discriminate].
  - destruct Hcases as [Hnone Htoast].
    split; [intros _|split; [rewrite Hnone; split; discriminate|discriminate]].
    split; [exact Hnone|]. split; [eauto|].
    rewrite submitForm_without_file by exact Hnone. congruence.
  - destruct Hcases as [Hnone Htoast].
    split; [intros _|split; [rewrite Hnone; split; discriminate|intros _; exact Htoast]].
    split; [exact Hnone|]. split; [eauto|].
    rewrite submitForm_without_file by exact Hnone. congruence.
  - destruct Hcases as [Hnone Htoast].
    split; [intros _|split; [rewrite Hnone; split; discriminate|intros _; exact Htoast]].
    split; [exact Hnone|]. split; [eauto|].
    rewrite submitForm_without_file by exact Hnone. congruence.
Qed.

(** C2: a file picked in the upload form whose lowercased name does not
    end with .gpx, or whose size exceeds 100*1024*1024 bytes, is rejected:
    the input is reset, an error toast is shown, and a following submit
    uploads nothing.  The file stays in the input only if it passes both
    checks, and the extension is checked first.  This holds for the
    current listener on every page with the file input, and for the first
    version of the script when the four display elements exist. *)
Theorem upload_validation (formatFileSize : Z -> string) (f : Main.File) (p : Main.Page) :
  input_present p ->
  validates (Main.onFileChange formatFileSize) f p /\
  (display_present p -> validates (Main.onFileChange_v1 formatFileSize) f p).
Proof.
  intros Hin.
  destruct p as [u d a [fi fl fo fn fs] sb n].
  unfold input_present in Hin; cbn in Hin.
  destruct fi as [fi|]; [clear Hin|congruence].
  split.
  - destruct fn, fs, fl, fo.
    all: eapply validates_intro;
      [ unfold Main.selectFile, Main.onFileChange, Main.files0; monad_unfold; cbn;
        reflexivity
      | reflexivity | reflexivity | reflexivity ].
  - intros (H1 & H2 & H3 & H4); cbn in H1, H2, H3, H4.
    destruct fn; [|congruence]. destruct fs; [|congruence].
    destruct fl; [|congruence]. destruct fo; [|congruence].
    eapply validates_intro;
      [ unfold Main.selectFile, Main.onFileChange_v1, Main.write_element, Main.files0;
        monad_unfold; cbn; reflexivity
      | reflexivity | reflexivity | reflexivity ].
Qed.

(** Tour.GPX has the right extension and 200 MB: it is rejected for its
    size and the input is empty again. *)
Lemma upload_validation_witness :
  input_present example_page /\
  Main.files0 (Main.selectFile (Main.onFileChange example_formatFileSize)
                 example_file example_page) = None.
Proof.
  assert (H : input_present example_page) by (vm_compute; discriminate).
  split; [exact H|].
  apply (proj1 (proj1 (upload_validation example_formatFileSize example_file example_page H))).
  right. reflexivity.
Defined.

(** ** Progress *)

Section Doubles.
Import Double.
Local Open Scope Z_scope.

(** *** Rounding, on whole numbers of units *)

Lemma pow2_pos (n : Z) : 0 <= n -> 0 < 2 ^ n.
Proof. intros. apply Z.pow_pos_nonneg; lia. Qed.

Lemma rne_range (k n : Z) : 0 <= n -> k / 2 ^ n <= nearest_even k n <= k / 2 ^ n + 1.
Proof.
  intros Hn. unfold nearest_even. cbv zeta.
  destruct (2 * (k mod 2 ^ n) ?= 2 ^ n); [destruct (Z.even _)| |]; lia.
Qed.

Lemma rne_mono (k1 k2 n : Z) : 0 <= n -> k1 <= k2 -> nearest_even k1 n <= nearest_even k2 n.
Proof.
  intros Hn Hk. pose proof (pow2_pos n Hn) as Hp.
  assert (Hq : k1 / 2 ^ n <= k2 / 2 ^ n) by (apply Z.div_le_mono; lia).
  destruct (Z.eq_dec (k1 / 2 ^ n) (k2 / 2 ^ n)) as [E|E].
  - assert (Hr : k1 mod 2 ^ n <= k2 mod 2 ^ n).
    { rewrite !Z.mod_eq by lia. rewrite E. lia. }
    unfold nearest_even. cbv zeta. rewrite E.
    destruct (Z.compare_spec (2 * (k1 mod 2 ^ n)) (2 ^ n));
      destruct (Z.compare_spec (2 * (k2 mod 2 ^ n)) (2 ^ n));
      destruct (Z.even (k2 / 2 ^ n)); lia.
  - pose proof (rne_range k1 n Hn). pose proof (rne_range k2 n Hn). lia.
Qed.

Lemma rne_multiple (q n : Z) : 0 <= n -> nearest_even (q * 2 ^ n) n = q.
Proof.
  intros Hn. pose proof (pow2_pos n Hn) as Hp. unfold nearest_even. cbv zeta.
  rewrite Z.mod_mul, Z.div_mul by lia.
  destruct (Z.compare_spec (2 * 0) (2 ^ n)); try lia.
Qed.

Lemma rne_scale (k n j : Z) : 0 <= n -> 0 <= j -> nearest_even (k * 2 ^ j) (n + j) = nearest_even k n.
Proof.
  intros Hn Hj. pose proof (pow2_pos n Hn) as Hp. pose proof (pow2_pos j Hj) as Hpj.
  unfold nearest_even. cbv zeta. rewrite Z.pow_add_r by lia.
  rewrite Z.div_mul_cancel_r by lia.
  rewrite Z.mul_mod_distr_r by lia.
  replace (2 * (k mod 2 ^ n * 2 ^ j)) with ((2 * (k mod 2 ^ n)) * 2 ^ j) by ring.
  destruct (Z.compare_spec (2 * (k mod 2 ^ n)) (2 ^ n)) as [E|E|E].
  - rewrite E, Z.compare_refl. reflexivity.
  - assert (H : 2 * (k mod 2 ^ n) * 2 ^ j < 2 ^ n * 2 ^ j)
      by (apply Z.mul_lt_mono_pos_r; lia).
    apply Z.compare_lt_iff in H. rewrite H. reflexivity.
  - assert (H : 2 ^ n * 2 ^ j < 2 * (k mod 2 ^ n) * 2 ^ j)
      by (apply Z.mul_lt_mono_pos_r; lia).
    apply Z.compare_gt_iff in H. rewrite H. reflexivity.
Qed.

Lemma rne_nonneg (k n : Z) : 0 <= n -> 0 <= k -> 0 <= nearest_even k n.
Proof.
  intros Hn Hk. pose proof (rne_range k n Hn). pose proof (pow2_pos n Hn).
  assert (0 <= k / 2 ^ n) by (apply Z.div_pos; lia). lia.
Qed.

Lemma round_nonneg (k : Z) : 0 <= k -> 0 <= round k.
Proof.
  intros Hk. unfold round. cbv zeta.
  apply Z.mul_nonneg_nonneg; [apply rne_nonneg; lia|]. apply Z.lt_le_incl, pow2_pos. lia.
Qed.

Lemma round_mono (k1 k2 : Z) : 0 <= k1 -> k1 <= k2 -> round k1 <= round k2.
Proof.
  intros H1 H12.
  destruct (Z.eq_dec k1 0) as [->|Hne].
  { change (round 0) with 0. apply round_nonneg. lia. }
  assert (Hl : Z.log2 k1 <= Z.log2 k2) by (apply Z.log2_le_mono; lia).
  unfold round. cbv zeta.
  set (n1 := Z.max (Z.log2 k1 + 1 - 53) 0). set (n2 := Z.max (Z.log2 k2 + 1 - 53) 0).
  assert (Hn1 : 0 <= n1) by lia. assert (Hn2 : 0 <= n2) by lia.
  destruct (Z.eq_dec n1 n2) as [E|E].
  - rewrite E. apply Z.mul_le_mono_nonneg_r; [apply Z.lt_le_incl, pow2_pos; lia|].
    apply rne_mono; lia.
  - assert (Hlt : Z.log2 k1 < Z.log2 k2) by lia.
    assert (Hn2' : n2 = Z.log2 k2 - 52) by lia.
    pose proof (Z.log2_nonneg k1) as Hl1.
    destruct (Z.log2_spec k1 ltac:(lia)) as [_ Hk1].
    destruct (Z.log2_spec k2 ltac:(lia)) as [Hk2 _].
    set (M := 2 ^ Z.log2 k2) in *.
    assert (HM : 2 ^ Z.succ (Z.log2 k1) <= M).
    { apply Z.pow_le_mono_r; lia. }
    assert (HM2 : M = 2 ^ 52 * 2 ^ n2).
    { unfold M. rewrite <- Z.pow_add_r by lia. f_equal. lia. }
    assert (HM1 : M = 2 ^ (Z.log2 k2 - n1) * 2 ^ n1).
    { unfold M. rewrite <- Z.pow_add_r by lia. f_equal. lia. }
    transitivity M.
    + rewrite HM1. apply Z.mul_le_mono_nonneg_r; [apply Z.lt_le_incl, pow2_pos; lia|].
      rewrite <- (rne_multiple (2 ^ (Z.log2 k2 - n1)) n1 Hn1).
      apply rne_mono; [lia|]. rewrite <- HM1. lia.
    + rewrite HM2. apply Z.mul_le_mono_nonneg_r; [apply Z.lt_le_incl, pow2_pos; lia|].
      rewrite <- (rne_multiple (2 ^ 52) n2 Hn2).
      apply rne_mono; [lia|]. rewrite <- HM2. lia.
Qed.

(** canonical representation: round is the identity *)
Lemma round_id (m j : Z) :
  0 < m -> 0 <= j -> Z.max (Z.log2 m + 1 + j - 53) 0 = j ->
  round (m * 2 ^ j) = m * 2 ^ j.
Proof.
  intros Hm Hj Hc. unfold round. cbv zeta.
  rewrite Z.log2_mul_pow2 by lia.
  replace (j + Z.log2 m + 1 - 53) with (Z.log2 m + 1 + j - 53) by lia.
  rewrite Hc, rne_multiple by lia. reflexivity.
Qed.

(** *** The operations of [SpecFloat], in units *)

Lemma fexp_eq (z : Z) : fexp prec emax z = Z.max (z - 53) (-1074).
Proof. reflexivity. Qed.

Lemma digits2_pos_size (m : positive) : digits2_pos m = Pos.size m.
Proof. induction m; cbn; congruence. Qed.

Lemma digits2_pos_log2 (m : positive) : Zpos (digits2_pos m) = Z.log2 (Zpos m) + 1.
Proof.
  rewrite digits2_pos_size. destruct m; cbn [Z.log2 Pos.size]; lia.
Qed.

Lemma bounded_spec (m : positive) (e : Z) :
  bounded prec emax m e = true ->
  -1074 <= e <= 971 /\ Z.max (Z.log2 (Zpos m) + 1 + e - 53) (-1074) = e.
Proof.
  unfold bounded, canonical_mantissa. rewrite andb_true_iff, Z.eqb_eq, Z.leb_le.
  rewrite fexp_eq, digits2_pos_log2. unfold emax, prec. lia.
Qed.

Lemma iter_pos_nat {A} (f : A -> A) (p : positive) (x : A) :
  SpecFloat.iter_pos f p x = Nat.iter (Pos.to_nat p) f x.
Proof.
  revert x. induction p as [p IH|p IH|]; intros x; cbn [SpecFloat.iter_pos].
  - rewrite !IH, Pos2Nat.inj_xI. 
    replace (S (2 * Pos.to_nat p)) with (Pos.to_nat p + S (Pos.to_nat p))%nat by lia.
    rewrite Nat.iter_add, Nat.iter_succ_r. reflexivity.
  - rewrite !IH, Pos2Nat.inj_xO.
    replace (2 * Pos.to_nat p)%nat with (Pos.to_nat p + Pos.to_nat p)%nat by lia.
    rewrite Nat.iter_add. reflexivity.
  - reflexivity.
Qed.

Lemma shr_1_spec (m : Z) (r s : bool) :
  0 <= m ->
  shr_1 (Build_shr_record m r s) = Build_shr_record (m / 2) (Z.odd m) (r || s).
Proof.
  intros Hm. rewrite <- Z.div2_div.
  destruct m as [|[p|p|]|p]; try reflexivity. lia.
Qed.

Lemma mod_pow2_succ (m n : Z) :
  0 <= n -> m mod 2 ^ (n + 1) = m mod 2 ^ n + 2 ^ n * ((m / 2 ^ n) mod 2).
Proof.
  intros Hn. rewrite Z.pow_add_r, Z.pow_1_r by lia.
  apply Z.rem_mul_r; [|lia]. pose proof (pow2_pos n Hn). lia.
Qed.

Lemma iter_shr_1 (m : Z) (j : nat) :
  0 <= m -> Nat.iter j shr_1 (Build_shr_record m false false) = shifted m j.
Proof.
  intros Hm. induction j as [|j IH]; [reflexivity|].
  rewrite Nat.iter_succ, IH. destruct j as [|j'].
  - cbn [shifted]. rewrite shr_1_spec by assumption.
    change (2 ^ Z.of_nat 0) with 1. change (2 ^ Z.of_nat 1) with 2.
    rewrite Z.div_1_r, Z.mod_1_r. reflexivity.
  - cbn [shifted]. 
    assert (Hp : 0 < 2 ^ Z.of_nat (S j')) by (apply pow2_pos; lia).
    assert (Hp' : 0 < 2 ^ Z.of_nat j') by (apply pow2_pos; lia).
    rewrite shr_1_spec by (apply Z.div_pos; lia).
    f_equal.
    + rewrite Z.div_div by lia. f_equal.
      rewrite (Nat2Z.inj_succ (S j')), Z.pow_succ_r by lia. ring.
    + pose proof (mod_pow2_succ m (Z.of_nat j') ltac:(lia)) as H.
      replace (Z.of_nat j' + 1) with (Z.of_nat (S j')) in H by lia.
      rewrite H. 
      pose proof (Z.mod_pos_bound m (2 ^ Z.of_nat j') Hp') as Hb.
      rewrite Zodd_mod.
      destruct (Z.eqb_spec ((m / 2 ^ Z.of_nat j') mod 2) 1) as [E|E].
      * rewrite E. cbn [orb]. symmetry. apply negb_true_iff, Z.eqb_neq. lia.
      * assert (E0 : (m / 2 ^ Z.of_nat j') mod 2 = 0).
        { pose proof (Z.mod_pos_bound (m / 2 ^ Z.of_nat j') 2 ltac:(lia)). lia. }
        rewrite E0. cbn [orb]. f_equal. f_equal. lia.
Qed.

Lemma round_nearest_even_shifted (m : Z) (j : nat) :
  0 <= m ->
  round_nearest_even (shr_m (shifted m (S j))) (loc_of_shr_record (shifted m (S j)))
  = nearest_even m (Z.of_nat (S j)).
Proof.
  intros Hm. cbn [shifted shr_m loc_of_shr_record].
  assert (Hp' : 0 < 2 ^ Z.of_nat j) by (apply pow2_pos; lia).
  pose proof (mod_pow2_succ m (Z.of_nat j) ltac:(lia)) as H.
  replace (Z.of_nat j + 1) with (Z.of_nat (S j)) in H by lia.
  assert (Hpow : 2 ^ Z.of_nat (S j) = 2 * 2 ^ Z.of_nat j).
  { rewrite Nat2Z.inj_succ, Z.pow_succ_r by lia. reflexivity. }
  pose proof (Z.mod_pos_bound m (2 ^ Z.of_nat j) Hp') as Hb.
  unfold nearest_even. cbv zeta. rewrite H, Hpow.
  rewrite Zodd_mod.
  destruct (Z.eqb_spec ((m / 2 ^ Z.of_nat j) mod 2) 1) as [E|E].
  - rewrite E. destruct (Z.eqb_spec (m mod 2 ^ Z.of_nat j) 0) as [E2|E2]; cbn [negb].
    + rewrite E2.
      replace (2 * (0 + 2 ^ Z.of_nat j * 1)) with (2 * 2 ^ Z.of_nat j) by ring.
      rewrite Z.compare_refl. cbn [round_nearest_even]. reflexivity.
    + assert (Hgt : 2 * 2 ^ Z.of_nat j < 2 * (m mod 2 ^ Z.of_nat j + 2 ^ Z.of_nat j * 1)) by lia.
      apply Z.compare_gt_iff in Hgt. rewrite Hgt. reflexivity.
  - assert (E0 : (m / 2 ^ Z.of_nat j) mod 2 = 0).
    { pose proof (Z.mod_pos_bound (m / 2 ^ Z.of_nat j) 2 ltac:(lia)). lia. }
    rewrite E0.
    assert (Hlt : 2 * (m mod 2 ^ Z.of_nat j + 2 ^ Z.of_nat j * 0) < 2 * 2 ^ Z.of_nat j) by lia.
    apply Z.compare_lt_iff in Hlt. rewrite Hlt.
    destruct (negb _); reflexivity.
Qed.

(** Shifting right by [n > 0] and rounding. *)
Lemma shr_round (m e n : Z) :
  0 <= m -> 0 < n ->
  let '(mrs, e') := shr (Build_shr_record m false false) e n in
  e' = e + n /\
  round_nearest_even (shr_m mrs) (loc_of_shr_record mrs) = nearest_even m n.
Proof.
  intros Hm Hn. destruct n as [|p|p]; try lia.
  cbn [shr]. split; [reflexivity|].
  rewrite iter_pos_nat, iter_shr_1 by assumption.
  destruct (Pos.to_nat p) as [|j] eqn:Ej; [lia|].
  rewrite round_nearest_even_shifted by assumption.
  f_equal. lia.
Qed.

Lemma log2_lt_pow2' (q n : Z) : 0 < q -> q < 2 ^ n -> 0 <= n -> Z.log2 q < n.
Proof. intros. apply Z.log2_lt_pow2; lia. Qed.

(** The second shift of [binary_round_aux]: a rounded mantissa that has
    reached [2^53] is halved. *)
Lemma finish_spec (q e1 : Z) :
  0 <= q <= 2 ^ 53 -> -1074 <= e1 <= 900 -> (q < 2 ^ 52 -> e1 = -1074) ->
  let '(mrs, e2) := shr_fexp prec emax q e1 loc_Exact in
  let F :=
    match shr_m mrs with
    | Z0 => S754_zero false
    | Zpos m => if e2 <=? emax - prec then S754_finite false m e2 else S754_infinity false
    | Zneg _ => S754_nan
    end in
  good F /\ units F = q * 2 ^ (e1 + 1074).
Proof.
  intros Hq He Hsub. unfold shr_fexp. cbn [shr_record_of_loc]. rewrite fexp_eq.
  destruct (Z.eq_dec q 0) as [->|Hq0].
  { cbn [Zdigits2].
    destruct (Z.max (0 + e1 - 53) (-1074) - e1) eqn:E; try lia; cbn; auto. }
  destruct (Z.eq_dec q (2 ^ 53)) as [->|Hq53].
  { replace (Z.max (Zdigits2 (2 ^ 53) + e1 - 53) (-1074) - e1) with 1
      by (change (Zdigits2 (2 ^ 53)) with 54; lia).
    cbn [shr SpecFloat.iter_pos].
    change (shr_m (shr_1 _)) with (Zpos (2 ^ 52)%positive). cbv iota beta zeta.
    replace (e1 + 1 <=? emax - prec) with true
      by (symmetry; apply Z.leb_le; unfold emax, prec; lia).
    split.
    - cbn [good]. unfold bounded, canonical_mantissa. rewrite fexp_eq.
      apply andb_true_iff. split; [apply Z.eqb_eq|apply Z.leb_le; unfold emax, prec; lia].
      change (Z.pos (digits2_pos (2 ^ 52))) with 53. lia.
    - cbn [units]. replace (e1 + 1 + 1074) with (Z.succ (e1 + 1074)) by lia.
      rewrite Z.pow_succ_r by lia.
      change (Z.pos (2 ^ 52)) with (2 ^ 52). change (2 ^ 53) with (2 ^ 52 * 2). ring. }
  destruct q as [|q'|q']; try lia.
  cbn [Zdigits2]. rewrite digits2_pos_log2.
  assert (Hlog : Z.log2 (Zpos q') < 53) by (apply log2_lt_pow2'; lia).
  assert (Hlog2 : 2 ^ 52 <= Zpos q' -> 52 <= Z.log2 (Zpos q')).
  { intros H. apply Z.log2_le_pow2; lia. }
  assert (Hn : Z.max (Z.log2 (Z.pos q') + 1 + e1 - 53) (-1074) = e1).
  { destruct (Z_lt_le_dec (Zpos q') (2 ^ 52)) as [Hlt|Hge]; [specialize (Hsub Hlt)|specialize (Hlog2 Hge)]; lia. }
  rewrite Hn, Z.sub_diag. cbn [shr shr_m]. cbv iota beta zeta.
  replace (e1 <=? emax - prec) with true by (symmetry; apply Z.leb_le; unfold emax, prec; lia).
  split; [|reflexivity].
  cbn [good]. unfold bounded, canonical_mantissa. rewrite fexp_eq, digits2_pos_log2.
  apply andb_true_iff. split; [apply Z.eqb_eq; lia|apply Z.leb_le; unfold emax, prec; lia].
Qed.

Lemma rne_0 (m : Z) : nearest_even m 0 = m.
Proof. rewrite <- (rne_multiple m 0) at 2 by lia. f_equal. change (2 ^ 0) with 1. lia. Qed.

(** [binary_round_aux] on a positive mantissa whose exponent is not above
    the canonical one: round to nearest, ties to even, at the canonical
    exponent. *)
Lemma binary_round_aux_spec (m : positive) (e : Z) :
  let e1 := fexp prec emax (Zpos (digits2_pos m) + e) in
  e <= e1 -> e1 <= 900 ->
  let F := binary_round_aux prec emax false (Zpos m) e loc_Exact in
  good F /\ units F = nearest_even (Zpos m) (e1 - e) * 2 ^ (e1 + 1074).
Proof.
  intros e1 Hle Hmax F. subst F.
  assert (He1 : e1 = Z.max (Z.log2 (Zpos m) + 1 + e - 53) (-1074)).
  { unfold e1. rewrite fexp_eq, digits2_pos_log2. reflexivity. }
  destruct (Z.log2_spec (Zpos m) ltac:(lia)) as [Hlo Hhi].
  pose proof (Z.log2_nonneg (Zpos m)) as Hlog.
  set (d := Z.log2 (Zpos m) + 1) in *.
  assert (Hn : 0 <= e1 - e) by lia.
  set (n := e1 - e) in *.
  assert (Hp : 0 < 2 ^ n) by (apply pow2_pos; lia).
  (* bounds on the rounded mantissa *)
  assert (Hupper : nearest_even (Zpos m) n <= 2 ^ 53).
  { rewrite <- (rne_multiple (2 ^ 53) n Hn). apply rne_mono; [lia|].
    rewrite <- Z.pow_add_r by lia.
    transitivity (2 ^ Z.succ (Z.log2 (Zpos m))); [lia|]. apply Z.pow_le_mono_r; lia. }
  assert (Hlower : nearest_even (Zpos m) n < 2 ^ 52 -> e1 = -1074).
  { intros Hlt. destruct (Z.eq_dec e1 (-1074)) as [|Hne]; [assumption|exfalso].
    assert (Hn' : n = d - 53) by lia.
    assert (H52 : 2 ^ 52 <= nearest_even (Zpos m) n).
    { rewrite <- (rne_multiple (2 ^ 52) n Hn). apply rne_mono; [lia|].
      rewrite <- Z.pow_add_r by lia. replace (52 + n) with (Z.log2 (Zpos m)) by lia. lia. }
    lia. }
  assert (Hnonneg : 0 <= nearest_even (Zpos m) n) by (apply rne_nonneg; lia).
  unfold binary_round_aux.
  assert (Hfirst :
    let '(mrs, e') := shr_fexp prec emax (Zpos m) e loc_Exact in
    e' = e1 /\ round_nearest_even (shr_m mrs) (loc_of_shr_record mrs) = nearest_even (Zpos m) n).
  { unfold shr_fexp. cbn [shr_record_of_loc Zdigits2]. fold e1. fold n.
    destruct (Z.eq_dec n 0) as [E|E].
    - rewrite E. cbn [shr shr_m loc_of_shr_record round_nearest_even].
      rewrite rne_0. split; [lia|reflexivity].
    - pose proof (shr_round (Zpos m) e n ltac:(lia) ltac:(lia)) as H.
      destruct (shr _ e n) as [mrs e']. destruct H as [-> H]. split; [lia|exact H]. }
  destruct (shr_fexp prec emax (Zpos m) e loc_Exact) as [mrs e'].
  destruct Hfirst as [-> ->].
  pose proof (finish_spec (nearest_even (Zpos m) n) e1 ltac:(lia) ltac:(lia) Hlower) as H.
  destruct (shr_fexp prec emax (nearest_even (Zpos m) n) e1 loc_Exact) as [mrs2 e2].
  exact H.
Qed.

Lemma good_units_nonneg (x : spec_float) : 0 <= units x.
Proof.
  destruct x as [s|s| |s m e]; cbn [units]; lia.
Qed.

(** A double is the rounding of itself. *)
Lemma round_of_double (x : spec_float) : good x -> round (units x) = units x.
Proof.
  destruct x as [s|s| |[|] m e]; cbn [good units]; try contradiction; try reflexivity.
  intros H. apply bounded_spec in H as [He Hc].
  apply round_id; lia.
Qed.

(** In units: the mantissa [m] at exponent [e] stands for [k] units, up
    to the scale [2^j]. *)
Lemma binary_round_aux_round (m : positive) (e j k : Z) :
  e <= fexp prec emax (Zpos (digits2_pos m) + e) ->
  fexp prec emax (Zpos (digits2_pos m) + e) <= 900 ->
  0 <= j -> 0 <= e + 1074 + j ->
  Zpos m * 2 ^ (e + 1074 + j) = k * 2 ^ j ->
  let F := binary_round_aux prec emax false (Zpos m) e loc_Exact in
  good F /\ units F = round k.
Proof.
  intros Hle Hmax Hj Hej Hk F.
  destruct (binary_round_aux_spec m e Hle Hmax) as [Hgood Hunits].
  split; [exact Hgood|]. fold F in Hunits. rewrite Hunits. clear Hgood Hunits F.
  rewrite fexp_eq, digits2_pos_log2 in *.
  set (e1 := Z.max (Z.log2 (Z.pos m) + 1 + e - 53) (-1074)) in *.
  pose proof (pow2_pos j Hj) as Hpj.
  pose proof (pow2_pos (e + 1074 + j) Hej) as Hpe.
  assert (Hkpos : 0 < k) by nia.
  assert (Hlog : Z.log2 k = Z.log2 (Zpos m) + e + 1074).
  { assert (H : Z.log2 (k * 2 ^ j) = Z.log2 (Zpos m * 2 ^ (e + 1074 + j))) by congruence.
    rewrite !Z.log2_mul_pow2 in H by lia. lia. }
  unfold round. cbv zeta. rewrite Hlog.
  replace (Z.max (Z.log2 (Z.pos m) + e + 1074 + 1 - 53) 0) with (e1 + 1074) by lia.
  f_equal.
  rewrite <- (rne_scale (Zpos m) (e1 - e) (e + 1074 + j)) by lia.
  rewrite Hk. replace (e1 - e + (e + 1074 + j)) with (e1 + 1074 + j) by lia.
  apply rne_scale; lia.
Qed.

Lemma iter_xO (m d : positive) : Zpos (Pos.iter xO m d) = Zpos m * 2 ^ Zpos d.
Proof.
  rewrite (Pos.iter_swap_gen _ _ Zpos xO (Z.mul 2)) by reflexivity.
  change (Pos.iter (Z.mul 2) (Zpos m) d) with (Z.shiftl (Zpos m) (Zpos d)).
  apply Z.shiftl_mul_pow2. lia.
Qed.

Lemma shl_align_spec (m : positive) (e e' : Z) :
  let '(m', e'') := shl_align m e e' in
  e'' = Z.min e e' /\ Zpos m' = Zpos m * 2 ^ (e - e'').
Proof.
  unfold shl_align. destruct (e' - e) as [|d|d] eqn:E.
  - split; [lia|]. rewrite Z.sub_diag. change (2 ^ 0) with 1. lia.
  - split; [lia|]. rewrite Z.sub_diag. change (2 ^ 0) with 1. lia.
  - split; [lia|]. rewrite iter_xO. f_equal. f_equal. lia.
Qed.

(** [binary_round] on [m] units scaled by [e >= -1074]. *)
Lemma binary_round_spec (m : positive) (e : Z) :
  -1074 <= e -> Z.log2 (Zpos m) + e <= 900 ->
  let F := binary_round prec emax false m e in
  good F /\ units F = round (Zpos m * 2 ^ (e + 1074)).
Proof.
  intros He Hmax F. subst F. unfold binary_round.
  pose proof (shl_align_spec m e (fexp prec emax (Zpos (digits2_pos m) + e))) as H.
  destruct (shl_align m e _) as [mz ez]. destruct H as [Hez Hmz].
  rewrite fexp_eq, digits2_pos_log2 in Hez.
  pose proof (Z.log2_nonneg (Zpos m)) as Hlog.
  assert (Hd : Z.log2 (Zpos mz) + ez = Z.log2 (Zpos m) + e).
  { rewrite Hmz, Z.log2_mul_pow2 by lia. lia. }
  apply (binary_round_aux_round mz ez 0).
  - rewrite fexp_eq, digits2_pos_log2. lia.
  - rewrite fexp_eq, digits2_pos_log2. lia.
  - lia.
  - lia.
  - rewrite Hmz, <- Z.mul_assoc, <- Z.pow_add_r by lia.
    change (2 ^ 0) with 1. rewrite Z.mul_1_r. f_equal. f_equal. lia.
Qed.


Lemma units_bound (m : positive) (e : Z) :
  -1074 <= e -> Zpos m * 2 ^ (e + 1074) < 2 ^ 1900 -> Z.log2 (Zpos m) + e <= 900.
Proof.
  intros He H.
  assert (Hl : Z.log2 (Zpos m * 2 ^ (e + 1074)) < 1900).
  { apply Z.log2_lt_pow2; [|lia]. pose proof (pow2_pos (e + 1074) ltac:(lia)). lia. }
  rewrite Z.log2_mul_pow2 in Hl by lia. lia.
Qed.

(** Addition of doubles that are zero or positive. *)
Lemma double_add_spec (x y : spec_float) :
  good x -> good y -> units x + units y < 2 ^ 1900 ->
  good (add x y) /\ units (add x y) = round (units x + units y).
Proof.
  intros Hx Hy Hsum. unfold add.
  destruct x as [sx|sx| |[|] mx ex]; cbn [good] in Hx; try contradiction;
  destruct y as [sy|sy| |[|] my ey]; cbn [good] in Hy; try contradiction.
  - cbn [SFadd]. destruct sx, sy; cbn; auto.
  - cbn [SFadd]. split; [exact Hy|].
    change (units (S754_zero sx)) with 0. rewrite Z.add_0_l.
    symmetry. apply (round_of_double (S754_finite false my ey)). exact Hy.
  - cbn [SFadd]. split; [exact Hx|].
    change (units (S754_zero sy)) with 0. rewrite Z.add_0_r.
    symmetry. apply (round_of_double (S754_finite false mx ex)). exact Hx.
  - cbn [SFadd cond_Zopp units] in *.
    apply bounded_spec in Hx as [Hex _]. apply bounded_spec in Hy as [Hey _].
    pose proof (shl_align_spec mx ex (Z.min ex ey)) as Hax.
    pose proof (shl_align_spec my ey (Z.min ex ey)) as Hay.
    destruct (shl_align mx ex _) as [mx' ex']. destruct (shl_align my ey _) as [my' ey'].
    destruct Hax as [Hex' Hmx]. destruct Hay as [Hey' Hmy]. cbn [fst].
    change (Zpos mx' + Zpos my') with (Zpos (mx' + my')). cbn [binary_normalize].
    set (ez := Z.min ex ey) in *.
    assert (Hval : Zpos (mx' + my') * 2 ^ (ez + 1074)
                   = Zpos mx * 2 ^ (ex + 1074) + Zpos my * 2 ^ (ey + 1074)).
    { rewrite Pos2Z.inj_add, Hmx, Hmy, Z.mul_add_distr_r.
      rewrite <- !Z.mul_assoc, <- !Z.pow_add_r by lia.
      f_equal; f_equal; f_equal; lia. }
    rewrite <- Hval in *.
    apply binary_round_spec; [lia|]. apply units_bound; [lia|]. exact Hsum.
Qed.

(** The double 15, as [of_Z] gives it. *)
Lemma of_Z_15 : of_Z 15 = S754_finite false (15 * 2 ^ 49) (-49).
Proof. reflexivity. Qed.

(** Multiplication of a double that is zero or positive by 15. *)
Lemma double_mul_15_spec (x : spec_float) :
  good x -> units x < 2 ^ 1900 ->
  good (mul x (of_Z 15)) /\ units (mul x (of_Z 15)) = round (units x * 15).
Proof.
  intros Hx Hb. rewrite of_Z_15. unfold mul.
  destruct x as [sx|sx| |[|] mx ex]; cbn [good] in Hx; try contradiction.
  - cbn [SFmul good units]. split; [exact I|reflexivity].
  - cbn [SFmul xorb units] in *.
    apply bounded_spec in Hx as [Hex Hc].
    pose proof (Z.log2_nonneg (Zpos mx)) as Hlog.
    assert (Hprod : Zpos (mx * (15 * 2 ^ 49)) = Zpos mx * 15 * 2 ^ 49).
    { rewrite Pos2Z.inj_mul. change (Zpos (15 * 2 ^ 49)) with (15 * 2 ^ 49). ring. }
    assert (Hl : Z.log2 (Zpos mx) + 52 <= Z.log2 (Zpos (mx * (15 * 2 ^ 49)))
                 <= Z.log2 (Zpos mx) + 53).
    { rewrite Hprod, Z.log2_mul_pow2 by lia.
      assert (H8 : Z.log2 (Zpos mx * 8) <= Z.log2 (Zpos mx * 15)) by (apply Z.log2_le_mono; lia).
      assert (H16 : Z.log2 (Zpos mx * 15) <= Z.log2 (Zpos mx * 16)) by (apply Z.log2_le_mono; lia).
      change 8 with (2 ^ 3) in H8. change 16 with (2 ^ 4) in H16.
      rewrite Z.log2_mul_pow2 in H8, H16 by lia. lia. }
    assert (Hub := units_bound mx ex ltac:(lia) Hb).
    apply (binary_round_aux_round _ _ 49).
    + rewrite fexp_eq, digits2_pos_log2. lia.
    + rewrite fexp_eq, digits2_pos_log2. lia.
    + lia.
    + lia.
    + rewrite Hprod. replace (ex + -49 + 1074 + 49) with (ex + 1074) by lia. ring.
Qed.


Lemma canonical_bounds (m : positive) (e : Z) :
  bounded prec emax m e = true ->
  -1074 <= e /\ Zpos m < 2 ^ 53 /\ (-1074 < e -> 2 ^ 52 <= Zpos m).
Proof.
  intros H. apply bounded_spec in H as [He Hc].
  destruct (Z.log2_spec (Zpos m) ltac:(lia)) as [Hlo Hhi].
  pose proof (Z.log2_nonneg (Zpos m)) as Hlog.
  split; [lia|]. split.
  - eapply Z.lt_le_trans; [exact Hhi|]. apply Z.pow_le_mono_r; lia.
  - intros Hne. eapply Z.le_trans; [|exact Hlo]. apply Z.pow_le_mono_r; lia.
Qed.

Lemma units_lt_exponent (mx my : positive) (ex ey : Z) :
  bounded prec emax mx ex = true -> bounded prec emax my ey = true -> ex < ey ->
  Zpos mx * 2 ^ (ex + 1074) < Zpos my * 2 ^ (ey + 1074).
Proof.
  intros Hx Hy Hlt.
  apply canonical_bounds in Hx as (Hex & Hmx & _).
  apply canonical_bounds in Hy as (Hey & _ & Hmy). specialize (Hmy ltac:(lia)).
  pose proof (pow2_pos (ex + 1074) ltac:(lia)) as Hp.
  replace (ey + 1074) with ((ey - ex - 1) + 1 + (ex + 1074)) by lia.
  rewrite (Z.pow_add_r 2 (ey - ex - 1 + 1) (ex + 1074)) by lia.
  rewrite (Z.pow_add_r 2 (ey - ex - 1) 1) by lia. rewrite Z.pow_1_r.
  pose proof (pow2_pos (ey - ex - 1) ltac:(lia)) as Hq.
  assert (H1 : Zpos mx * 2 ^ (ex + 1074) < 2 ^ 53 * 2 ^ (ex + 1074))
    by (apply Z.mul_lt_mono_pos_r; lia).
  assert (H2 : 2 ^ 53 * 2 ^ (ex + 1074) <= Zpos my * (2 ^ (ey - ex - 1) * 2) * 2 ^ (ex + 1074)).
  { apply Z.mul_le_mono_nonneg_r; [lia|]. change (2 ^ 53) with (2 ^ 52 * 2).
    transitivity (Zpos my * 2); [lia|]. apply Z.mul_le_mono_nonneg_l; lia. }
  lia.
Qed.

(** [<] on doubles that are zero or positive. *)
Lemma double_ltb_spec (x y : spec_float) :
  good x -> good y -> ltb x y = (units x <? units y).
Proof.
  intros Hx Hy. unfold ltb, SFltb.
  destruct x as [sx|sx| |[|] mx ex]; cbn [good] in Hx; try contradiction;
  destruct y as [sy|sy| |[|] my ey]; cbn [good] in Hy; try contradiction; cbn [SFcompare units];
    cbv beta iota.
  - reflexivity.
  - symmetry. apply (proj2 (Z.ltb_lt _ _)).
    pose proof (bounded_spec _ _ Hy) as [He _].
    pose proof (pow2_pos (ey + 1074) ltac:(lia)). lia.
  - symmetry. apply (proj2 (Z.ltb_ge _ _)).
    pose proof (bounded_spec _ _ Hx) as [He _].
    pose proof (pow2_pos (ex + 1074) ltac:(lia)). lia.
  - destruct (Z.compare_spec ex ey) as [E|E|E].
    + subst ey. pose proof (bounded_spec _ _ Hx) as [He _].
      pose proof (pow2_pos (ex + 1074) ltac:(lia)) as Hp.
      rewrite Pos.compare_cont_spec. cbn [Pos.switch_Eq].
      change (mx ?= my)%positive with (Zpos mx ?= Zpos my).
      destruct (Z.compare_spec (Zpos mx) (Zpos my)) as [E|E|E]; symmetry.
      * apply (proj2 (Z.ltb_ge _ _)). rewrite E. lia.
      * apply (proj2 (Z.ltb_lt _ _)). apply Z.mul_lt_mono_pos_r; lia.
      * apply (proj2 (Z.ltb_ge _ _)). apply Z.mul_le_mono_nonneg_r; lia.
    + symmetry. apply (proj2 (Z.ltb_lt _ _)). apply units_lt_exponent; assumption.
    + symmetry. apply (proj2 (Z.ltb_ge _ _)). apply Z.lt_le_incl. apply units_lt_exponent; assumption.
Qed.

(** *** The progress display *)

Lemma one_pos : 0 < one.
Proof. reflexivity. Qed.

Lemma units_of_Z_0 : units (Double.of_Z 0) = 0. Proof. reflexivity. Qed.
Lemma units_of_Z_1 : units (Double.of_Z 1) = one. Proof. vm_compute. reflexivity. Qed.
Lemma units_of_Z_30 : units (Double.of_Z 30) = 30 * one. Proof. vm_compute. reflexivity. Qed.
Lemma units_of_Z_60 : units (Double.of_Z 60) = 60 * one. Proof. vm_compute. reflexivity. Qed.
Lemma units_of_Z_90 : units (Double.of_Z 90) = 90 * one. Proof. vm_compute. reflexivity. Qed.

Lemma good_of_Z_small (n : Z) :
  n = 0 \/ n = 1 \/ n = 30 \/ n = 60 \/ n = 90 -> good (Double.of_Z n).
Proof. intros [->|[->|[->|[->| ->]]]]; vm_compute; auto. Qed.

Lemma to_Q_units (x : Double.double) :
  good x -> (Double.to_Q x == units x # (2 ^ 1074)%positive)%Q.
Proof.
  destruct x as [s|s| |[|] m e]; cbn [good Double.to_Q units]; try contradiction;
    try reflexivity.
  intros H. apply bounded_spec in H as [He _].
  rewrite (Qmake_Qdiv (Z.pos m * 2 ^ (e + 1074))), inject_Z_mult.
  rewrite Zpower_Qpower by lia.
  replace e with ((e + 1074) + -1074) at 1 by lia.
  rewrite Qpower_plus by discriminate.
  change (inject_Z (Zpos (2 ^ 1074))) with (inject_Z (2 ^ 1074)).
  rewrite (Zpower_Qpower 2 1074) by lia.
  change (inject_Z 2) with 2%Q.
  rewrite (Qpower_opp 2 1074). field.
Qed.

Lemma to_Q_le (x y : Double.double) :
  good x -> good y -> (Double.to_Q x <= Double.to_Q y)%Q <-> units x <= units y.
Proof.
  intros Hx Hy. rewrite (to_Q_units x Hx), (to_Q_units y Hy).
  unfold Qle. cbn [Qnum Qden]. 
  split; intros H.
  - apply Z.mul_le_mono_pos_r in H; [exact H|reflexivity].
  - apply Z.mul_le_mono_pos_r; [reflexivity|exact H].
Qed.

Lemma to_Q_lt (x y : Double.double) :
  good x -> good y -> (Double.to_Q x < Double.to_Q y)%Q <-> units x < units y.
Proof.
  intros Hx Hy. rewrite (to_Q_units x Hx), (to_Q_units y Hy).
  unfold Qlt. cbn [Qnum Qden]. 
  split; intros H.
  - apply Z.mul_lt_mono_pos_r in H; [exact H|reflexivity].
  - apply Z.mul_lt_mono_pos_r; [reflexivity|exact H].
Qed.

Lemma to_Q_of_Z (n : Z) :
  n = 0 \/ n = 30 \/ n = 60 \/ n = 90 -> (Double.to_Q (Double.of_Z n) == inject_Z n)%Q.
Proof. intros [->|[->|[->| ->]]]; vm_compute; reflexivity. Qed.

(** What [Math.random] returns: zero or positive, canonical, and at most
    one unit in the last place below 1. *)
Lemma is_draw_units (r : Double.double) :
  is_draw r -> good r /\ units r <= one - 2 ^ 1021.
Proof.
  intros (Hv & H0 & H1).
  destruct r as [s|[|]| |[|] m e]; try discriminate.
  - split; [exact I|]. vm_compute. discriminate.
  - assert (Hg : good (S754_finite false m e)) by exact Hv.
    split; [exact Hg|].
    unfold Double.ltb in H1.
    change SFltb with ltb in H1.
    rewrite (double_ltb_spec _ _ Hg (good_of_Z_small 1 ltac:(auto))), units_of_Z_1 in H1.
    apply Z.ltb_lt in H1. cbn [units] in *.
    apply canonical_bounds in Hv as (He & Hm & Hnormal).
    assert (Hexp : e + 1074 <= 1021).
    { destruct (Z_le_gt_dec (e + 1074) 1021) as [|Hgt]; [assumption|exfalso].
      specialize (Hnormal ltac:(lia)).
      assert (H : 2 ^ 52 * 2 ^ 1022 <= Zpos m * 2 ^ (e + 1074)).
      { apply Z.mul_le_mono_nonneg; try lia. apply Z.pow_le_mono_r; lia. }
      change (2 ^ 52 * 2 ^ 1022) with one in H. lia. }
    transitivity ((2 ^ 53 - 1) * 2 ^ 1021); [|vm_compute; discriminate].
    apply Z.mul_le_mono_nonneg; try lia. apply Z.pow_le_mono_r; lia.
Qed.

Lemma progressText_at_spec (p : Double.double) :
  good p ->
  Main.progressText_at p =
    if units p <? 30 * one then ("Uploading file...", false)
    else if units p <? 60 * one then ("Analyzing GPX structure...", false)
    else if units p <? 90 * one then ("Extracting components...", false)
    else ("Almost done...", true).
Proof.
  intros Hp. unfold Main.progressText_at, Double.ltb. change SFltb with ltb.
  rewrite !(double_ltb_spec p) by (try assumption; apply good_of_Z_small; auto 10).
  rewrite units_of_Z_30, units_of_Z_60, units_of_Z_90. reflexivity.
Qed.

(** One run of the callback, in units. *)
Lemma interval_callback_units (p r : Double.double) :
  good p -> units p <= 90 * one -> is_draw r ->
  exists p',
    Main.interval_callback p r =
      (p', Main.mkFrame p' (fst (Main.progressText_at p')), snd (Main.progressText_at p')) /\
    good p' /\
    units p' = Z.min (round (units p + round (units r * 15))) (90 * one).
Proof.
  intros Hp Hp90 Hr. apply is_draw_units in Hr as [Hr Hr1].
  pose proof one_pos as Hone.
  pose proof (good_units_nonneg r) as Hr0.
  pose proof (good_units_nonneg p) as Hp0.
  assert (Hbig : 200 * one < 2 ^ 1900) by (vm_compute; reflexivity).
  destruct (double_mul_15_spec r Hr ltac:(lia)) as [Hgt Hut].
  change (mul r (of_Z 15)) with (Double.mul r (Double.of_Z 15)) in Hgt, Hut.
  set (t := Double.mul r (Double.of_Z 15)) in *.
  assert (Ht15 : units t <= 15 * one).
  { rewrite Hut. change (15 * one) with (round (15 * one)).
    apply round_mono; lia. }
  destruct (double_add_spec p t Hp Hgt ltac:(lia)) as [Hgs Hus].
  change (add p t) with (Double.add p t) in Hgs, Hus.
  assert (Hcap : Double.ltb (Double.of_Z 90) (Double.add p t)
                 = (90 * one <? units (Double.add p t))).
  { unfold Double.ltb. change SFltb with ltb.
    rewrite (double_ltb_spec _ _ (good_of_Z_small 90 ltac:(auto 10)) Hgs), units_of_Z_90.
    reflexivity. }
  unfold Main.interval_callback. fold t. cbv zeta. rewrite Hcap.
  set (s := Double.add p t) in *.
  destruct (Z.ltb_spec (90 * one) (units s)) as [H|H].
  - exists (Double.of_Z 90).
    split; [destruct (Main.progressText_at _); reflexivity|].
    split; [apply good_of_Z_small; auto 10|]. rewrite units_of_Z_90, <- Hut, <- Hus. lia.
  - exists s. split; [destruct (Main.progressText_at _); reflexivity|].
    split; [exact Hgs|]. rewrite <- Hut, <- Hus. lia.
Qed.

Lemma to_Q_lt_Z (x : Double.double) (n : Z) :
  good x -> n = 0 \/ n = 30 \/ n = 60 \/ n = 90 ->
  (Double.to_Q x < inject_Z n)%Q <-> units x < n * one.
Proof.
  intros Hx Hn. rewrite <- (to_Q_of_Z n Hn).
  rewrite to_Q_lt; [|exact Hx|apply good_of_Z_small; tauto].
  destruct Hn as [->|[->|[->| ->]]];
    rewrite ?units_of_Z_0, ?units_of_Z_30, ?units_of_Z_60, ?units_of_Z_90; reflexivity.
Qed.

Lemma to_Q_ge_Z (x : Double.double) (n : Z) :
  good x -> n = 0 \/ n = 30 \/ n = 60 \/ n = 90 ->
  (inject_Z n <= Double.to_Q x)%Q <-> n * one <= units x.
Proof.
  intros Hx Hn. rewrite <- (to_Q_of_Z n Hn).
  rewrite to_Q_le; [|apply good_of_Z_small; tauto|exact Hx].
  destruct Hn as [->|[->|[->| ->]]];
    rewrite ?units_of_Z_0, ?units_of_Z_30, ?units_of_Z_60, ?units_of_Z_90; reflexivity.
Qed.

Lemma to_Q_le_90 (x : Double.double) :
  good x -> (Double.to_Q x <= 90)%Q <-> units x <= 90 * one.
Proof.
  intros Hx. change 90%Q with (inject_Z 90). rewrite <- (to_Q_of_Z 90) by tauto.
  rewrite to_Q_le; [|exact Hx|apply good_of_Z_small; tauto].
  rewrite units_of_Z_90. reflexivity.
Qed.

Lemma good_is_finite (x : Double.double) : good x -> Double.is_finite x = true.
Proof. destruct x as [s|s| |[|] m e]; cbn; auto. Qed.

Lemma progressText_at_thresholds (p : Double.double) :
  good p -> shows_by_thresholds (Main.mkFrame p (fst (Main.progressText_at p))).
Proof.
  intros Hp. pose proof one_pos as Hone.
  unfold shows_by_thresholds, percentage. cbn [Main.frame_width Main.frame_text].
  change 30%Q with (inject_Z 30). change 60%Q with (inject_Z 60).
  change 90%Q with (inject_Z 90).
  rewrite !(to_Q_lt_Z p), !(to_Q_ge_Z p) by (try assumption; tauto).
  rewrite (progressText_at_spec p Hp).
  destruct (Z.ltb_spec (units p) (30 * one));
  destruct (Z.ltb_spec (units p) (60 * one));
  destruct (Z.ltb_spec (units p) (90 * one)); cbn [fst];
    repeat split; intros; try discriminate; try reflexivity; try lia;
    try (exfalso; lia).
Qed.

Lemma progressText_at_cleared (p : Double.double) :
  good p ->
  (snd (Main.progressText_at p) = true <-> 90 * one <= units p) /\
  (fst (Main.progressText_at p) = "Almost done..." <-> snd (Main.progressText_at p) = true).
Proof.
  intros Hp. pose proof one_pos as Hone. rewrite (progressText_at_spec p Hp).
  destruct (Z.ltb_spec (units p) (30 * one));
  destruct (Z.ltb_spec (units p) (60 * one));
  destruct (Z.ltb_spec (units p) (90 * one)); cbn [fst snd];
    repeat split; intros; try discriminate; try reflexivity; try lia;
    try (exfalso; lia).
Qed.

Lemma largest_step_bound (r : Z) :
  0 <= r <= one - 2 ^ 1021 -> round (r * 15) <= largest_step.
Proof. intros H. apply round_mono; lia. Qed.

Lemma largest_step_nonneg : 0 <= largest_step.
Proof. vm_compute. discriminate. Qed.

Lemma reach_succ_r (start : Z) (ticks : nat) :
  reach start (S ticks) = reach (round (start + largest_step)) ticks.
Proof. unfold reach. rewrite Nat.iter_succ_r. reflexivity. Qed.

Lemma reach_mono (a b : Z) (ticks : nat) :
  0 <= a <= b -> 0 <= reach a ticks <= reach b ticks.
Proof.
  intros H. pose proof largest_step_nonneg as Hs.
  induction ticks as [|n IH]; [exact H|].
  unfold reach in *. rewrite !Nat.iter_succ.
  split; [apply round_nonneg; lia|apply round_mono; lia].
Qed.

(** One run of the callback: [progress] stays a double that is zero or
    positive, does not go down, stays at or below 90, and goes up by no
    more than the largest step. *)
Lemma interval_callback_step (p r : Double.double) :
  good p -> units p <= 90 * one -> is_draw r ->
  exists p',
    Main.interval_callback p r =
      (p', Main.mkFrame p' (fst (Main.progressText_at p')), snd (Main.progressText_at p')) /\
    good p' /\ units p <= units p' <= 90 * one /\
    units p' <= round (units p + largest_step).
Proof.
  intros Hp Hp90 Hr.
  destruct (interval_callback_units p r Hp Hp90 Hr) as (p' & Hcb & Hg & Hu).
  exists p'. split; [exact Hcb|]. split; [exact Hg|].
  apply is_draw_units in Hr as [Hr Hr1].
  pose proof (good_units_nonneg r) as Hr0. pose proof (good_units_nonneg p) as Hp0.
  assert (Ht0 : 0 <= round (units r * 15)) by (apply round_nonneg; lia).
  assert (Ht1 : round (units r * 15) <= largest_step) by (apply largest_step_bound; lia).
  assert (Hlow : units p <= round (units p + round (units r * 15))).
  { rewrite <- (round_of_double p Hp) at 1. apply round_mono; lia. }
  assert (Hhigh : round (units p + round (units r * 15)) <= round (units p + largest_step)).
  { apply round_mono; lia. }
  lia.
Qed.

(** The frames of one run of the interval. *)
Lemma run_interval_frames (draws : list Double.double) :
  Forall is_draw draws ->
  forall q, good q -> units q <= 90 * one ->
  forall i f, Main.run_interval q draws !! i = Some f ->
    good (Main.frame_width f) /\
    units q <= units (Main.frame_width f) <= 90 * one /\
    units (Main.frame_width f) <= reach (units q) (S i) /\
    Main.frame_text f = fst (Main.progressText_at (Main.frame_width f)) /\
    (Main.frame_text f = "Almost done..." -> S i = length (Main.run_interval q draws)) /\
    (forall g, Main.run_interval q draws !! S i = Some g ->
       units (Main.frame_width f) <= units (Main.frame_width g)).
Proof.
  induction 1 as [|r rest Hr Hrest IH]; intros q Hq Hq90 i f Hi; [discriminate|].
  cbn [Main.run_interval] in *.
  destruct (interval_callback_step q r Hq Hq90 Hr) as (p' & Hcb & Hg & Hu & Hreach).
  rewrite Hcb in *.
  pose proof (progressText_at_cleared p' Hg) as [Hc Ht].
  destruct i as [|i]; cbn [lookup list_lookup] in Hi.
  - injection Hi as <-. cbn [Main.frame_width Main.frame_text].
    split; [exact Hg|]. split; [exact Hu|]. split; [exact Hreach|]. split; [reflexivity|].
    split.
    + intros Htext. apply Ht in Htext. rewrite Htext. reflexivity.
    + intros g Hg'. cbn in Hg'. 
      destruct (snd (Main.progressText_at p')); [discriminate|].
      destruct (IH p' Hg ltac:(lia) 0%nat g Hg') as (_ & Hle & _). lia.
  - destruct (snd (Main.progressText_at p')) eqn:Hcl; [discriminate|].
    destruct (IH p' Hg ltac:(lia) i f Hi) as (Hgf & Hle & Hre & Htx & Hlast & Hnext).
    split; [exact Hgf|]. split; [lia|]. split.
    + etransitivity; [exact Hre|]. rewrite (reach_succ_r (units q) (S i)).
      apply reach_mono. pose proof (good_units_nonneg p'). lia.
    + split; [exact Htx|]. split.
      * intros Htext. cbn [length]. f_equal. apply Hlast, Htext.
      * exact Hnext.
Qed.

Lemma good_zero : good (Double.of_Z 0).
Proof. exact I. Qed.

Lemma simulateProgress_frames (progressFill progressText : bool)
    (draws : list Double.double) :
  Forall is_draw draws ->
  forall i f, Main.simulateProgress progressFill progressText draws !! i = Some f ->
    good (Main.frame_width f) /\
    0 <= units (Main.frame_width f) <= 90 * one /\
    units (Main.frame_width f) <= reach 0 (S i) /\
    Main.frame_text f = fst (Main.progressText_at (Main.frame_width f)) /\
    (Main.frame_text f = "Almost done..." ->
       S i = length (Main.simulateProgress progressFill progressText draws)) /\
    (forall g, Main.simulateProgress progressFill progressText draws !! S i = Some g ->
       units (Main.frame_width f) <= units (Main.frame_width g)).
Proof.
  intros Hdraws i f. unfold Main.simulateProgress.
  destruct (negb progressFill || negb progressText); [discriminate|].
  pose proof one_pos.
  apply (run_interval_frames draws Hdraws (Double.of_Z 0) good_zero).
  rewrite units_of_Z_0. lia.
Qed.

(** One tick with the draw 0.75: the bar stands at 11.25 percent and the
    text is still that of uploading, while the ranges of the
    specification put 11.25 in the parsing phase. *)
Lemma phase_ranges_counterexample :
  let frame := Main.mkFrame (Double.dyadic 45 (-2)) "Uploading file..." in
  Main.simulateProgress true true [Double.dyadic 3 (-2)] = [frame] /\
  (percentage frame == 45 # 4)%Q /\
  in_phase_range uploading (45 # 4) = false /\
  in_phase_range parsing (45 # 4) = true /\
  follows_phase_ranges frame = false.
Proof. vm_compute. repeat split; reflexivity. Qed.

(** C4, as amended: in every frame that [simulateProgress] displays,
    whatever [Math.random] draws, the percentage is a finite number at
    most 90 and the text changes at 30, 60 and 90 percent:
    [Uploading file...] below 30, [Analyzing GPX structure...] from 30 to
    below 60, [Extracting components...] from 60 to below 90, and
    [Almost done...] at 90. *)
Theorem progress_text_thresholds (progressFill progressText : bool)
    (draws : list Double.double) :
  Forall is_draw draws ->
  Forall (fun frame =>
            Double.is_finite (Main.frame_width frame) = true /\
            (percentage frame <= 90)%Q /\
            shows_by_thresholds frame)
    (Main.simulateProgress progressFill progressText draws).
Proof.
  intros Hdraws. apply Forall_lookup. intros i f Hi.
  destruct (simulateProgress_frames _ _ draws Hdraws i f Hi)
    as (Hg & [_ H90] & _ & Htext & _).
  split; [apply good_is_finite, Hg|].
  split; [unfold percentage; apply to_Q_le_90; assumption|].
  destruct f as [w text]. cbn [Main.frame_width Main.frame_text] in *. subst text.
  apply progressText_at_thresholds, Hg.
Qed.

Lemma example_draws_drawn : Forall is_draw example_draws.
Proof.
  unfold example_draws. cbn [repeat List.app app].
  repeat first [apply List.Forall_nil | apply List.Forall_cons];
    (split; [|split]); vm_compute; reflexivity.
Qed.

(** Eleven draws of 0.5 and one of 0.49999999999999994. *)
Lemma progress_text_thresholds_witness :
  Forall is_draw example_draws /\
  Forall (fun frame => (percentage frame <= 90)%Q)
    (Main.simulateProgress true true example_draws).
Proof.
  split; [exact example_draws_drawn|].
  eapply Forall_impl; [exact (progress_text_thresholds true true example_draws example_draws_drawn)|].
  intros frame H. apply H.
Defined.

(** C5: over the steps of one run of the progress display, whatever
    [Math.random] draws, every percentage shown is a finite number between
    0 and 100, and the percentage never decreases from one step to the
    next: the sum is rounded to a double at every step, and rounding
    keeps the order. *)
Theorem simulateProgress_monotone (progressFill progressText : bool)
    (draws : list Double.double) :
  Forall is_draw draws ->
  let frames := Main.simulateProgress progressFill progressText draws in
  Forall (fun frame => Double.is_finite (Main.frame_width frame) = true) frames /\
  Forall (fun w => 0 <= w /\ w <= 100)%Q (widths frames) /\
  non_decreasing (widths frames).
Proof.
  intros Hdraws frames. subst frames.
  pose proof (simulateProgress_frames progressFill progressText draws Hdraws) as H.
  set (frames := Main.simulateProgress progressFill progressText draws) in *.
  split; [|split].
  - apply Forall_lookup. intros i f Hi. apply good_is_finite, (H i f Hi).
  - unfold widths. apply Forall_fmap, Forall_lookup. intros i f Hi.
    destruct (H i f Hi) as (Hg & [H0 H90] & _). unfold percentage.
    split.
    + change 0%Q with (inject_Z 0). apply to_Q_ge_Z; [exact Hg|tauto|lia].
    + apply Qle_trans with 90%Q; [apply to_Q_le_90; assumption|].
      unfold Qle; cbn; lia.
  - intros i a b Ha Hb. unfold widths in Ha, Hb.
    rewrite list_lookup_fmap in Ha, Hb.
    destruct (frames !! i) as [f|] eqn:Hf; [|discriminate].
    destruct (frames !! S i) as [g|] eqn:Hg; [|discriminate].
    cbn in Ha, Hb. injection Ha as <-. injection Hb as <-. unfold percentage.
    destruct (H i f Hf) as (Hgf & _ & _ & _ & _ & Hnext).
    destruct (H (S i) g Hg) as (Hgg & _).
    apply to_Q_le; [assumption..|]. apply Hnext. exact Hg.
Qed.

Lemma simulateProgress_monotone_witness :
  Forall is_draw example_draws /\
  non_decreasing (widths (Main.simulateProgress true true example_draws)).
Proof.
  split; [exact example_draws_drawn|].
  exact (proj2 (proj2 (simulateProgress_monotone true true example_draws example_draws_drawn))).
Defined.


End Doubles.

(** ** URL expansion *)

Lemma attempt_acceptable (method : URLExpander.Method) (shortUrl : string) :
  match URLExpander.attempt method shortUrl with
  | Normal (Some r) =>
      method shortUrl = Normal r /\ acceptable shortUrl (method shortUrl) = true
  | _ => acceptable shortUrl (method shortUrl) = false
  end.
Proof.
  unfold URLExpander.attempt, acceptable.
  destruct (method shortUrl) as [v|m]; [|reflexivity].
  destruct (truthy v && URLExpander.differs v shortUrl); [|reflexivity].
  destruct (URLExpander.isValidExpandedUrl v) as [[|]|]; auto.
Qed.

(** The loop returns the result of the first method that yields a usable
    URL, and throws when there is none. *)
Lemma expand_with_spec (methods : list URLExpander.Method) (shortUrl : string) :
  match URLExpander.expand_with methods shortUrl with
  | Normal r =>
      exists method, method ∈ methods /\ method shortUrl = Normal r /\
                     acceptable shortUrl (Normal r) = true
  | Throw message =>
      message = "All expansion methods failed" /\
      Forall (fun method => acceptable shortUrl (method shortUrl) = false) methods
  end.
Proof.
  induction methods as [|method rest IH]; cbn [URLExpander.expand_with].
  - split; [reflexivity|constructor].
  - pose proof (attempt_acceptable method shortUrl) as H.
    destruct (URLExpander.attempt method shortUrl) as [[r|]|m].
    + destruct H as [H1 H2]. exists method. rewrite <- H1. repeat split; auto. left.
    + destruct (URLExpander.expand_with rest shortUrl) as [r|m].
      * destruct IH as (m' & Hin & Hm). exists m'. split; [right; exact Hin|exact Hm].
      * destruct IH as [-> IH]. split; [reflexivity|]. constructor; assumption.
    + destruct (URLExpander.expand_with rest shortUrl) as [r|m'].
      * destruct IH as (m' & Hin & Hm). exists m'. split; [right; exact Hin|exact Hm].
      * destruct IH as [-> IH]. split; [reflexivity|]. constructor; assumption.
Qed.

Lemma isValidExpandedUrl_string (url : string) :
  URLExpander.isValidExpandedUrl (JStr url) =
  Normal (matches_a_host_pattern url && has_a_location_marker url).
Proof.
  unfold URLExpander.isValidExpandedUrl, matches_a_host_pattern, has_a_location_marker.
  cbn [js_to_string URLExpander.includes_method].
  destruct (existsb _ URLExpander.googleMapsPatterns); [|reflexivity]. cbn [andb].
  destruct (includes url "@"), (includes url "q="), (includes url "dir/"); reflexivity.
Qed.

(** *** The patterns, said without matchers *)
Lemma lit_spec (literal : string) (k : URLExpander.Matcher) (s : string) :
  URLExpander.lit literal k s = true <-> exists rest, s = literal +:+ rest /\ k rest = true.
Proof.
  revert s. induction literal as [|c l IH]; intros s; cbn.
  - split; [intros H; exists s; auto|intros [rest [-> H]]; exact H].
  - destruct s as [|d s]; [split; [discriminate|intros [rest [[=] _]]]|].
    rewrite andb_true_iff, IH, Ascii.eqb_eq. split.
    + intros [-> [rest [-> H]]]. exists rest. auto.
    + intros [rest [[= -> ->] H]]. eauto.
Qed.

Lemma test_spec (pattern : URLExpander.Matcher) (s : string) :
  URLExpander.test pattern s = true <-> exists pre rest, s = pre +:+ rest /\ pattern rest = true.
Proof.
  induction s as [|c s IH]; cbn [URLExpander.test].
  - rewrite orb_false_r. split.
    + intros H. exists "", "". auto.
    + intros ([|d pre] & rest & H1 & H2); [rewrite append_nil_l in H1; subst rest; exact H2|discriminate].
  - rewrite orb_true_iff, IH. split.
    + intros [H | (pre & rest & -> & H)].
      * exists "", (String c s). auto.
      * exists (String c pre), rest. auto.
    + intros ([|d pre] & rest & H1 & H2).
      * left. rewrite append_nil_l in H1. subst rest. exact H2.
      * right. injection H1 as -> ->. eauto.
Qed.

Lemma any_plus_spec (k : URLExpander.Matcher) (s : string) :
  URLExpander.any_plus k s = true <->
  exists mid rest, s = mid +:+ rest /\ one_line mid /\ k rest = true.
Proof.
  unfold one_line. induction s as [|c s IH]; cbn [URLExpander.any_plus].
  - split; [discriminate|].
    intros ([|d mid] & rest & H & [Hne _] & _); [congruence|discriminate].
  - rewrite andb_true_iff, negb_true_iff, orb_true_iff, IH. split.
    + intros [Hc [Hk | (mid & rest & -> & [Hne Hall] & Hk)]].
      * exists (String c ""), s. split; [reflexivity|].
        split; [split; [discriminate|repeat constructor; exact Hc]|exact Hk].
      * exists (String c mid), rest. split; [reflexivity|].
        split; [split; [discriminate|constructor; assumption]|exact Hk].
    + intros ([|d mid] & rest & H & [Hne Hall] & Hk); [congruence|].
      rewrite append_cons in H. injection H as -> ->.
      cbn in Hall. inversion Hall as [|? ? Hc Hmid]; subst.
      split; [exact Hc|].
      destruct mid as [|e mid]; [left; exact Hk|right].
      exists (String e mid), rest. split; [reflexivity|].
      split; [split; [discriminate|exact Hmid]|exact Hk].
Qed.

(** The three host patterns, said without matchers. *)
Lemma host_patterns_spec (url : string) :
  matches_a_host_pattern url = true <->
  includes url "maps.google." = true \/
  (exists pre mid post,
     url = pre +:+ "www.google." +:+ mid +:+ "/maps" +:+ post /\ one_line mid) \/
  includes url "maps.app.goo.gl" = true.
Proof.
  unfold matches_a_host_pattern, URLExpander.googleMapsPatterns. cbn [existsb].
  rewrite orb_false_r, !orb_true_iff, !test_spec, !includes_spec.
  split.
  - intros [H | [H | H]].
    + left. destruct H as (pre & rest & -> & H). apply lit_spec in H as (post & -> & _). eauto.
    + right; left. destruct H as (pre & rest & -> & H).
      apply lit_spec in H as (r1 & -> & H). apply any_plus_spec in H as (mid & r2 & -> & Hmid & H).
      apply lit_spec in H as (post & -> & _). exists pre, mid, post. auto.
    + right; right. destruct H as (pre & rest & -> & H). apply lit_spec in H as (post & -> & _). eauto.
  - intros [(pre & post & ->) | [(pre & mid & post & -> & Hmid) | (pre & post & ->)]].
    + left. exists pre, ("maps.google." +:+ post). split; [reflexivity|].
      apply lit_spec. eauto.
    + right; left. exists pre, ("www.google." +:+ mid +:+ "/maps" +:+ post). split; [reflexivity|].
      apply lit_spec. eexists; split; [reflexivity|]. apply any_plus_spec.
      exists mid, ("/maps" +:+ post). split; [reflexivity|]. split; [exact Hmid|].
      apply lit_spec. eauto.
    + right; right. exists pre, ("maps.app.goo.gl" +:+ post). split; [reflexivity|].
      apply lit_spec. eauto.
Qed.

Lemma isValidExpandedUrl_host (v : JsVal) :
  URLExpander.isValidExpandedUrl v = Normal true ->
  exists text, js_to_string v = Normal text /\ matches_a_host_pattern text = true.
Proof.
  unfold URLExpander.isValidExpandedUrl, matches_a_host_pattern.
  destruct (js_to_string v) as [text|message]; [|discriminate].
  destruct (existsb _ URLExpander.googleMapsPatterns) eqn:E; [eauto|discriminate].
Qed.

(** C8: whatever the four methods answer, a result that [expandUrl]
    returns is not the input URL and passes [isValidExpandedUrl]: one of
    the Google Maps host patterns matches its text and, when it is a string,
    it contains one of [@], [q=] and [dir/].  When no method yields such a
    URL, [expandUrl] throws "All expansion methods failed". *)
Theorem expandUrl_contract (net : URLExpander.Network) (shortUrl : string) :
  (forall result, URLExpander.expandUrl net shortUrl = Normal result ->
     result <> JStr shortUrl /\
     URLExpander.isValidExpandedUrl result = Normal true /\
     (exists text, js_to_string result = Normal text /\
                   matches_a_host_pattern text = true) /\
     (forall url, result = JStr url -> has_a_location_marker url = true)) /\
  (Forall (fun method => acceptable shortUrl (method shortUrl) = false)
     (URLExpander.methods net) ->
   URLExpander.expandUrl net shortUrl = Throw "All expansion methods failed").
Proof.
  unfold URLExpander.expandUrl.
  pose proof (expand_with_spec (URLExpander.methods net) shortUrl) as H.
  split.
  - intros result Hr. rewrite Hr in H. destruct H as (method & _ & _ & Hacc).
    unfold acceptable in Hacc.
    apply andb_true_iff in Hacc as [Hacc Hvalid].
    apply andb_true_iff in Hacc as [_ Hdiff].
    assert (Hv : URLExpander.isValidExpandedUrl result = Normal true).
    { destruct (URLExpander.isValidExpandedUrl result) as [[|]|]; congruence. }
    split; [|split; [exact Hv|split; [apply isValidExpandedUrl_host, Hv|]]].
    + intros ->. cbn in Hdiff. rewrite String.eqb_refl in Hdiff. discriminate.
    + intros url ->. rewrite isValidExpandedUrl_string in Hv.
      injection Hv as Hv. apply andb_true_iff in Hv. apply Hv.
  - intros Hnone.
    destruct (URLExpander.expand_with (URLExpander.methods net) shortUrl) as [r|m].
    + destruct H as (method & Hin & Hm & Hacc).
      rewrite Forall_forall in Hnone. specialize (Hnone method Hin).
      rewrite Hm in Hnone. congruence.
    + destruct H as [-> _]. reflexivity.
Qed.

(** ** Selection on the results page *)

Lemma size_zero (s : list string) : (Results.JsSet.size s =? 0)%nat = true <-> s = [].
Proof. destruct s; cbn; split; congruence. Qed.

Lemma updateSelectedCount_consistent (r : Results.ResultsPage) :
  display_consistent (exec Results.updateSelectedCount r).
Proof.
  destruct r as [rw sel cnt btn box ov dir ts rq dl].
  results_unfold. unfold display_consistent.
  destruct cnt, btn; cbn; split; intros ? [= <-] || intros ? [=]; cbn;
    try reflexivity; apply size_zero.
Qed.

Lemma display_consistent_counters (r r' : Results.ResultsPage) :
  counters r' = counters r -> display_consistent r -> display_consistent r'.
Proof.
  unfold counters, display_consistent. intros [= -> -> ->]. auto.
Qed.

Lemma updateSelectAllCheckbox_counters (r : Results.ResultsPage) :
  counters (exec Results.updateSelectAllCheckbox r) = counters r.
Proof. destruct r as [rw sel cnt btn [box|] ov dir ts rq dl]; reflexivity. Qed.

(** The two calls every selection function ends with. *)
Lemma refresh_consistent (r : Results.ResultsPage) :
  display_consistent
    (exec (Results.updateSelectedCount ;; Results.updateSelectAllCheckbox) r).
Proof.
  eapply display_consistent_counters; [|apply (updateSelectedCount_consistent r)].
  apply (updateSelectAllCheckbox_counters (exec Results.updateSelectedCount r)).
Qed.

Lemma selectAll_consistent (r : Results.ResultsPage) :
  display_consistent (exec Results.selectAll r).
Proof. apply (refresh_consistent (Results.select_rows (fun _ => true) r)). Qed.

Lemma selectNone_consistent (r : Results.ResultsPage) :
  display_consistent (exec Results.selectNone r).
Proof.
  apply (refresh_consistent
           (Results.set_selectedFiles (Results.JsSet.clear (Results.selectedFiles r))
              (Results.set_rows (map Results.uncheck (Results.rows r)) r))).
Qed.

Lemma total_selectNone : total Results.selectNone.
Proof.
  unfold Results.selectNone.
  repeat (apply total_seq; [apply total_modify|]). apply total_modify.
Qed.

Lemma toast_count_counters (type : string) (r : Results.ResultsPage) :
  counters
    (exec (count ← gets (fun r => Results.JsSet.size (Results.selectedFiles r)) ;
           Results.showToast
             ("Selected " +:+ nat_to_string count +:+ " " +:+ type +:+ " file"
              +:+ (if negb (count =? 1)%nat then "s" else ""))
             "info") r) = counters r.
Proof. reflexivity. Qed.

Lemma selectByType_consistent (type : string) (r : Results.ResultsPage) :
  display_consistent (exec (Results.selectByType type) r).
Proof.
  unfold Results.selectByType.
  rewrite exec_seq by apply total_selectNone.
  destruct (Main.cssStringPlain type).
  - rewrite exec_seq by apply total_modify.
    rewrite exec_seq by apply total_modify.
    rewrite exec_seq by apply total_modify.
    eapply display_consistent_counters; [apply toast_count_counters|].
    eapply display_consistent_counters; [apply updateSelectAllCheckbox_counters|].
    apply updateSelectedCount_consistent.
  - rewrite exec_throw. apply selectNone_consistent.
Qed.

Lemma perform_consistent (op : Results.Operation) (r : Results.ResultsPage) :
  display_consistent r -> display_consistent (Results.perform op r).
Proof.
  intros Hr. destruct op as [| |type| |i]; cbn [Results.perform].
  - apply selectAll_consistent.
  - apply selectNone_consistent.
  - apply selectByType_consistent.
  - destruct (Results.selectAllCheckbox r) as [[c ind]|] eqn:Hbox.
    + unfold Results.toggleSelectAll. monad_unfold. cbn.
      destruct (negb c); [apply selectAll_consistent | apply selectNone_consistent].
    + unfold Results.toggleSelectAll. monad_unfold. rewrite Hbox. exact Hr.
  - set (r1 := Results.set_rows (alter Results.flip i (Results.rows r)) r).
    assert (H1 : display_consistent r1)
      by (eapply display_consistent_counters; [|exact Hr]; reflexivity).
    clearbody r1. unfold Results.onCheckboxChange. monad_unfold.
    match goal with
    | |- context [match ?x with Some _ => _ | None => _ end] => destruct x as [target|]
    end.
    + exact (refresh_consistent (Results.set_selectedFiles _ r1)).
    + exact H1.
Qed.

Lemma perform_all_consistent (ops : list Results.Operation) (r : Results.ResultsPage) :
  display_consistent r -> display_consistent (Results.perform_all ops r).
Proof.
  revert r. induction ops as [|op ops IH]; intros r Hr; cbn; [exact Hr|].
  apply IH, perform_consistent, Hr.
Qed.

(** *** The set of selected files *)

Lemma JsSet_add_NoDup (x : string) (s : list string) :
  NoDup s -> NoDup (Results.JsSet.add x s).
Proof.
  intros H. unfold Results.JsSet.add, Results.JsSet.has.
  case_bool_decide as Hx; [exact H|].
  apply NoDup_app. split; [exact H|]. split; [|apply NoDup_singleton].
  intros y Hy ->%list_elem_of_singleton. contradiction.
Qed.

Lemma JsSet_delete_elem (x y : string) (s : list string) :
  y ∈ Results.JsSet.delete x s <-> y ∈ s /\ y <> x.
Proof.
  induction s as [|z s IH]; cbn.
  - split; [intros H; inversion H|intros [H _]; inversion H].
  - destruct (String.eqb z x) eqn:E.
    + apply String.eqb_eq in E. subst z. rewrite IH, elem_of_cons. 
      split; [intros [? ?]; auto|intros [[->|?] ?]; [contradiction|auto]].
    + apply String.eqb_neq in E. rewrite !elem_of_cons, IH. 
      split; [intros [->|[? ?]]; auto|intros [[->|?] ?]; auto].
Qed.

Lemma JsSet_delete_NoDup (x : string) (s : list string) :
  NoDup s -> NoDup (Results.JsSet.delete x s).
Proof.
  induction 1 as [|z s Hz Hs IH]; cbn; [constructor|].
  destruct (String.eqb z x); [exact IH|].
  constructor; [|exact IH]. rewrite JsSet_delete_elem. tauto.
Qed.

Lemma JsSet_delete_gone (x : string) (s : list string) : x ∉ Results.JsSet.delete x s.
Proof. rewrite JsSet_delete_elem. tauto. Qed.

Lemma select_rows_NoDup (pick : Results.FileRow -> bool) (r : Results.ResultsPage) :
  NoDup (Results.selectedFiles r) -> NoDup (Results.selectedFiles (Results.select_rows pick r)).
Proof.
  unfold Results.select_rows. cbn.
  generalize (omap Results.row_checkbox (List.filter pick (Results.rows r))) as picked.
  generalize (Results.selectedFiles r) as s.
  intros s picked. revert s. induction picked as [|c picked IH]; intros s Hs; cbn; [exact Hs|].
  apply IH, JsSet_add_NoDup, Hs.
Qed.

Lemma updateSelectedCount_selected (r : Results.ResultsPage) :
  Results.selectedFiles (exec Results.updateSelectedCount r) = Results.selectedFiles r.
Proof. destruct r as [rw sel [cnt|] [btn|] box ov dir ts rq dl]; reflexivity. Qed.

Lemma updateSelectAllCheckbox_selected (r : Results.ResultsPage) :
  Results.selectedFiles (exec Results.updateSelectAllCheckbox r) = Results.selectedFiles r.
Proof. destruct r as [rw sel cnt btn [box|] ov dir ts rq dl]; reflexivity. Qed.

Lemma refresh_selected (r : Results.ResultsPage) :
  Results.selectedFiles
    (exec (Results.updateSelectedCount ;; Results.updateSelectAllCheckbox) r)
  = Results.selectedFiles r.
Proof.
  rewrite exec_seq by apply total_modify.
  rewrite updateSelectAllCheckbox_selected. apply updateSelectedCount_selected.
Qed.

Lemma selectNone_selected (r : Results.ResultsPage) :
  Results.selectedFiles (exec Results.selectNone r) = [].
Proof.
  unfold Results.selectNone.
  rewrite exec_seq by apply total_modify.
  rewrite exec_seq by apply total_modify.
  rewrite refresh_selected. reflexivity.
Qed.

Lemma toast_count_selected (type : string) (r : Results.ResultsPage) :
  Results.selectedFiles
    (exec (count ← gets (fun r => Results.JsSet.size (Results.selectedFiles r)) ;
           Results.showToast
             ("Selected " +:+ nat_to_string count +:+ " " +:+ type +:+ " file"
              +:+ (if negb (count =? 1)%nat then "s" else ""))
             "info") r) = Results.selectedFiles r.
Proof. reflexivity. Qed.

(** The list that stands for the set never holds a name twice. *)
Lemma perform_NoDup (op : Results.Operation) (r : Results.ResultsPage) :
  NoDup (Results.selectedFiles r) -> NoDup (Results.selectedFiles (Results.perform op r)).
Proof.
  intros Hr.
  assert (Hall : forall r, NoDup (Results.selectedFiles r) ->
                           NoDup (Results.selectedFiles (exec Results.selectAll r))).
  { intros r0 H0. unfold Results.selectAll.
    rewrite exec_seq by apply total_modify.
    rewrite refresh_selected. unfold exec, modify. cbn [snd].
    apply select_rows_NoDup, H0. }
  assert (Hnone : forall r, NoDup (Results.selectedFiles (exec Results.selectNone r))).
  { intros r0. rewrite selectNone_selected. constructor. }
  destruct op as [| |type| |i]; cbn [Results.perform].
  - apply Hall, Hr.
  - apply Hnone.
  - unfold Results.selectByType.
    rewrite exec_seq by apply total_selectNone.
    destruct (Main.cssStringPlain type).
    + rewrite exec_seq by apply total_modify.
      rewrite exec_seq by apply total_modify.
      rewrite exec_seq by apply total_modify.
      rewrite toast_count_selected.
      rewrite updateSelectAllCheckbox_selected, updateSelectedCount_selected.
      unfold exec at 1, modify. cbn [snd].
      apply select_rows_NoDup, Hnone.
    + rewrite exec_throw. apply Hnone.
  - destruct (Results.selectAllCheckbox r) as [[c ind]|] eqn:Hbox.
    + unfold Results.toggleSelectAll. monad_unfold. cbn.
      destruct (negb c); [apply Hall; exact Hr | apply Hnone].
    + unfold Results.toggleSelectAll. monad_unfold. rewrite Hbox. exact Hr.
  - set (r1 := Results.set_rows (alter Results.flip i (Results.rows r)) r).
    assert (H1 : NoDup (Results.selectedFiles r1)) by exact Hr.
    clearbody r1. unfold Results.onCheckboxChange. monad_unfold.
    match goal with
    | |- context [match ?x with Some _ => _ | None => _ end] => destruct x as [target|]
    end.
    + pose proof (refresh_selected
                    (Results.set_selectedFiles
                       (if Results.checked target
                        then Results.JsSet.add (Results.filename target)
                               (Results.selectedFiles r1)
                        else Results.JsSet.delete (Results.filename target)
                               (Results.selectedFiles r1)) r1)) as Hsel.
      unfold exec in Hsel. monad_unfold_in Hsel. rewrite Hsel.
      cbn [Results.selectedFiles Results.set_selectedFiles].
      destruct (Results.checked target);
        [apply JsSet_add_NoDup | apply JsSet_delete_NoDup]; exact H1.
    + exact H1.
Qed.

(** C10: once the results page is initialised, after any sequence of
    selection operations the displayed count is the size of the set of
    selected files and the Download Selected button is disabled exactly
    when the set is empty; and with an empty set [downloadSelected] sends
    no request and saves nothing. *)
Theorem selection_display_invariant (ops : list Results.Operation)
    (r : Results.ResultsPage) (today : string) (o : Results.DownloadOutcome) :
  let r' := Results.perform_all ops (exec Results.initializeResults r) in
  display_consistent r' /\
  (Results.selectedFiles r' = [] ->
     Results.requests (exec (Results.downloadSelected today o) r') = Results.requests r' /\
     Results.downloads (exec (Results.downloadSelected today o) r') = Results.downloads r').
Proof.
  intros r'. split.
  - apply perform_all_consistent, updateSelectedCount_consistent.
  - intros Hempty. results_unfold. rewrite Hempty. cbn. auto.
Qed.

(** ** The archive store *)

Section Dedup.

Variable stem sanitize : string -> string.
Variable expected_extension : string.
Variable max_upload_bytes : nat.

Abbreviation clean_name_of := (ArchiveStore.clean_name_of stem sanitize).
Abbreviation build_date_of := ArchiveStore.build_date_of.
Abbreviation upload :=
  (ArchiveStore.upload stem sanitize expected_extension max_upload_bytes).
Abbreviation validate := (ArchiveStore.validate expected_extension max_upload_bytes).
Abbreviation fresh_entry := (ArchiveStore.fresh_entry stem sanitize).

Lemma date_leb_refl (d : ArchiveStore.Date) : ArchiveStore.date_leb d d = true.
Proof.
  unfold ArchiveStore.date_leb. rewrite !Nat.eqb_refl, Nat.leb_refl.
  rewrite !orb_true_r. reflexivity.
Qed.

Lemma find_replaced (name : string) (new old : ArchiveStore.ArchiveEntry)
    (l : list ArchiveStore.ArchiveEntry) :
  ArchiveStore.has_clean_name name new = true ->
  List.find (ArchiveStore.has_clean_name name) l = Some old ->
  List.find (ArchiveStore.has_clean_name name)
    (map (fun e => if ArchiveStore.has_clean_name name e then new else e) l) = Some new.
Proof.
  intros Hnew. induction l as [|e l IH]; cbn; [discriminate|].
  destruct (ArchiveStore.has_clean_name name e) eqn:He.
  - intros _. rewrite Hnew. reflexivity.
  - rewrite He. exact IH.
Qed.

Lemma find_appended (name : string) (new : ArchiveStore.ArchiveEntry)
    (l : list ArchiveStore.ArchiveEntry) :
  ArchiveStore.has_clean_name name new = true ->
  List.find (ArchiveStore.has_clean_name name) l = None ->
  List.find (ArchiveStore.has_clean_name name) (l ++ [new]) = Some new.
Proof.
  intros Hnew. induction l as [|e l IH]; cbn.
  - rewrite Hnew. reflexivity.
  - destruct (ArchiveStore.has_clean_name name e); [discriminate|exact IH].
Qed.

Lemma fresh_entry_clean_name (u : ArchiveStore.Upload) :
  ArchiveStore.has_clean_name (clean_name_of u) (fresh_entry u) = true.
Proof. unfold ArchiveStore.has_clean_name. cbn. apply String.eqb_refl. Qed.

Lemma enqueue_entries (uid : string) (s : ArchiveStore.Store) :
  ArchiveStore.entries (snd (ArchiveStore.enqueue uid s)) = ArchiveStore.entries s.
Proof. unfold ArchiveStore.enqueue. destruct (List.find _ _); reflexivity. Qed.

(** After an accepted upload the archive holds an entry of that clean name
    whose build date is not older, under the identity that was answered. *)
Lemma upload_leaves_entry (u : ArchiveStore.Upload) (s s1 : ArchiveStore.Store)
    (a : ArchiveStore.Action) (uid : string) :
  upload u s = (ArchiveStore.Accepted a uid, s1) ->
  exists e,
    List.find (ArchiveStore.has_clean_name (clean_name_of u)) (ArchiveStore.entries s1)
      = Some e /\
    ArchiveStore.unique_id e = uid /\
    ArchiveStore.date_leb (build_date_of u) (ArchiveStore.build_date e) = true.
Proof.
  unfold ArchiveStore.upload. destruct (validate u); [|discriminate].
  unfold ArchiveStore.upsert.
  destruct (List.find (ArchiveStore.has_clean_name (clean_name_of u)) (ArchiveStore.entries s))
    as [old|] eqn:Hfind.
  - destruct (ArchiveStore.date_leb (build_date_of u) (ArchiveStore.build_date old)) eqn:Hle.
    + intros [= <- <- <-]. exists old. auto.
    + intros [= <- <- <-]. exists (fresh_entry u).
      rewrite enqueue_entries. cbn [ArchiveStore.entries].
      split; [|split; [reflexivity|apply date_leb_refl]].
      eapply find_replaced; [apply fresh_entry_clean_name|exact Hfind].
  - intros [= <- <- <-]. exists (fresh_entry u).
    rewrite enqueue_entries. cbn [ArchiveStore.entries].
    split; [|split; [reflexivity|apply date_leb_refl]].
    apply find_appended; [apply fresh_entry_clean_name|exact Hfind].
Qed.

(** C6: when an upload has been accepted, a second valid upload with the
    same clean name and the same build date is answered [Skipped] with the
    identity the first one was answered with, and the archive (entries,
    stored bytes, jobs) is left as it was: nothing is reprocessed. *)
Theorem upload_idempotent (u1 u2 : ArchiveStore.Upload) (s s1 : ArchiveStore.Store)
    (a1 : ArchiveStore.Action) (uid1 : string) :
  upload u1 s = (ArchiveStore.Accepted a1 uid1, s1) ->
  validate u2 = true ->
  clean_name_of u2 = clean_name_of u1 ->
  build_date_of u2 = build_date_of u1 ->
  upload u2 s1 = (ArchiveStore.Accepted ArchiveStore.Skipped uid1, s1).
Proof.
  intros H1 Hvalid Hname Hdate.
  destruct (upload_leaves_entry u1 s s1 a1 uid1 H1) as (e & Hfind & Huid & Hle).
  unfold ArchiveStore.upload. rewrite Hvalid.
  unfold ArchiveStore.upsert. rewrite Hname, Hfind, Hdate, Hle, Huid. reflexivity.
Qed.

End Dedup.

(** S.gpx with build date 2026-01-02, uploaded twice into an empty
    archive: created as S_20260102, then skipped. *)
Lemma upload_idempotent_witness :
  let upload := ArchiveStore.upload example_stem example_sanitize ".gpx" 1000 in
  fst (upload example_upload empty_store)
    = ArchiveStore.Accepted ArchiveStore.Created "S_20260102" /\
  upload example_upload (snd (upload example_upload empty_store))
    = (ArchiveStore.Accepted ArchiveStore.Skipped "S_20260102",
       snd (upload example_upload empty_store)).
Proof.
  split; [reflexivity|].
  apply (upload_idempotent example_stem example_sanitize ".gpx" 1000
           example_upload example_upload empty_store _ ArchiveStore.Created);
    reflexivity.
Defined.

(** ** The extractor *)

Lemma sum_points_imap (f : nat -> Extractor.Path -> Extractor.OutputDocument)
    (l : list Extractor.Path) :
  (forall i t, Extractor.document_points (f i t) = length (Extractor.path_points t)) ->
  sum_list (Extractor.document_points <$> imap f l) =
  sum_list ((fun t => length (Extractor.path_points t)) <$> l).
Proof.
  revert f. induction l as [|t l IH]; intros f Hf; cbn; [reflexivity|].
  rewrite Hf. f_equal. apply IH. intros i t'. apply Hf.
Qed.

(** C7: for every parsed input document, the markers written to the
    markers output plus the points of all track and route outputs are as
    many as the markers plus the track and route points of the input; the
    totals of the summary say the same. *)
Theorem extraction_preserves_points (sanitize : string -> string)
    (ext clean_name source_filename now : string) (doc : Extractor.GeoDocument) :
  let e := Extractor.extract sanitize ext clean_name source_filename now doc in
  Extractor.output_points e = Extractor.input_points doc /\
  Extractor.total_markers (Extractor.summary_text e)
  + Extractor.total_points (Extractor.summary_text e) = Extractor.input_points doc.
Proof.
  unfold Extractor.extract, Extractor.output_points, Extractor.input_points.
  cbn [Extractor.markers_file Extractor.track_files Extractor.route_files
       Extractor.summary_text Extractor.total_markers Extractor.total_points].
  rewrite !sum_points_imap by reflexivity.
  split; [|lia].
  destruct (Extractor.markers doc); reflexivity.
Qed.

(** * Further properties of the scripts *)

Import Properties.

(** ** The main script: Select/Process *)

Lemma endsWith_append (s suffix : string) : endsWith (s +:+ suffix) suffix = true.
Proof. apply endsWith_spec. exists s. reflexivity. Qed.

Lemma basePath_slash (p : Main.Page) : endsWith (Main._basePath p) "/" = true.
Proof.
  unfold Main._basePath.
  destruct (endsWith (Main.pathname (Main.net p)) "/") eqn:E; [exact E|apply endsWith_append].
Qed.

Ltac settle_goal :=
  split; [reflexivity | split; [reflexivity | intros H; first [reflexivity | congruence]]].

Lemma processFile_settles (uniqueId : string) (o : FetchOutcome) (p : Main.Page) :
  let p' := exec (Main.processFile uniqueId o) p in
  Main.requests (Main.net p') =
    Main.requests (Main.net p) ++
      [Main.mkRequest (Main._basePath p +:+ "select-file") "POST"
         (JObj {[ "unique_id" := JStr uniqueId ]})] /\
  hidden_overlay p p'.
Proof.
  destruct p as [[ov txt bo ts] d a c s [pn rq nv]].
  unfold hidden_overlay.
  destruct o as [m | data].
  - cbn. destruct ov, txt, m; cbn; settle_goal.
  - destruct data; cbn; try (destruct ov, txt; cbn; settle_goal).
    main_unfold. cbn [get_prop].
    generalize (default JUndefined (fields !! "redirect")) as r.
    generalize (default JUndefined (fields !! "url")) as u.
    generalize (default JUndefined (fields !! "job_id")) as j.
    generalize (default JUndefined (fields !! "error")) as e.
    intros e j u r.
    destruct (truthy r) eqn:Hr; cbn [andb]; rewrite ?Hr.
    all: destruct (truthy u) eqn:Hu; rewrite ?Hu, ?Hr.
    all: destruct (truthy j) eqn:Hj; rewrite ?Hj.
    all: repeat match goal with
                |- context [js_to_string ?v] => destruct (js_to_string v)
                end.
    all: cbn; repeat match goal with |- context [isEmpty ?m] => destruct (isEmpty m) end.
    all: destruct ov, txt; cbn; settle_goal.
Qed.

(** X1: whatever the server answers, [processFile] has sent exactly one
    request, a POST of the identifier to [select-file] under the base
    path, which ends with a slash; and when the call has settled the
    loading overlay is hidden again and the page scrolls. *)
Theorem processFile_request (uniqueId : string) (o : FetchOutcome) (p : Main.Page) :
  let p' := exec (Main.processFile uniqueId o) p in
  Main.requests (Main.net p') =
    Main.requests (Main.net p) ++
      [Main.mkRequest (Main._basePath p +:+ "select-file") "POST"
         (JObj {[ "unique_id" := JStr uniqueId ]})] /\
  endsWith (Main._basePath p) "/" = true /\
  hidden_overlay p p'.
Proof.
  intros p'. destruct (processFile_settles uniqueId o p) as [Hreq Hhidden].
  split; [exact Hreq|]. split; [apply basePath_slash|exact Hhidden].
Qed.

(** ** The main script: deletion *)

Ltac close_goal :=
  cbn; do 2 eexists; split; [reflexivity|];
  unfold dialog_closed, hidden_overlay; cbn;
  repeat split; try reflexivity; intros; first [reflexivity | congruence].

Lemma confirmDelete_settle_closes (uid : string) (name : option string)
    (o : FetchOutcome) (p : Main.Page) :
  exists r p2,
    Main.confirmDelete_settle uid name o p = (Normal r, p2) /\
    dialog_closed p p2 /\ hidden_overlay p p2 /\
    Main.requests (Main.net p2) = Main.requests (Main.net p).
Proof.
  destruct p as [[ov txt bo ts] [dm dn dt did dname] [its fl] c s n].
  main_unfold. destruct o as [m | data].
  - destruct ov, dm, dt; close_goal.
  - destruct data; cbn [get_prop];
      try (destruct ov, dm, dt; close_goal; fail).
    generalize (default JUndefined (fields !! "success")) as sc.
    generalize (default JUndefined (fields !! "error")) as e. intros e sc.
    destruct (truthy sc);
      [|destruct (js_to_string (js_or e _)); destruct ov, dm, dt; close_goal].
    destruct (Main.cssStringPlain uid); [|destruct ov, dm, dt; close_goal].
    destruct ov, dm, dt; cbn; destruct (Main.find_item uid its); close_goal.
Qed.

Lemma removeItem_timer_frame (i : nat) (p : Main.Page) :
  let p' := exec (Main.removeItem_timer i) p in
  Main.ui p' = Main.ui p /\ Main.dialog p' = Main.dialog p /\ Main.net p' = Main.net p.
Proof.
  destruct p as [u d [its fl] c s n]. main_unfold. cbn.
  destruct fl; cbn; [|auto].
  destruct (length (delete i its) =? 0)%nat; auto.
Qed.

Lemma confirmDelete_start_page (p : Main.Page) (uid : string) :
  request_sent p uid ->
  exists p1,
    Main.confirmDelete_start p =
      (Normal (Some (uid, Main.currentDeleteName (Main.dialog p))), p1) /\
    Main.dialog p1 = Main.dialog p /\
    Main.loadingOverlay (Main.ui p1) =
      (fun _ => "flex") <$> Main.loadingOverlay (Main.ui p) /\
    Main.requests (Main.net p1) =
      Main.requests (Main.net p) ++
        [Main.mkRequest (Main._basePath p +:+ "delete-file") "POST"
           (JObj {[ "unique_id" := JStr uid; "token" := JStr (token_of p) ]})].
Proof.
  intros (Htok & Hid & Huid). apply isEmpty_false in Htok, Huid.
  unfold token_of in *. main_unfold. rewrite Htok, Hid, Huid.
  eexists; split; [reflexivity|].
  destruct p as [[[ov|] [txt|] bo ts] d a c s n]; cbn; auto.
Qed.

Lemma confirmDelete_closes (o : FetchOutcome) (p : Main.Page) (uid : string) :
  request_sent p uid ->
  dialog_closed p (exec (Main.confirmDelete o) p) /\
  hidden_overlay p (exec (Main.confirmDelete o) p).
Proof.
  intros Hsent. set (p' := exec (Main.confirmDelete o) p).
  destruct (confirmDelete_start_page p uid Hsent) as (p1 & Hstart & Hd1 & Hov1 & _).
  destruct (confirmDelete_settle_closes uid (Main.currentDeleteName (Main.dialog p)) o p1)
    as (r & p2 & Hsettle & Hclosed & Hhidden & _).
  assert (Hframe : Main.ui p' = Main.ui p2 /\ Main.dialog p' = Main.dialog p2).
  { subst p'. rewrite (confirmDelete_exec _ _ _ _ _ _ _ Hstart Hsettle).
    destruct r as [i|]; [|auto].
    pose proof (removeItem_timer_frame i p2) as (Hu & Hd & _). auto. }
  destruct Hframe as [Hu3 Hd3].
  unfold dialog_closed, hidden_overlay in *. rewrite Hu3, Hd3.
  rewrite Hd1 in Hclosed. rewrite Hov1 in Hhidden.
  destruct Hclosed as (? & ? & ? & ?). destruct Hhidden as (Hh1 & Hh2).
  repeat split; try assumption.
  - rewrite Hh1. destruct (Main.loadingOverlay (Main.ui p)); reflexivity.
  - intros Hne. apply Hh2. destruct (Main.loadingOverlay (Main.ui p)); [discriminate|congruence].
Qed.

(** X2: once the delete request has gone out, whatever comes back (a
    success, a refusal, a malformed answer, a network failure) the delete
    dialog is closed, the token input is cleared, no entry stays selected
    for deletion and the loading overlay is hidden. *)
Theorem confirmDelete_closes_dialog (o : FetchOutcome) (p : Main.Page) (uid : string) :
  request_sent p uid ->
  let p' := exec (Main.confirmDelete o) p in
  dialog_closed p p' /\ hidden_overlay p p'.
Proof. intros Hsent p'. apply (confirmDelete_closes o p uid Hsent). Qed.

(** On the example page a rejected request still closes the dialog. *)
Lemma confirmDelete_closes_dialog_witness :
  request_sent example_page "S_20260102" /\
  dialog_closed example_page
    (exec (Main.confirmDelete (Rejected "Failed to fetch")) example_page) /\
  hidden_overlay example_page
    (exec (Main.confirmDelete (Rejected "Failed to fetch")) example_page).
Proof.
  assert (H : request_sent example_page "S_20260102")
    by (repeat split; vm_compute; discriminate).
  split; [exact H|].
  exact (confirmDelete_closes_dialog (Rejected "Failed to fetch") example_page
           "S_20260102" H).
Defined.

Lemma confirmDelete_guarded (o : FetchOutcome) (p : Main.Page) :
  token_of p = "" \/ no_selection p ->
  exists toast,
    exec (Main.confirmDelete o) p = Main.upd_ui (Main.set_toasts (shown p ++ [toast])) p.
Proof.
  intros H.
  unfold Main.confirmDelete, Main.confirmDelete_start, Main.showToast, shown.
  monad_unfold. fold (token_of p).
  destruct (isEmpty (token_of p)) eqn:Ht.
  - cbn. eauto.
  - apply isEmpty_false in Ht.
    destruct H as [H | [H | H]]; [congruence | |]; rewrite H; cbn; eauto.
Qed.

Lemma request_sent_dec (p : Main.Page) :
  (token_of p = "" \/ no_selection p) \/ exists uid, request_sent p uid.
Proof.
  unfold request_sent, no_selection.
  destruct (token_of p) as [|c t] eqn:Ht; [auto|].
  destruct (Main.currentDeleteId (Main.dialog p)) as [[|d uid]|]; auto.
  right. exists (String d uid). repeat split; congruence.
Qed.

Lemma confirmDelete_requests (o : FetchOutcome) (p : Main.Page) (uid : string) :
  request_sent p uid ->
  Main.requests (Main.net (exec (Main.confirmDelete o) p)) =
  Main.requests (Main.net p) ++
    [Main.mkRequest (Main._basePath p +:+ "delete-file") "POST"
       (JObj {[ "unique_id" := JStr uid; "token" := JStr (token_of p) ]})].
Proof.
  intros Hsent.
  destruct (confirmDelete_start_page p uid Hsent) as (p1 & Hstart & _ & _ & Hreq).
  destruct (confirmDelete_settle_closes uid (Main.currentDeleteName (Main.dialog p)) o p1)
    as (r & p2 & Hsettle & _ & _ & Hreq2).
  rewrite (confirmDelete_exec _ _ _ _ _ _ _ Hstart Hsettle).
  destruct r as [i|].
  - pose proof (removeItem_timer_frame i p2) as (_ & _ & Hn). rewrite Hn. congruence.
  - congruence.
Qed.

(** X3: a delete attempt is not repeated.  When [confirmDelete] has
    settled, on any page and with any answer, a further call (a second
    Enter, a second click) sends no request whatever it would be
    answered. *)
Theorem confirmDelete_not_repeated (o1 o2 : FetchOutcome) (p : Main.Page) :
  let p1 := exec (Main.confirmDelete o1) p in
  Main.requests (Main.net (exec (Main.confirmDelete o2) p1)) = Main.requests (Main.net p1).
Proof.
  intros p1.
  assert (Hguard : token_of p1 = "" \/ no_selection p1).
  { destruct (request_sent_dec p) as [Hg | [uid Hsent]].
    - destruct (confirmDelete_guarded o1 p Hg) as [toast Heq].
      subst p1. rewrite Heq. exact Hg.
    - right. left.
      apply (confirmDelete_closes o1 p uid Hsent). }
  destruct (confirmDelete_guarded o2 p1 Hguard) as [toast ->]. reflexivity.
Qed.

(** X4: on a page with the token input, [showDeleteDialog] followed by
    [confirmDelete].  When the dialog's elements are all there the token
    input has been emptied, so a confirmation without typing sends
    nothing; and when a token that is not blank has been typed, the
    request is one POST to [delete-file] under the base path, with the
    identifier handed to [showDeleteDialog] and the trimmed token. *)
Theorem delete_request_of_dialog (uniqueId displayName text : string) (p : Main.Page) :
  Main.deleteToken (Main.dialog p) <> None ->
  let opened := exec (Main.showDeleteDialog uniqueId displayName) p in
  (Main.deleteModal (Main.dialog p) <> None -> Main.deleteFileName (Main.dialog p) <> None ->
     forall o, Main.requests (Main.net (exec (Main.confirmDelete o) opened))
               = Main.requests (Main.net p)) /\
  (trim text <> "" -> uniqueId <> "" ->
     forall o, Main.requests (Main.net (exec (Main.confirmDelete o) (type_token text opened)))
               = Main.requests (Main.net p) ++
                 [Main.mkRequest (Main._basePath p +:+ "delete-file") "POST"
                    (JObj {[ "unique_id" := JStr uniqueId; "token" := JStr (trim text) ]})]).
Proof.
  intros Htok opened.
  destruct p as [u [dm dn dt did dname] a c s n]. cbn in Htok.
  destruct dt as [tok|]; [clear Htok|congruence].
  split.
  - intros Hm Hn o. cbn in Hm, Hn.
    destruct dm; [|congruence]. destruct dn; [|congruence].
    assert (Hg : token_of opened = "" \/ no_selection opened) by (left; reflexivity).
    destruct (confirmDelete_guarded o opened Hg) as [toast Heq]. rewrite Heq. reflexivity.
  - intros Htext Huid o.
    assert (Hsent : request_sent (type_token text opened) uniqueId).
    { subst opened. destruct dm, dn; repeat split; assumption. }
    rewrite (confirmDelete_requests o _ _ Hsent).
    subst opened. destruct dm, dn; reflexivity.
Qed.

(** The dialog is opened for A_20251224 and the token typed with blanks
    around it. *)
Lemma delete_request_of_dialog_witness :
  Main.deleteToken (Main.dialog example_page) <> None /\
  Main.requests
    (Main.net
       (exec (Main.confirmDelete (Json (JObj {[ "success" := JBool true ]})))
          (type_token " secret "
             (exec (Main.showDeleteDialog "A_20251224" "A.gpx") example_page))))
  = [Main.mkRequest "/extract-gpx-parts/delete-file" "POST"
       (JObj {[ "unique_id" := JStr "A_20251224"; "token" := JStr "secret" ]})].
Proof.
  assert (H : Main.deleteToken (Main.dialog example_page) <> None) by discriminate.
  split; [exact H|].
  apply (proj2 (delete_request_of_dialog "A_20251224" "A.gpx" " secret " example_page H));
    discriminate.
Defined.

(** ** The main script: upload *)

Lemma submitForm_uploads (p : Main.Page) :
  match Main.files0 p with
  | Some file =>
      Main.uploads (Main.submitUi (Main.submitForm p))
      = Main.uploads (Main.submitUi p) ++ [file] /\
      shown (Main.submitForm p) = shown p
  | None =>
      Main.uploads (Main.submitUi (Main.submitForm p)) = Main.uploads (Main.submitUi p) /\
      shown (Main.submitForm p) = shown p ++ [error_toast "Please select a GPX file first"]
  end.
Proof.
  destruct p as [u d a [fi fl fo fn fs] [pd ub dp ups] n].
  upload_unfold. unfold shown. cbn.
  destruct fi as [[file|]|]; cbn; auto.
  destruct pd, ub; cbn; auto.
Qed.

Lemma selectFile_onFileChange (formatFileSize : Z -> string) (f : Main.File) (p : Main.Page) :
  input_present p ->
  exists p0,
    Main.selectFile (Main.onFileChange formatFileSize) f p = exec (Main.validateFile f) p0 /\
    holds_file f p0 /\ shown p0 = shown p /\ Main.submitUi p0 = Main.submitUi p.
Proof.
  intros Hin. destruct p as [u d a [fi fl fo fn fs] sb n].
  unfold input_present in Hin; cbn in Hin.
  destruct fi as [fi|]; [clear Hin|congruence].
  destruct fn, fs, fl, fo.
  all: eexists; split;
    [ unfold Main.selectFile, Main.onFileChange, Main.files0; monad_unfold; cbn; reflexivity
    | split; [reflexivity | split; reflexivity] ].
Qed.

(** X5: a file the checks accept goes through.  On a page with the file
    input, picking a file with the [.gpx] extension (in any case) and at
    most 100 MB shows the success toast, and the following submit uploads
    exactly that file. *)
Theorem valid_file_is_uploaded (formatFileSize : Z -> string) (f : Main.File) (p : Main.Page) :
  input_present p ->
  has_gpx_extension f = true -> within_size_limit f = true ->
  let p' := Main.selectFile (Main.onFileChange formatFileSize) f p in
  shown p' = shown p ++ [success_toast "GPX file ready for processing"] /\
  Main.uploads (Main.submitUi (Main.submitForm p')) = Main.uploads (Main.submitUi p) ++ [f].
Proof.
  intros Hin Hext Hsize p'.
  destruct (selectFile_onFileChange formatFileSize f p Hin) as (p0 & Hsel & Hfile & Hshown & Hsub).
  subst p'. rewrite Hsel.
  pose proof (validateFile_spec f p0 Hfile) as [Hsub' Hfiles].
  rewrite Hext, Hsize in Hfiles.
  split.
  - rewrite <- Hshown. clear -Hfile Hext Hsize.
    unfold holds_file in Hfile. destruct p0 as [u d a [fi fl fo fn fs] sb n]. cbn in Hfile. subst fi.
    upload_unfold. fold (has_gpx_extension f). rewrite (size_check f), Hext, Hsize. reflexivity.
  - pose proof (submitForm_uploads (exec (Main.validateFile f) p0)) as Hup.
    rewrite Hfiles in Hup. destruct Hup as [Hup _]. rewrite Hup. congruence.
Qed.

(** Tour.GPX with 2 MB is uploaded. *)
Lemma valid_file_is_uploaded_witness :
  input_present example_page /\
  has_gpx_extension (Main.mkFile "Tour.GPX" (2 * 1024 * 1024)) = true /\
  within_size_limit (Main.mkFile "Tour.GPX" (2 * 1024 * 1024)) = true /\
  Main.uploads
    (Main.submitUi
       (Main.submitForm
          (Main.selectFile (Main.onFileChange example_formatFileSize)
             (Main.mkFile "Tour.GPX" (2 * 1024 * 1024)) example_page)))
  = [Main.mkFile "Tour.GPX" (2 * 1024 * 1024)].
Proof.
  assert (H : input_present example_page) by (vm_compute; discriminate).
  split; [exact H|]. split; [reflexivity|]. split; [reflexivity|].
  exact (proj2 (valid_file_is_uploaded example_formatFileSize
                  (Main.mkFile "Tour.GPX" (2 * 1024 * 1024)) example_page
                  H eq_refl eq_refl)).
Defined.

(** ** The main script: progress *)

Section Progress.
Import Double.
Local Open Scope Z_scope.

Lemma reach_below_90 (ticks : nat) : (ticks <= 6)%nat -> reach 0 ticks < 90 * one.
Proof.
  intros H.
  destruct ticks as [|[|[|[|[|[|[|n]]]]]]]; try lia; vm_compute; reflexivity.
Qed.

(** X6: the text [Almost done...] is the end of the simulated progress.
    Whatever [Math.random] draws, a frame that shows it is the last one
    (the interval has been cleared), its bar stands at 90 percent, and it
    is not among the first six ticks: six steps of the largest draw,
    each sum rounded to a double, stay below 90. *)
Theorem almost_done_is_last (progressFill progressText : bool)
    (draws : list Double.double) (i : nat) (f : Main.Frame) :
  Forall is_draw draws ->
  let frames := Main.simulateProgress progressFill progressText draws in
  frames !! i = Some f -> Main.frame_text f = "Almost done..." ->
  (6 <= i)%nat /\ S i = length frames /\ (percentage f == 90)%Q.
Proof.
  intros Hdraws frames Hi Ht. subst frames.
  destruct (simulateProgress_frames _ _ draws Hdraws i f Hi)
    as (Hg & [_ H90] & Hreach & Htext & Hlast & _).
  rewrite Htext in Ht.
  pose proof (progressText_at_cleared _ Hg) as [Hc Hd].
  apply Hd, Hc in Ht.
  assert (Hu : units (Main.frame_width f) = 90 * one) by lia.
  split; [|split].
  - destruct (le_lt_dec 6 i) as [|Hlt]; [assumption|exfalso].
    pose proof (reach_below_90 (S i) ltac:(lia)). lia.
  - apply Hlast. rewrite Htext. apply Hd, Hc. lia.
  - unfold percentage. rewrite (to_Q_units _ Hg), Hu. reflexivity.
Qed.

(** Eleven draws of 0.5 and one of 0.49999999999999994: the steps add up
    to less than 90, yet the twelfth sum is rounded to 90, and the twelfth
    tick shows the text. *)
Lemma almost_done_is_last_witness :
  Forall is_draw example_draws /\
  Main.simulateProgress true true example_draws !! 11%nat
  = Some (Main.mkFrame (Double.of_Z 90) "Almost done...") /\
  (6 <= 11)%nat /\
  12%nat = length (Main.simulateProgress true true example_draws) /\
  (percentage (Main.mkFrame (Double.of_Z 90) "Almost done...") == 90)%Q.
Proof.
  split; [exact example_draws_drawn|].
  assert (H : Main.simulateProgress true true example_draws !! 11%nat
              = Some (Main.mkFrame (Double.of_Z 90) "Almost done..."))
    by (vm_compute; reflexivity).
  split; [exact H|].
  exact (almost_done_is_last true true example_draws 11
           (Main.mkFrame (Double.of_Z 90) "Almost done...") example_draws_drawn H eq_refl).
Defined.

End Progress.

(** ** The results page *)

Section ResultsPage.
Import Results.

Lemma box_names_rows (r : ResultsPage) : box_names r = omap row_name (rows r).
Proof.
  unfold box_names, checkboxes. induction (rows r) as [|row l IH]; [reflexivity|].
  cbn. unfold row_name at 1. destruct (row_checkbox row); cbn; rewrite <- IH; reflexivity.
Qed.

Lemma ticked_rows (r : ResultsPage) : ticked r = omap row_ticked (rows r).
Proof.
  unfold ticked, checkboxes. induction (rows r) as [|row l IH]; [reflexivity|].
  cbn. unfold row_ticked at 1. destruct (row_checkbox row) as [cb|]; cbn; [|exact IH].
  destruct (checked cb); cbn; rewrite <- IH; reflexivity.
Qed.

Lemma row_ticked_name (row : FileRow) (x : string) :
  row_ticked row = Some x -> row_name row = Some x.
Proof.
  unfold row_ticked, row_name. destruct (row_checkbox row) as [cb|]; cbn; [|discriminate].
  destruct (checked cb); congruence.
Qed.

Lemma ticked_subset (l : list FileRow) (x : string) :
  x ∈ omap row_ticked l -> x ∈ omap row_name l.
Proof.
  rewrite !list_elem_of_omap. intros (row & Hin & H). exists row. split; [exact Hin|].
  apply row_ticked_name, H.
Qed.

Lemma ticked_NoDup (l : list FileRow) :
  NoDup (omap row_name l) -> NoDup (omap row_ticked l).
Proof.
  induction l as [|row l IH]; cbn; [constructor|].
  destruct (row_name row) as [n|] eqn:Hn.
  - intros H. apply NoDup_cons in H as [Hnotin Hl].
    destruct (row_ticked row) as [x|] eqn:Hx; [|apply IH, Hl].
    apply row_ticked_name in Hx. assert (x = n) by congruence. subst x.
    constructor; [|apply IH, Hl]. intros Hc. apply Hnotin, ticked_subset, Hc.
  - intros H. destruct (row_ticked row) as [x|] eqn:Hx; [|apply IH, H].
    apply row_ticked_name in Hx. congruence.
Qed.

(** Row maps that keep the names. *)
Lemma names_map (f : FileRow -> FileRow) (l : list FileRow) :
  (forall row, row_name (f row) = row_name row) ->
  omap row_name (map f l) = omap row_name l.
Proof.
  intros Hf. induction l as [|row l IH]; cbn; [reflexivity|].
  rewrite Hf, IH. reflexivity.
Qed.

Lemma names_alter (f : FileRow -> FileRow) (i : nat) (l : list FileRow) :
  (forall row, row_name (f row) = row_name row) ->
  omap row_name (alter f i l) = omap row_name l.
Proof.
  intros Hf. revert i. induction l as [|row l IH]; intros [|i]; cbn; try reflexivity.
  - rewrite Hf. reflexivity.
  - rewrite IH. reflexivity.
Qed.

Lemma check_name row : row_name (check row) = row_name row.
Proof. destruct row as [t [cb|]]; reflexivity. Qed.
Lemma uncheck_name row : row_name (uncheck row) = row_name row.
Proof. destruct row as [t [cb|]]; reflexivity. Qed.
Lemma flip_name row : row_name (flip row) = row_name row.
Proof. destruct row as [t [cb|]]; reflexivity. Qed.

Lemma check_ticked row : row_ticked (check row) = row_name row.
Proof. destruct row as [t [cb|]]; reflexivity. Qed.
Lemma uncheck_ticked row : row_ticked (uncheck row) = None.
Proof. destruct row as [t [cb|]]; reflexivity. Qed.

(** The selected set after a [forEach] that adds names. *)
Lemma elem_of_fold_add (l : list Checkbox) (s : list string) (x : string) :
  x ∈ fold_left (fun selected checkbox => JsSet.add (filename checkbox) selected) l s
  <-> x ∈ s \/ x ∈ filename <$> l.
Proof.
  revert s. induction l as [|cb l IH]; intros s; cbn.
  - rewrite elem_of_nil. tauto.
  - rewrite IH, elem_of_cons. unfold JsSet.add, JsSet.has.
    case_bool_decide as Hin.
    + split; [tauto|]. intros [?|[->|?]]; auto.
    + rewrite elem_of_app, list_elem_of_singleton. tauto.
Qed.

Lemma omap_checkbox_names (l : list FileRow) :
  filename <$> omap row_checkbox l = omap row_name l.
Proof.
  induction l as [|row l IH]; [reflexivity|].
  cbn. unfold row_name at 1. destruct (row_checkbox row); cbn; rewrite <- IH; reflexivity.
Qed.

(** What [select_rows] leaves: the picked rows ticked, their names added. *)
Lemma select_rows_rows (pick : FileRow -> bool) (r : ResultsPage) :
  rows (select_rows pick r) = map (fun row => if pick row then check row else row) (rows r).
Proof. reflexivity. Qed.

Lemma select_rows_selected (pick : FileRow -> bool) (r : ResultsPage) (x : string) :
  x ∈ selectedFiles (select_rows pick r) <->
  x ∈ selectedFiles r \/ x ∈ omap row_name (List.filter pick (rows r)).
Proof.
  unfold select_rows. cbn [selectedFiles set_selectedFiles].
  rewrite elem_of_fold_add, omap_checkbox_names. reflexivity.
Qed.

Lemma updateSelectedCount_rows (r : ResultsPage) :
  rows (exec updateSelectedCount r) = rows r.
Proof. destruct r as [rw sel [cnt|] [btn|] box ov dir ts rq dl]; reflexivity. Qed.

Lemma updateSelectAllCheckbox_rows (r : ResultsPage) :
  rows (exec updateSelectAllCheckbox r) = rows r.
Proof. destruct r as [rw sel cnt btn [box|] ov dir ts rq dl]; reflexivity. Qed.

Lemma refresh_rows (r : ResultsPage) :
  rows (exec (updateSelectedCount ;; updateSelectAllCheckbox) r) = rows r.
Proof.
  rewrite exec_seq by apply total_modify.
  rewrite updateSelectAllCheckbox_rows. apply updateSelectedCount_rows.
Qed.

(** The invariant reads the rows and the set only. *)
Lemma selection_invariant_core (r r' : ResultsPage) :
  rows r' = rows r -> selectedFiles r' = selectedFiles r ->
  selection_invariant r -> selection_invariant r'.
Proof.
  unfold selection_invariant, selection_agrees, box_names, ticked, checkboxes.
  intros -> ->. auto.
Qed.

Lemma filter_true {A} (l : list A) : List.filter (fun _ => true) l = l.
Proof. induction l as [|x l IH]; cbn; congruence. Qed.

Lemma omap_map {A B C} (f : B -> option C) (g : A -> B) (l : list A) :
  omap f (map g l) = omap (fun x => f (g x)) l.
Proof. induction l as [|x l IH]; cbn; [reflexivity|]. rewrite IH. reflexivity. Qed.

Lemma ticked_checked_all (l : list FileRow) :
  omap row_ticked (map check l) = omap row_name l.
Proof.
  induction l as [|row l IH]; cbn; [reflexivity|]. rewrite check_ticked, IH. reflexivity.
Qed.

Lemma ticked_unchecked_all (l : list FileRow) :
  omap row_ticked (map uncheck l) = [].
Proof.
  induction l as [|row l IH]; cbn; [reflexivity|]. rewrite uncheck_ticked, IH. reflexivity.
Qed.

Lemma ticked_after_pick (pick : FileRow -> bool) (l : list FileRow) :
  omap row_ticked l = [] ->
  omap row_ticked (map (fun row => if pick row then check row else row) l)
  = omap row_name (List.filter pick l).
Proof.
  induction l as [|row l IH]; cbn; [reflexivity|].
  destruct (row_ticked row) as [x|] eqn:Hx; [discriminate|]. intros Hl.
  destruct (pick row); cbn.
  - rewrite check_ticked, (IH Hl). reflexivity.
  - rewrite Hx. apply IH, Hl.
Qed.

Lemma selectAll_invariant (r : ResultsPage) :
  selection_invariant r -> selection_invariant (exec selectAll r).
Proof.
  intros (Hnames & Hsel & Hagree).
  unfold selectAll. rewrite exec_seq by apply total_modify.
  eapply selection_invariant_core; [apply refresh_rows | apply refresh_selected |].
  unfold exec, modify. cbn [snd].
  unfold selection_invariant, selection_agrees.
  rewrite box_names_rows, ticked_rows, select_rows_rows.
  change (map (fun row => if true then check row else row) (rows r)) with (map check (rows r)).
  rewrite (names_map check) by apply check_name. rewrite <- box_names_rows.
  split; [exact Hnames|]. split; [apply select_rows_NoDup, Hsel|].
  intros x. rewrite select_rows_selected, filter_true, ticked_checked_all.
  split; [|tauto]. intros [Hx|Hx]; [|exact Hx].
  apply Hagree in Hx. rewrite ticked_rows in Hx. apply ticked_subset, Hx.
Qed.

Lemma selectNone_rows (r : ResultsPage) : rows (exec selectNone r) = map uncheck (rows r).
Proof.
  unfold selectNone.
  rewrite exec_seq by apply total_modify.
  rewrite exec_seq by apply total_modify.
  rewrite refresh_rows. reflexivity.
Qed.

Lemma selectNone_invariant (r : ResultsPage) :
  NoDup (box_names r) -> selection_invariant (exec selectNone r).
Proof.
  intros Hnames. unfold selection_invariant, selection_agrees.
  rewrite box_names_rows, ticked_rows, selectNone_rows, selectNone_selected.
  rewrite (names_map uncheck) by apply uncheck_name. rewrite <- box_names_rows.
  rewrite ticked_unchecked_all.
  split; [exact Hnames|]. split; [constructor|]. tauto.
Qed.

Lemma toast_count_rows (type : string) (r : ResultsPage) :
  rows
    (exec (count ← gets (fun r => JsSet.size (selectedFiles r)) ;
           showToast
             ("Selected " +:+ nat_to_string count +:+ " " +:+ type +:+ " file"
              +:+ (if negb (count =? 1)%nat then "s" else ""))
             "info") r) = rows r.
Proof. reflexivity. Qed.

Lemma selectByType_invariant (type : string) (r : ResultsPage) :
  NoDup (box_names r) -> selection_invariant (exec (selectByType type) r).
Proof.
  intros Hnames. unfold selectByType.
  rewrite exec_seq by apply total_selectNone.
  destruct (Main.cssStringPlain type).
  - rewrite exec_seq by apply total_modify.
    rewrite exec_seq by apply total_modify.
    rewrite exec_seq by apply total_modify.
    eapply selection_invariant_core; [apply toast_count_rows | apply toast_count_selected |].
    eapply selection_invariant_core;
      [apply updateSelectAllCheckbox_rows | apply updateSelectAllCheckbox_selected |].
    eapply selection_invariant_core;
      [apply updateSelectedCount_rows | apply updateSelectedCount_selected |].
    unfold exec at 1, modify. cbn [snd].
    destruct (selectNone_invariant r Hnames) as (Hn1 & Hs1 & Ha1).
    set (r1 := exec selectNone r) in *.
    assert (Ht1 : omap row_ticked (rows r1) = []).
    { subst r1. rewrite selectNone_rows. apply ticked_unchecked_all. }
    unfold selection_invariant, selection_agrees.
    rewrite box_names_rows, ticked_rows, select_rows_rows.
    rewrite names_map by (intros row; destruct (String.eqb _ _); [apply check_name|reflexivity]).
    rewrite <- box_names_rows.
    split; [exact Hn1|]. split; [apply select_rows_NoDup, Hs1|].
    intros x. rewrite select_rows_selected, (ticked_after_pick _ _ Ht1).
    subst r1. rewrite selectNone_selected, elem_of_nil. tauto.
  - rewrite exec_throw. apply selectNone_invariant, Hnames.
Qed.

Lemma onCheckboxChange_exec (i : nat) (r : ResultsPage) :
  exec (onCheckboxChange i) r =
  match rows r !! i ≫= row_checkbox with
  | Some target =>
      exec (updateSelectedCount ;; updateSelectAllCheckbox)
        (set_selectedFiles
           (if checked target
            then JsSet.add (filename target) (selectedFiles r)
            else JsSet.delete (filename target) (selectedFiles r)) r)
  | None => r
  end.
Proof.
  unfold onCheckboxChange.
  destruct (rows r !! i) as [[t [target|]]|] eqn:Hi; monad_unfold; rewrite Hi; reflexivity.
Qed.

Lemma flipped_box (i : nat) (l : list FileRow) :
  (flip <$> l !! i) ≫= row_checkbox
  = (fun checkbox => mkCheckbox (filename checkbox) (negb (checked checkbox)))
      <$> (l !! i ≫= row_checkbox).
Proof. destruct (l !! i) as [[t [cb|]]|]; reflexivity. Qed.

(** A click on the checkbox of row [i]: the row is flipped, and the name
    of its checkbox enters the set when it got ticked and leaves it when
    it got unticked. *)
Lemma checkbox_click (i : nat) (r : ResultsPage) :
  rows (perform (OpCheckbox i) r) = alter flip i (rows r) /\
  selectedFiles (perform (OpCheckbox i) r) =
    match rows r !! i ≫= row_checkbox with
    | Some checkbox =>
        if checked checkbox
        then JsSet.delete (filename checkbox) (selectedFiles r)
        else JsSet.add (filename checkbox) (selectedFiles r)
    | None => selectedFiles r
    end.
Proof.
  cbn [perform]. rewrite onCheckboxChange_exec.
  cbn [rows set_rows]. rewrite list_lookup_alter_eq, flipped_box.
  destruct (rows r !! i ≫= row_checkbox) as [[n c]|];
    cbn [fmap option_fmap option_map checked filename].
  - rewrite refresh_rows, refresh_selected. cbn [rows selectedFiles set_selectedFiles set_rows].
    destruct c; split; reflexivity.
  - split; reflexivity.
Qed.

Lemma alter_middle {A} (f : A -> A) (i : nat) (l : list A) (x : A) :
  l !! i = Some x -> alter f i l = take i l ++ f x :: drop (S i) l.
Proof.
  revert i. induction l as [|y l IH]; intros [|i] H; try discriminate.
  - injection H as <-. reflexivity.
  - cbn. f_equal. apply IH, H.
Qed.

Lemma JsSet_add_elem (x y : string) (s : list string) :
  y ∈ JsSet.add x s <-> y ∈ s \/ y = x.
Proof.
  unfold JsSet.add, JsSet.has. case_bool_decide as Hx.
  - split; [auto|]. intros [H| ->]; assumption.
  - rewrite elem_of_app, list_elem_of_singleton. reflexivity.
Qed.

Lemma alter_flip_without_box (i : nat) (l : list FileRow) :
  l !! i ≫= row_checkbox = None -> alter flip i l = l.
Proof.
  revert i. induction l as [|row l IH]; intros [|i] H; cbn in *; try reflexivity.
  - destruct row as [t [cb|]]; [discriminate|reflexivity].
  - f_equal. apply IH, H.
Qed.

Lemma checkbox_invariant (i : nat) (r : ResultsPage) :
  selection_invariant r -> selection_invariant (perform (OpCheckbox i) r).
Proof.
  intros (Hnames & Hsel & Hagree).
  destruct (checkbox_click i r) as [Hrows Hset].
  unfold selection_invariant, selection_agrees.
  rewrite box_names_rows, ticked_rows, Hrows, Hset.
  rewrite (names_alter flip) by apply flip_name. rewrite <- box_names_rows.
  split; [exact Hnames|].
  destruct (rows r !! i ≫= row_checkbox) as [[n c]|] eqn:Hi.
  - destruct (rows r !! i) as [[t box]|] eqn:Hrow; [|discriminate].
    cbn in Hi. subst box.
    rewrite (alter_middle _ _ _ _ Hrow).
    pose proof (take_drop_middle _ _ _ Hrow) as Hsplit.
    unfold selection_agrees in Hagree.
    rewrite box_names_rows in Hnames. rewrite ticked_rows in Hagree.
    rewrite <- Hsplit in Hnames, Hagree.
    set (pre := take i (rows r)) in *. set (post := drop (S i) (rows r)) in *.
    rewrite omap_app in Hnames. cbn in Hnames.
    apply NoDup_app in Hnames as (_ & Hpre & Hpost).
    apply NoDup_cons in Hpost as [Hpost _].
    assert (Hpre' : n ∉ omap row_ticked pre).
    { intros H%ticked_subset. apply (Hpre n H). left. }
    assert (Hpost' : n ∉ omap row_ticked post).
    { intros H%ticked_subset. contradiction. }
    cbn [checked filename]. destruct c.
    + split; [apply JsSet_delete_NoDup, Hsel|]. intros x.
      rewrite JsSet_delete_elem, Hagree, !omap_app. cbn.
      rewrite !elem_of_app, elem_of_cons.
      split.
      * intros [[H|[->|H]] Hx]; [left; exact H|contradiction|right; exact H].
      * intros [H|H]; (split; [tauto|]); intros ->; contradiction.
    + split; [apply JsSet_add_NoDup, Hsel|]. intros x.
      rewrite JsSet_add_elem, Hagree, !omap_app. cbn.
      rewrite !elem_of_app, elem_of_cons. tauto.
  - rewrite (alter_flip_without_box _ _ Hi).
    split; [exact Hsel|]. intros x. rewrite <- ticked_rows. apply Hagree.
Qed.

Lemma set_rows_same (r : ResultsPage) : set_rows (rows r) r = r.
Proof. destruct r; reflexivity. Qed.

Lemma toggleSelectAll_cases (r : ResultsPage) :
  perform OpToggleSelectAll r = r \/
  (exists r1, rows r1 = rows r /\ selectedFiles r1 = selectedFiles r /\
              (perform OpToggleSelectAll r = exec selectAll r1 \/
               perform OpToggleSelectAll r = exec selectNone r1)).
Proof.
  cbn [perform]. destruct (selectAllCheckbox r) as [[c ind]|] eqn:Hbox.
  - right. unfold toggleSelectAll. monad_unfold. cbn.
    destruct c; cbn; eexists; (split; [|split]);
      [| |right; reflexivity| | |left; reflexivity]; reflexivity.
  - left. unfold toggleSelectAll. monad_unfold. rewrite Hbox. reflexivity.
Qed.

Lemma perform_invariant (op : Operation) (r : ResultsPage) :
  selection_invariant r -> selection_invariant (perform op r).
Proof.
  intros Hr. destruct op as [| |type| |i].
  - apply selectAll_invariant, Hr.
  - apply selectNone_invariant, Hr.
  - apply selectByType_invariant, Hr.
  - destruct (toggleSelectAll_cases r) as [->|(r1 & Hrows & Hsel & [-> | ->])].
    + exact Hr.
    + apply selectAll_invariant. eapply selection_invariant_core; eassumption.
    + apply selectNone_invariant.
      apply (selection_invariant_core r r1 Hrows Hsel Hr).
  - apply checkbox_invariant, Hr.
Qed.

Lemma perform_all_invariant (ops : list Operation) (r : ResultsPage) :
  selection_invariant r -> selection_invariant (perform_all ops r).
Proof.
  revert r. induction ops as [|op ops IH]; intros r Hr; cbn; [exact Hr|].
  apply IH, perform_invariant, Hr.
Qed.

Lemma fresh_page_invariant (r : ResultsPage) :
  fresh_page r -> selection_invariant (exec initializeResults r).
Proof.
  intros (Hsel & Hticked & Hnames).
  apply (selection_invariant_core r);
    [apply updateSelectedCount_rows | apply updateSelectedCount_selected |].
  split; [exact Hnames|]. split; [rewrite Hsel; constructor|].
  intros x. rewrite Hsel, Hticked. reflexivity.
Qed.

Lemma selection_invariant_size (r : ResultsPage) :
  selection_invariant r -> JsSet.size (selectedFiles r) = length (ticked r).
Proof.
  intros (Hnames & Hsel & Hagree). unfold JsSet.size.
  apply Permutation_length, NoDup_Permutation; [exact Hsel| |exact Hagree].
  rewrite ticked_rows. apply ticked_NoDup. rewrite <- box_names_rows. exact Hnames.
Qed.

(** X7: on a results page rendered with nothing ticked, nothing selected
    and no file listed twice, after initialisation and any sequence of
    selection operations the set of selected files holds exactly the
    names of the ticked checkboxes, its size is their number, and the
    displayed count is that number. *)
Theorem count_of_ticked (ops : list Operation) (r : ResultsPage) :
  fresh_page r ->
  let r' := perform_all ops (exec initializeResults r) in
  (forall name, name ∈ selectedFiles r' <-> name ∈ ticked r') /\
  JsSet.size (selectedFiles r') = length (ticked r') /\
  (forall text, selectedCount r' = Some text ->
     text = nat_to_string (length (ticked r'))).
Proof.
  intros Hr r'.
  assert (Hinv : selection_invariant r')
    by apply perform_all_invariant, fresh_page_invariant, Hr.
  assert (Hshown : display_consistent r')
    by apply perform_all_consistent, updateSelectedCount_consistent.
  split; [apply Hinv|]. split; [apply selection_invariant_size, Hinv|].
  intros text Htext. rewrite <- (selection_invariant_size r' Hinv).
  apply Hshown, Htext.
Qed.

(** Select all, then untick the first file: one file stays selected. *)
Lemma count_of_ticked_witness :
  fresh_page example_results /\
  JsSet.size
    (selectedFiles
       (perform_all [OpSelectAll; OpCheckbox 0] (exec initializeResults example_results)))
  = length
      (ticked (perform_all [OpSelectAll; OpCheckbox 0]
                 (exec initializeResults example_results))).
Proof.
  assert (H : fresh_page example_results).
  { split; [reflexivity|]. split; [reflexivity|].
    apply NoDup_cons. split; [|apply NoDup_singleton].
    intros Hin%list_elem_of_singleton. discriminate Hin. }
  split; [exact H|].
  exact (proj1 (proj2 (count_of_ticked [OpSelectAll; OpCheckbox 0] example_results H))).
Defined.

Lemma updateSelectAllCheckbox_box (r : ResultsPage) :
  box_consistent (exec updateSelectAllCheckbox r).
Proof.
  destruct r as [rw sel cnt btn [box|] ov dir ts rq dl]; intros b Hb; cbn in *.
  - injection Hb as <-. reflexivity.
  - discriminate.
Qed.

Lemma box_consistent_core (r r' : ResultsPage) :
  rows r' = rows r -> selectedFiles r' = selectedFiles r ->
  selectAllCheckbox r' = selectAllCheckbox r ->
  box_consistent r -> box_consistent r'.
Proof. unfold box_consistent, checkboxes. intros -> -> ->. auto. Qed.

Lemma refresh_box (r : ResultsPage) :
  box_consistent (exec (updateSelectedCount ;; updateSelectAllCheckbox) r).
Proof. rewrite exec_seq by apply total_modify. apply updateSelectAllCheckbox_box. Qed.

Lemma selectAll_box (r : ResultsPage) : box_consistent (exec selectAll r).
Proof. unfold selectAll. rewrite exec_seq by apply total_modify. apply refresh_box. Qed.

Lemma selectNone_box (r : ResultsPage) : box_consistent (exec selectNone r).
Proof.
  unfold selectNone.
  rewrite exec_seq by apply total_modify.
  rewrite exec_seq by apply total_modify.
  apply refresh_box.
Qed.

Lemma toast_count_box (type : string) (r : ResultsPage) :
  selectAllCheckbox
    (exec (count ← gets (fun r => JsSet.size (selectedFiles r)) ;
           showToast
             ("Selected " +:+ nat_to_string count +:+ " " +:+ type +:+ " file"
              +:+ (if negb (count =? 1)%nat then "s" else ""))
             "info") r) = selectAllCheckbox r.
Proof. reflexivity. Qed.

Lemma selectByType_box (type : string) (r : ResultsPage) :
  box_consistent (exec (selectByType type) r).
Proof.
  unfold selectByType.
  rewrite exec_seq by apply total_selectNone.
  destruct (Main.cssStringPlain type).
  - rewrite exec_seq by apply total_modify.
    rewrite exec_seq by apply total_modify.
    rewrite exec_seq by apply total_modify.
    eapply box_consistent_core;
      [apply toast_count_rows | apply toast_count_selected | apply toast_count_box |].
    apply updateSelectAllCheckbox_box.
  - rewrite exec_throw. apply selectNone_box.
Qed.

Lemma checkbox_box (i : nat) (r : ResultsPage) :
  box_consistent r -> box_consistent (perform (OpCheckbox i) r).
Proof.
  intros Hr. cbn [perform]. rewrite onCheckboxChange_exec.
  cbn [rows set_rows]. rewrite list_lookup_alter_eq, flipped_box.
  destruct (rows r !! i ≫= row_checkbox) as [[n c]|] eqn:Hi;
    cbn [fmap option_fmap option_map].
  - apply refresh_box.
  - rewrite (alter_flip_without_box _ _ Hi), set_rows_same. exact Hr.
Qed.

Lemma perform_box (op : Operation) (r : ResultsPage) :
  box_consistent r -> box_consistent (perform op r).
Proof.
  intros Hr. destruct op as [| |type| |i].
  - apply selectAll_box.
  - apply selectNone_box.
  - apply selectByType_box.
  - destruct (toggleSelectAll_cases r) as [->|(r1 & _ & _ & [-> | ->])].
    + exact Hr.
    + apply selectAll_box.
    + apply selectNone_box.
  - apply checkbox_box, Hr.
Qed.

Lemma perform_all_box (ops : list Operation) (r : ResultsPage) :
  box_consistent r -> box_consistent (perform_all ops r).
Proof.
  revert r. induction ops as [|op ops IH]; intros r Hr; cbn; [exact Hr|].
  apply IH, perform_box, Hr.
Qed.

Lemma fresh_page_box (r : ResultsPage) :
  fresh_page r -> box_clear r -> box_consistent (exec initializeResults r).
Proof.
  intros (Hsel & _ & _) Hbox.
  apply (box_consistent_core r);
    [apply updateSelectedCount_rows | apply updateSelectedCount_selected
    | destruct r as [rw sel [cnt|] [btn|] box ov dir ts rq dl]; reflexivity |].
  intros box Hb. rewrite (Hbox box Hb), Hsel. cbn.
  destruct (length (checkboxes r)); reflexivity.
Qed.

Lemma filter_length_all {A} (f : A -> bool) (l : list A) :
  length (List.filter f l) = length l <-> Forall (fun x => f x = true) l.
Proof.
  induction l as [|x l IH]; cbn; [split; [constructor|reflexivity]|].
  pose proof (List.filter_length_le f l) as Hle.
  destruct (f x) eqn:Hx; cbn.
  - rewrite Forall_cons. split.
    + intros H. split; [exact Hx|]. apply IH. lia.
    + intros [_ H%IH]. lia.
  - split; [lia|]. intros [H _]%Forall_cons. congruence.
Qed.

Lemma filter_length_some {A} (f : A -> bool) (l : list A) :
  0 < length (List.filter f l) <-> Exists (fun x => f x = true) l.
Proof.
  induction l as [|x l IH]; cbn; [split; [lia|intros H; inversion H]|].
  rewrite Exists_cons. destruct (f x) eqn:Hx; cbn.
  - split; [auto|lia].
  - rewrite IH. split; [auto|]. intros [H|H]; [congruence|exact H].
Qed.

Lemma filter_length_less {A} (f : A -> bool) (l : list A) :
  length (List.filter f l) < length l <-> Exists (fun x => f x = false) l.
Proof.
  induction l as [|x l IH]; cbn; [split; [lia|intros H; inversion H]|].
  pose proof (List.filter_length_le f l) as Hle.
  rewrite Exists_cons. destruct (f x) eqn:Hx; cbn.
  - rewrite <- IH. split; [intros H; right; lia|intros [H|H]; [congruence|lia]].
  - split; [auto|lia].
Qed.

Lemma ticked_length (r : ResultsPage) :
  length (ticked r) = length (List.filter checked (checkboxes r)).
Proof. unfold ticked. apply length_fmap. Qed.

(** X8: on such a page whose select-all checkbox is rendered clear, after
    initialisation and any sequence of selection operations the
    select-all checkbox is checked exactly when there is a file checkbox
    and all of them are ticked, and indeterminate exactly when some are
    ticked and some are not. *)
Theorem select_all_box_state (ops : list Operation) (r : ResultsPage) :
  fresh_page r -> box_clear r ->
  let r' := perform_all ops (exec initializeResults r) in
  forall box, selectAllCheckbox r' = Some box ->
    (all_checked box = true <-> all_ticked r') /\
    (indeterminate box = true <-> some_ticked r' /\ some_unticked r').
Proof.
  intros Hr Hbox r' box Hb.
  assert (Hinv : selection_invariant r')
    by apply perform_all_invariant, fresh_page_invariant, Hr.
  assert (Hcons : box_consistent r')
    by (apply perform_all_box, fresh_page_box; assumption).
  specialize (Hcons box Hb). cbn zeta in Hcons.
  rewrite (selection_invariant_size r' Hinv), ticked_length in Hcons.
  subst box. cbn [all_checked indeterminate].
  unfold all_ticked, some_ticked, some_unticked.
  rewrite <- filter_length_all, <- filter_length_some, <- filter_length_less.
  rewrite !andb_true_iff, Nat.eqb_eq, !Nat.ltb_lt.
  split; [|reflexivity].
  split; intros [H1 H2].
  - split; [|exact H1]. intros E. rewrite E in H2. cbn in H2. lia.
  - split; [exact H2|]. destruct (checkboxes r'); [contradiction|cbn; lia].
Qed.

(** With the first of two files ticked the box is indeterminate. *)
Lemma select_all_box_state_witness :
  fresh_page example_results /\ box_clear example_results /\
  selectAllCheckbox (perform_all [OpCheckbox 0] (exec initializeResults example_results))
  = Some (mkSelectAllBox false true) /\
  (all_checked (mkSelectAllBox false true) = true <->
   all_ticked (perform_all [OpCheckbox 0] (exec initializeResults example_results))) /\
  (indeterminate (mkSelectAllBox false true) = true <->
   some_ticked (perform_all [OpCheckbox 0] (exec initializeResults example_results)) /\
   some_unticked (perform_all [OpCheckbox 0] (exec initializeResults example_results))).
Proof.
  assert (H : fresh_page example_results).
  { split; [reflexivity|]. split; [reflexivity|].
    apply NoDup_cons. split; [|apply NoDup_singleton].
    intros Hin%list_elem_of_singleton. discriminate Hin. }
  assert (Hbox : box_clear example_results) by (intros box [= <-]; reflexivity).
  split; [exact H|]. split; [exact Hbox|]. split; [reflexivity|].
  exact (select_all_box_state [OpCheckbox 0] example_results H Hbox
           (mkSelectAllBox false true) eq_refl).
Defined.

Lemma names_filter_uncheck (type : string) (l : list FileRow) :
  omap row_name (List.filter (fun row => String.eqb (data_type row) type) (map uncheck l))
  = omap row_name (List.filter (fun row => String.eqb (data_type row) type) l).
Proof.
  induction l as [|row l IH]; [reflexivity|]. cbn.
  replace (data_type (uncheck row)) with (data_type row)
    by (destruct row as [t [cb|]]; reflexivity).
  destruct (String.eqb (data_type row) type); cbn; rewrite ?uncheck_name, IH; reflexivity.
Qed.

Lemma selectByType_plain (type : string) (r : ResultsPage) :
  Main.cssStringPlain type = true ->
  rows (exec (selectByType type) r)
  = map (fun row => if String.eqb (data_type row) type then check row else row)
      (map uncheck (rows r)) /\
  selectedFiles (exec (selectByType type) r)
  = selectedFiles
      (select_rows (fun row => String.eqb (data_type row) type) (exec selectNone r)).
Proof.
  intros Hplain. unfold selectByType.
  rewrite exec_seq by apply total_selectNone. rewrite Hplain.
  rewrite exec_seq by apply total_modify.
  rewrite exec_seq by apply total_modify.
  rewrite exec_seq by apply total_modify.
  rewrite toast_count_rows, toast_count_selected.
  rewrite updateSelectAllCheckbox_rows, updateSelectAllCheckbox_selected.
  rewrite updateSelectedCount_rows, updateSelectedCount_selected.
  unfold exec at 1 3, modify. cbn [snd].
  rewrite select_rows_rows, selectNone_rows. split; reflexivity.
Qed.

Lemma total_selectByType (type : string) :
  Main.cssStringPlain type = true -> total (selectByType type).
Proof.
  intros Hplain. unfold selectByType. rewrite Hplain.
  apply total_seq; [apply total_selectNone|].
  apply total_seq; [apply total_modify|].
  apply total_seq; [apply total_modify|].
  apply total_seq; [apply total_modify|].
  intros s. reflexivity.
Qed.

(** X9: [selectByType] replaces the selection.  For a type that stands for
    itself in the selector (no quote, backslash or line break), whatever
    was ticked or selected before, the call does not throw, the ticked
    checkboxes are afterwards exactly those of the rows with that
    [data-type], in document order, and the set holds exactly their
    names. *)
Theorem selectByType_replaces_selection (type : string) (r : ResultsPage) :
  Main.cssStringPlain type = true ->
  let r' := exec (selectByType type) r in
  fst (selectByType type r) = Normal tt /\
  ticked r' = names_of_type type r /\
  (forall name, name ∈ selectedFiles r' <-> name ∈ names_of_type type r).
Proof.
  intros Hplain r'.
  destruct (selectByType_plain type r Hplain) as [Hrows Hsel]. fold r' in Hrows, Hsel.
  split; [apply total_selectByType, Hplain|].
  unfold names_of_type. rewrite omap_checkbox_names.
  split.
  - rewrite ticked_rows, Hrows, ticked_after_pick by apply ticked_unchecked_all.
    apply names_filter_uncheck.
  - intros name. rewrite Hsel, select_rows_selected, selectNone_selected, selectNone_rows.
    rewrite names_filter_uncheck, elem_of_nil. tauto.
Qed.

(** The waypoints file ticked, then the tracks asked for. *)
Lemma selectByType_replaces_selection_witness :
  Main.cssStringPlain "track" = true /\
  ticked (exec (selectByType "track") (perform (OpCheckbox 1) example_results))
  = ["tour_track.gpx"].
Proof.
  split; [reflexivity|].
  exact (proj1 (proj2 (selectByType_replaces_selection "track"
                         (perform (OpCheckbox 1) example_results) eq_refl))).
Defined.

Lemma downloadSelected_try_settles (today : string) (files : list string)
    (o : DownloadOutcome) (r : ResultsPage) :
  let m := try_catch (downloadSelected_try today files o)
             (fun message => showToast ("Download failed: " +:+ message) "error") in
  fst (m r) = Normal tt /\
  rows (exec m r) = rows r /\ selectedFiles (exec m r) = selectedFiles r /\
  requests (exec m r) = requests r /\ loadingOverlay (exec m r) = loadingOverlay r /\
  match o with
  | DownloadBlob (Normal _) =>
      downloads (exec m r) = downloads r ++ ["selected_gpx_files_" +:+ today +:+ ".zip"] /\
      toasts (exec m r) =
        toasts r ++ [Main.mkToast "success" (Main.getToastIcon "success")
                       ("Downloaded " +:+ nat_to_string (length files) +:+ " files")]
  | _ =>
      downloads (exec m r) = downloads r /\
      exists message,
        toasts (exec m r) =
          toasts r ++ [Main.mkToast "error" (Main.getToastIcon "error")
                         ("Download failed: " +:+ message)]
  end.
Proof.
  destruct o as [message|[error|message]|[blob|message]]; cbn zeta.
  - repeat split; eexists; reflexivity.
  - unfold downloadSelected_try, try_catch, exec. monad_unfold.
    destruct error as [| |b|n|s|l|fields]; cbn [get_prop];
      try (repeat split; eexists; reflexivity).
    destruct (js_to_string (js_or _ _)); repeat split; eexists; reflexivity.
  - repeat split; eexists; reflexivity.
  - repeat split; reflexivity.
  - repeat split; eexists; reflexivity.
Qed.

Lemma hideLoadingOverlay_hidden (r : ResultsPage) :
  overlay_hidden (exec hideLoadingOverlay r).
Proof.
  destruct r as [rw sel cnt btn box [[d m]|] dir ts rq dl]; intros ov H; cbn in H.
  - injection H as <-. reflexivity.
  - discriminate.
Qed.

Lemma downloadSelected_start_sends (today : string) (r : ResultsPage) :
  selectedFiles r <> [] ->
  exists r1,
    downloadSelected_start r = (Normal (Some (selectedFiles r)), r1) /\
    rows r1 = rows r /\ selectedFiles r1 = selectedFiles r /\
    requests r1 = requests r ++ [download_request r] /\
    downloads r1 = downloads r /\ toasts r1 = toasts r.
Proof.
  intros Hsel. unfold downloadSelected_start. monad_unfold.
  destruct r as [rw [|x sel] cnt btn box [[d [m|]]|] dir ts rq dl];
    cbn in Hsel; try congruence; eexists; (split; [reflexivity|]);
    repeat split; reflexivity.
Qed.

Lemma downloadSelected_settles (today : string) (o : DownloadOutcome) (r : ResultsPage) :
  selectedFiles r <> [] ->
  let r' := exec (downloadSelected today o) r in
  fst (downloadSelected today o r) = Normal tt /\
  requests r' = requests r ++ [download_request r] /\
  overlay_hidden r' /\
  rows r' = rows r /\ selectedFiles r' = selectedFiles r /\
  match o with
  | DownloadBlob (Normal _) =>
      downloads r' = downloads r ++ ["selected_gpx_files_" +:+ today +:+ ".zip"] /\
      toasts r' =
        toasts r ++ [Main.mkToast "success" (Main.getToastIcon "success")
                       ("Downloaded " +:+ nat_to_string (length (selectedFiles r))
                        +:+ " files")]
  | _ =>
      downloads r' = downloads r /\
      exists message,
        toasts r' =
          toasts r ++ [Main.mkToast "error" (Main.getToastIcon "error")
                         ("Download failed: " +:+ message)]
  end.
Proof.
  intros Hsel r'.
  destruct (downloadSelected_start_sends today r Hsel)
    as (r1 & Hstart & Hrows1 & Hsel1 & Hreq1 & Hdl1 & Hts1).
  pose proof (downloadSelected_try_settles today (selectedFiles r) o r1) as Htry.
  cbn zeta in Htry.
  set (m := try_catch _ _) in Htry.
  destruct Htry as (Hn & Hrows2 & Hsel2 & Hreq2 & Hov2 & Hout).
  assert (Hrun : downloadSelected today o r = hideLoadingOverlay (exec m r1)).
  { unfold downloadSelected. unfold mbind at 1, eff_bind at 1, bind at 1.
    rewrite Hstart. unfold mbind at 1, eff_bind at 1, bind at 1. fold m.
    unfold exec. destruct (m r1) as [[[]|msg] r2]; [reflexivity|discriminate Hn]. }
  assert (Hexec : r' = exec hideLoadingOverlay (exec m r1)).
  { unfold r', exec at 1. rewrite Hrun. reflexivity. }
  assert (Hframe : forall p, rows (exec hideLoadingOverlay p) = rows p /\
                             selectedFiles (exec hideLoadingOverlay p) = selectedFiles p /\
                             requests (exec hideLoadingOverlay p) = requests p /\
                             downloads (exec hideLoadingOverlay p) = downloads p /\
                             toasts (exec hideLoadingOverlay p) = toasts p).
  { intros [rw sel cnt btn box [[d msg]|] dir ts rq dl]; repeat split; reflexivity. }
  destruct (Hframe (exec m r1)) as (F1 & F2 & F3 & F4 & F5).
  rewrite Hexec, Hrun, F1, F2, F3, F4, F5.
  split; [reflexivity|].
  split; [congruence|].
  split; [apply hideLoadingOverlay_hidden|].
  split; [congruence|]. split; [congruence|].
  destruct o as [message|[error|message]|[blob|message]]; destruct Hout as [Hd Ht];
    (split; [congruence|]).
  - destruct Ht as [msg Ht]. exists msg. congruence.
  - destruct Ht as [msg Ht]. exists msg. congruence.
  - destruct Ht as [msg Ht]. exists msg. congruence.
  - congruence.
  - destruct Ht as [msg Ht]. exists msg. congruence.
Qed.

(** X10: [downloadSelected] with a selection.  It never throws; it sends
    one POST to [/download-selected] with the selected names in the order
    they were added and the output directory; at the end the overlay is
    hidden and the selection is as before.  A file is saved, under the
    name [selected_gpx_files_<date>.zip], exactly when the response is ok
    and [response.blob()] delivers its body; any other outcome (fetch
    rejected, a refusal with or without a readable body, an ok response
    whose body cannot be read) saves nothing and shows one error toast
    that starts with [Download failed: ]. *)
Theorem downloadSelected_outcome (today : string) (o : DownloadOutcome) (r : ResultsPage) :
  selectedFiles r <> [] ->
  let r' := exec (downloadSelected today o) r in
  fst (downloadSelected today o r) = Normal tt /\
  requests r' = requests r ++ [download_request r] /\
  overlay_hidden r' /\
  rows r' = rows r /\ selectedFiles r' = selectedFiles r /\
  match o with
  | DownloadBlob (Normal _) =>
      downloads r' = downloads r ++ ["selected_gpx_files_" +:+ today +:+ ".zip"] /\
      toasts r' =
        toasts r ++ [Main.mkToast "success" (Main.getToastIcon "success")
                       ("Downloaded " +:+ nat_to_string (length (selectedFiles r))
                        +:+ " files")]
  | _ =>
      downloads r' = downloads r /\
      exists message,
        toasts r' =
          toasts r ++ [Main.mkToast "error" (Main.getToastIcon "error")
                         ("Download failed: " +:+ message)]
  end.
Proof. intros Hsel. apply (downloadSelected_settles today o r Hsel). Qed.

(** Both files of the example page selected, and a response that is ok. *)
Lemma downloadSelected_outcome_witness :
  selectedFiles (perform OpSelectAll example_results) <> [] /\
  requests (exec (downloadSelected "2026-01-02" (DownloadBlob (Normal tt)))
              (perform OpSelectAll example_results))
  = [Main.mkRequest "/download-selected" "POST"
       (JObj {[ "files" := JArr [JStr "tour_track.gpx"; JStr "tour_waypoints.gpx"];
                "directory" := JStr "tour_20260102" ]})].
Proof.
  assert (H : selectedFiles (perform OpSelectAll example_results) <> []) by discriminate.
  split; [exact H|].
  exact (proj1 (proj2 (downloadSelected_outcome "2026-01-02" (DownloadBlob (Normal tt))
                         (perform OpSelectAll example_results) H))).
Defined.

Lemma agrees_nil (r : ResultsPage) :
  selection_agrees r -> ticked r = [] -> selectedFiles r = [].
Proof.
  intros Hagree Hticked. destruct (selectedFiles r) as [|name rest] eqn:E; [reflexivity|].
  assert (H : name ∈ ticked r) by (apply Hagree; rewrite E; left).
  rewrite Hticked in H. inversion H.
Qed.

(** X11: Download Selected asks for the ticked files.  On a results page
    rendered with nothing ticked, nothing selected and no file listed
    twice, after initialisation and any sequence of selection operations,
    [downloadSelected] sends nothing when no checkbox is ticked, and
    otherwise one request whose [files] are the names of the ticked
    checkboxes, each once (in the order they were selected), with the
    output directory. *)
Theorem download_requests_ticked (ops : list Operation) (r : ResultsPage)
    (today : string) (o : DownloadOutcome) :
  fresh_page r ->
  let r' := perform_all ops (exec initializeResults r) in
  (ticked r' = [] -> requests (exec (downloadSelected today o) r') = requests r') /\
  (ticked r' <> [] ->
     exists files,
       files ≡ₚ ticked r' /\
       requests (exec (downloadSelected today o) r') =
         requests r' ++
           [Main.mkRequest "/download-selected" "POST"
              (JObj {[ "files" := JArr (JStr <$> files);
                       "directory" := JStr (outputDirectory r') ]})]).
Proof.
  intros Hr r'.
  assert (Hinv : selection_invariant r')
    by apply perform_all_invariant, fresh_page_invariant, Hr.
  destruct Hinv as (Hnames & Hsel & Hagree).
  split.
  - intros Hticked. pose proof (agrees_nil r' Hagree Hticked) as Hempty.
    results_unfold. rewrite Hempty. reflexivity.
  - intros Hticked. exists (selectedFiles r'). split.
    + apply NoDup_Permutation; [exact Hsel| |exact Hagree].
      rewrite ticked_rows. apply ticked_NoDup. rewrite <- box_names_rows. exact Hnames.
    + assert (Hne : selectedFiles r' <> []).
      { intros Hempty. apply Hticked.
        destruct (ticked r') as [|name rest] eqn:E; [reflexivity|].
        assert (H : name ∈ selectedFiles r') by (apply Hagree; rewrite E; left).
        rewrite Hempty in H. inversion H. }
      apply (downloadSelected_settles today o r' Hne).
Qed.

(** Both files of the example page ticked one after the other. *)
Lemma download_requests_ticked_witness :
  fresh_page example_results /\
  exists files,
    files ≡ₚ ["tour_track.gpx"; "tour_waypoints.gpx"] /\
    requests
      (exec (downloadSelected "2026-01-02" (DownloadBlob (Normal tt)))
         (perform_all [OpCheckbox 1; OpCheckbox 0] (exec initializeResults example_results)))
    = [Main.mkRequest "/download-selected" "POST"
         (JObj {[ "files" := JArr (JStr <$> files);
                  "directory" := JStr "tour_20260102" ]})].
Proof.
  assert (H : fresh_page example_results).
  { split; [reflexivity|]. split; [reflexivity|].
    apply NoDup_cons. split; [|apply NoDup_singleton].
    intros Hin%list_elem_of_singleton. discriminate Hin. }
  split; [exact H|].
  apply (proj2 (download_requests_ticked [OpCheckbox 1; OpCheckbox 0] example_results
                  "2026-01-02" (DownloadBlob (Normal tt)) H)).
  discriminate.
Defined.

Lemma decodeUnit_encodeUnit (c : ascii) (rest : string) :
  decodeUnit (Uri.encodeUnit c +:+ rest) = Some (c, rest).
Proof. destruct c as [[|] [|] [|] [|] [|] [|] [|] [|]]; reflexivity. Qed.

Lemma encodeUnit_safe (c : ascii) :
  forallb uri_char (list_ascii_of_string (Uri.encodeUnit c)) = true.
Proof. destruct c as [[|] [|] [|] [|] [|] [|] [|] [|]]; reflexivity. Qed.

Lemma list_ascii_of_append (a b : string) :
  list_ascii_of_string (a +:+ b) = list_ascii_of_string a ++ list_ascii_of_string b.
Proof. induction a as [|c a IH]; [reflexivity|]. rewrite append_cons. cbn. rewrite IH. reflexivity. Qed.

Lemma encodeURIComponent_safe (s : string) : uri_safe (Uri.encodeURIComponent s).
Proof.
  unfold uri_safe. induction s as [|c s IH]; cbn [Uri.encodeURIComponent]; [constructor|].
  rewrite list_ascii_of_append. apply Forall_app. split; [|exact IH].
  apply Forall_forall. intros x Hx.
  pose proof (encodeUnit_safe c) as H. rewrite forallb_forall in H.
  apply H. apply list_elem_of_In, Hx.
Qed.

Lemma encodeURIComponent_inj (a b : string) :
  Uri.encodeURIComponent a = Uri.encodeURIComponent b -> a = b.
Proof.
  revert b. induction a as [|c a IH]; intros [|d b] H; cbn [Uri.encodeURIComponent] in H.
  - reflexivity.
  - apply (f_equal decodeUnit) in H. rewrite decodeUnit_encodeUnit in H. discriminate.
  - apply (f_equal decodeUnit) in H. rewrite decodeUnit_encodeUnit in H. discriminate.
  - apply (f_equal decodeUnit) in H. rewrite !decodeUnit_encodeUnit in H.
    injection H as -> H. f_equal. apply IH, H.
Qed.

Lemma append_inj_l (p a b : string) : p +:+ a = p +:+ b -> a = b.
Proof.
  induction p as [|c p IH]; [rewrite !append_nil_l; auto|].
  rewrite !append_cons. intros [= H]. apply IH, H.
Qed.

Lemma split_at_slash (d1 d2 f1 f2 : string) :
  uri_safe d1 -> uri_safe d2 ->
  d1 +:+ String "/" f1 = d2 +:+ String "/" f2 -> d1 = d2 /\ f1 = f2.
Proof.
  unfold uri_safe. revert d2.
  induction d1 as [|c d1 IH]; intros [|e d2] H1 H2 H; cbn in H1, H2.
  - rewrite (append_nil_l (String "/" f1)), (append_nil_l (String "/" f2)) in H.
    injection H as ->. auto.
  - rewrite append_nil_l, append_cons in H. injection H as <- _.
    apply Forall_cons in H2 as [H2 _]. discriminate H2.
  - rewrite append_nil_l, append_cons in H. injection H as -> _.
    apply Forall_cons in H1 as [H1 _]. discriminate H1.
  - rewrite !append_cons in H. injection H as -> H.
    apply Forall_cons in H1 as [_ H1]. apply Forall_cons in H2 as [_ H2].
    destruct (IH d2 H1 H2 H) as [-> ->]. auto.
Qed.

Lemma uri_safe_no_slash (s : string) : uri_safe s -> includes s "/" = false.
Proof.
  unfold uri_safe. induction s as [|c s IH]; cbn [list_ascii_of_string]; intros H.
  - reflexivity.
  - apply Forall_cons in H as [Hc Hs]. cbn [includes startsWith].
    rewrite (IH Hs), orb_false_r.
    destruct (Ascii.eqb c "/") eqn:E; [|reflexivity].
    apply Ascii.eqb_eq in E. subst c. discriminate Hc.
Qed.

(** X12: the download URL of a file is the origin, [/download/], the
    encoded output directory, a slash and the encoded file name.  Both
    encoded parts consist of unreserved characters and percent escapes
    only, so neither holds a slash; and two URLs of the same origin are
    equal only for the same directory and the same file name. *)
Theorem download_url_names_one_file (origin : string) (r1 r2 : Results.ResultsPage)
    (file1 file2 : string) :
  (exists directory file,
     getFileDownloadUrl origin file1 r1
     = origin +:+ "/download/" +:+ directory +:+ "/" +:+ file /\
     uri_safe directory /\ uri_safe file /\
     includes directory "/" = false /\ includes file "/" = false) /\
  (getFileDownloadUrl origin file1 r1 = getFileDownloadUrl origin file2 r2 <->
   Results.outputDirectory r1 = Results.outputDirectory r2 /\ file1 = file2).
Proof.
  split.
  - exists (Uri.encodeURIComponent (Results.outputDirectory r1)),
           (Uri.encodeURIComponent file1).
    split; [reflexivity|].
    split; [apply encodeURIComponent_safe|]. split; [apply encodeURIComponent_safe|].
    split; apply uri_safe_no_slash, encodeURIComponent_safe.
  - unfold getFileDownloadUrl. split.
    + intros H. apply append_inj_l, append_inj_l in H.
      apply split_at_slash in H as [H1 H2]; try apply encodeURIComponent_safe.
      split; apply encodeURIComponent_inj; assumption.
    + intros [-> ->]. reflexivity.
Qed.

End ResultsPage.

(** ** URL expansion: the order of the methods, and the validity check *)

Lemma expand_with_first (methods : list URLExpander.Method) (shortUrl : string) :
  URLExpander.expand_with methods shortUrl =
  match List.find (fun method => acceptable shortUrl (method shortUrl)) methods with
  | Some method => method shortUrl
  | None => Throw "All expansion methods failed"
  end.
Proof.
  induction methods as [|method rest IH]; cbn [URLExpander.expand_with List.find];
    [reflexivity|].
  pose proof (attempt_acceptable method shortUrl) as H.
  destruct (URLExpander.attempt method shortUrl) as [[r|]|m].
  - destruct H as [H1 H2]. rewrite H2. symmetry. exact H1.
  - rewrite H. exact IH.
  - rewrite H. exact IH.
Qed.

(** X13: [expandUrl] tries the four methods in their order (fetch, iframe,
    proxy, expansion service) and returns what the first one yields that
    is usable: a value that counts as true, differs from the input and
    passes [isValidExpandedUrl].  Methods that fail or yield something
    else are skipped; with none left it throws. *)
Theorem expandUrl_first_acceptable (net : URLExpander.Network) (shortUrl : string) :
  URLExpander.expandUrl net shortUrl =
  match List.find (fun method => acceptable shortUrl (method shortUrl))
          (URLExpander.methods net) with
  | Some method => method shortUrl
  | None => Throw "All expansion methods failed"
  end.
Proof. apply expand_with_first. Qed.

(** X14: [isValidExpandedUrl] on a string, without regular expressions.
    It holds exactly when the URL contains [maps.google.], or
    [www.google.] followed on the same line by at least one character and
    then [/maps], or [maps.app.goo.gl]; and besides contains [@], [q=] or
    [dir/]. *)
Theorem isValidExpandedUrl_plain (url : string) :
  URLExpander.isValidExpandedUrl (JStr url) = Normal true <->
  (includes url "maps.google." = true \/
   (exists pre mid post,
      url = pre +:+ "www.google." +:+ mid +:+ "/maps" +:+ post /\ one_line mid) \/
   includes url "maps.app.goo.gl" = true) /\
  (includes url "@" = true \/ includes url "q=" = true \/ includes url "dir/" = true).
Proof.
  rewrite isValidExpandedUrl_string, <- host_patterns_spec.
  unfold has_a_location_marker.
  split.
  - intros [= H]. apply andb_true_iff in H as [H1 H2]. split; [exact H1|].
    apply orb_true_iff in H2 as [H2|H2]; [|auto].
    apply orb_true_iff in H2 as [H2|H2]; auto.
  - intros [-> H]. f_equal. cbn [andb]. rewrite !orb_true_iff. tauto.
Qed.

Lemma numeric_no_host (s : string) : numeric s -> matches_a_host_pattern s = false.
Proof.
  unfold numeric, matches_a_host_pattern, URLExpander.googleMapsPatterns.
  cbn [existsb]. rewrite orb_false_r.
  induction s as [|c s IH]; cbn [list_ascii_of_string]; intros H; [reflexivity|].
  apply Forall_cons in H as [Hc Hs]. specialize (IH Hs).
  apply orb_false_iff in IH as [IH1 IH2]. apply orb_false_iff in IH2 as [IH2 IH3].
  cbn [URLExpander.test]. rewrite IH1, IH2, IH3, !orb_false_r.
  assert (Hm : Ascii.eqb c "m" = false /\ Ascii.eqb c "w" = false).
  { split; apply Ascii.eqb_neq; intros ->; discriminate Hc. }
  destruct Hm as [Hm Hw].
  cbn [URLExpander.lit]. rewrite Hm, Hw. reflexivity.
Qed.

(** X15: [isValidExpandedUrl] throws exactly when the conversion of the
    value to a string throws, inside [pattern.test], and then with that
    error: an object with a [toString] entry, or an array that holds one.
    The call of [includes] is never the cause: a value without that method
    (a number, a boolean, [null], [undefined], any other object) prints as
    a text that no host pattern matches, so the conjunction stops before
    [includes] is called. *)
Theorem isValidExpandedUrl_throws_as_conversion (v : JsVal) :
  (forall printed, v = JNum printed -> numeric printed) ->
  match js_to_string v with
  | Throw message => URLExpander.isValidExpandedUrl v = Throw message
  | Normal text =>
      exists verdict,
        URLExpander.isValidExpandedUrl v = Normal verdict /\
        match v with
        | JStr _ | JArr _ => True
        | _ => verdict = false
        end
  end.
Proof.
  intros Hnum. unfold URLExpander.isValidExpandedUrl.
  destruct (js_to_string v) as [text|message] eqn:Hv; [|reflexivity].
  fold (matches_a_host_pattern text).
  destruct v as [| |[|]|printed|s|elems|fields]; cbn [js_to_string] in Hv;
    try (injection Hv as <-; eexists; split; reflexivity).
  - injection Hv as <-. rewrite numeric_no_host by (apply Hnum; reflexivity).
    eexists; split; reflexivity.
  - injection Hv as <-. cbn [URLExpander.includes_method].
    destruct (matches_a_host_pattern s); [|eexists; split; [reflexivity|exact I]].
    destruct (includes s "@"), (includes s "q="), (includes s "dir/");
      eexists; (split; [reflexivity|exact I]).
  - cbn [URLExpander.includes_method].
    destruct (matches_a_host_pattern text); [|eexists; split; [reflexivity|exact I]].
    destruct (existsb _ elems); [eexists; split; [reflexivity|exact I]|].
    destruct (existsb _ elems); [eexists; split; [reflexivity|exact I]|].
    destruct (existsb _ elems); eexists; (split; [reflexivity|exact I]).
  - destruct (fields !! "toString"); [discriminate|]. injection Hv as <-.
    eexists; split; reflexivity.
Qed.

(** An answer that is an object with a [toString] entry. *)
Lemma isValidExpandedUrl_throws_as_conversion_witness :
  URLExpander.isValidExpandedUrl (JObj {[ "toString" := JNull ]})
  = Throw "Cannot convert object to primitive value".
Proof.
  assert (H : forall printed, JObj {[ "toString" := JNull ]} = JNum printed -> numeric printed)
    by (intros printed H; discriminate H).
  pose proof (isValidExpandedUrl_throws_as_conversion (JObj {[ "toString" := JNull ]}) H) as W.
  vm_compute in W. vm_compute. exact W.
Defined.

(** ** URL expansion: redirects in HTML *)

Lemma append_assoc (a b c : string) : (a +:+ b) +:+ c = a +:+ (b +:+ c).
Proof. induction a as [|x a IH]; [reflexivity|]. rewrite !append_cons, IH. reflexivity. Qed.

Lemma append_nil_r (a : string) : a +:+ "" = a.
Proof. induction a as [|x a IH]; [reflexivity|]. rewrite append_cons, IH. reflexivity. Qed.

Section Redirects.
Import URLExpander.

Lemma before_a_quote_later (pre s url : string) :
  before_a_quote s url -> before_a_quote (pre +:+ s) url.
Proof.
  intros (p & q & post & -> & Hq). exists (pre +:+ p), q, post.
  split; [|exact Hq]. rewrite append_assoc. reflexivity.
Qed.

Lemma delivers_url_later (m k : Capture) :
  (forall s found, m s = Some found -> exists pre rest, s = pre +:+ rest /\ k rest = Some found) ->
  delivers_url k -> delivers_url m.
Proof.
  intros Hm Hk s found H. destruct (Hm s found H) as (pre & rest & -> & Hrest).
  destruct (Hk rest found Hrest) as (H1 & H2 & H3).
  split; [exact H1|]. split; [exact H2|]. apply before_a_quote_later, H3.
Qed.

Lemma literal_spec (text : string) (k : Capture) (s found : string) :
  literal text k s = Some found -> exists rest, s = text +:+ rest /\ k rest = Some found.
Proof.
  revert s. induction text as [|c text IH]; intros s H; cbn [literal] in H.
  - exists s. auto.
  - destruct s as [|d s]; [discriminate|].
    destruct (Ascii.eqb d c) eqn:E; [|discriminate].
    apply Ascii.eqb_eq in E. subst d.
    destruct (IH s H) as (rest & -> & Hk). exists rest. auto.
Qed.

Lemma literal_here (text : string) (k : Capture) (rest : string) :
  literal text k (text +:+ rest) = k rest.
Proof.
  induction text as [|c text IH]; [reflexivity|].
  rewrite append_cons. cbn [literal]. rewrite Ascii.eqb_refl. exact IH.
Qed.

Lemma literal_i_spec (text : string) (k : Capture) (s found : string) :
  literal_i text k s = Some found -> exists pre rest, s = pre +:+ rest /\ k rest = Some found.
Proof.
  revert s. induction text as [|c text IH]; intros s H; cbn [literal_i] in H.
  - exists "", s. auto.
  - destruct s as [|d s]; [discriminate|].
    destruct (Ascii.eqb (lowerChar d) (lowerChar c)); [|discriminate].
    destruct (IH s H) as (pre & rest & -> & Hk). exists (String d pre), rest. auto.
Qed.

Lemma one_spec (class : ascii -> bool) (k : Capture) (s found : string) :
  one class k s = Some found ->
  exists c rest, s = String c rest /\ class c = true /\ k rest = Some found.
Proof.
  unfold one. destruct s as [|c s]; [discriminate|].
  destruct (class c) eqn:E; [|discriminate]. intros H. exists c, s. auto.
Qed.

Lemma star_spec (class : ascii -> bool) (k : Capture) (s found : string) :
  star class k s = Some found -> exists pre rest, s = pre +:+ rest /\ k rest = Some found.
Proof.
  induction s as [|c s IH]; cbn [star]; intros H.
  - exists "", "". auto.
  - destruct (class c).
    + destruct (star class k s) as [f|] eqn:E.
      * injection H as ->. destruct (IH eq_refl) as (pre & rest & -> & Hk).
        exists (String c pre), rest. auto.
      * exists "", (String c s). auto.
    + exists "", (String c s). auto.
Qed.

Lemma group_more_spec (class : ascii -> bool) (k : string -> Capture)
    (held s found : string) :
  group_more class k held s = Some found ->
  exists more rest,
    s = more +:+ rest /\ Forall (fun c => class c = true) (list_ascii_of_string more) /\
    k (held +:+ more) rest = Some found.
Proof.
  revert held. induction s as [|c s IH]; intros held; cbn [group_more]; intros H.
  - exists "", "". rewrite (append_nil_r held).
    split; [reflexivity|]. split; [apply List.Forall_nil|exact H].
  - destruct (class c) eqn:E.
    + destruct (group_more class k (held +:+ String c "") s) as [f|] eqn:Em.
      * injection H as ->. destruct (IH _ Em) as (more & rest & -> & Hmore & Hk).
        exists (String c more), rest. split; [reflexivity|].
        split; [constructor; assumption|].
        rewrite append_assoc in Hk. exact Hk.
      * exists "", (String c s). rewrite (append_nil_r held).
        split; [reflexivity|]. split; [apply List.Forall_nil|exact H].
    + exists "", (String c s). rewrite (append_nil_r held).
      split; [reflexivity|]. split; [apply List.Forall_nil|exact H].
Qed.

Lemma group_more_run (k : string -> Capture) (held more rest found : string) (q : ascii) :
  quote_free more -> isQuote q = true ->
  k (held +:+ more) (String q rest) = Some found ->
  group_more notQuote k held (more +:+ String q rest) = Some found.
Proof.
  unfold quote_free. revert held.
  induction more as [|c more IH]; intros held Hfree Hq Hk.
  - rewrite append_nil_l. rewrite append_nil_r in Hk. cbn [group_more].
    unfold notQuote. rewrite Hq. exact Hk.
  - cbn [list_ascii_of_string] in Hfree. apply Forall_cons in Hfree as [Hc Hmore].
    rewrite append_cons. cbn [group_more]. unfold notQuote at 1. rewrite Hc. cbn [negb].
    rewrite (IH (held +:+ String c "") Hmore Hq); [reflexivity|].
    rewrite append_assoc. exact Hk.
Qed.

Lemma delivers_url_group (k : string -> Capture) :
  returns_group k -> delivers_url (group_plus notQuote (fun url => one isQuote (k url))).
Proof.
  intros Hk s found H. unfold group_plus in H.
  destruct s as [|c s]; [discriminate|].
  destruct (notQuote c) eqn:Ec; [|discriminate].
  apply group_more_spec in H as (more & rest & -> & Hmore & H).
  apply one_spec in H as (q & post & -> & Hq & H).
  apply Hk in H. subst found.
  split; [discriminate|]. split.
  - unfold quote_free. rewrite append_cons. cbn [list_ascii_of_string].
    constructor.
    + unfold notQuote in Ec. apply negb_true_iff, Ec.
    + rewrite append_nil_l. eapply Forall_impl; [exact Hmore|].
      intros x Hx. unfold notQuote in Hx. apply negb_true_iff, Hx.
  - exists "", q, post. split; [|exact Hq].
    rewrite append_nil_l. reflexivity.
Qed.

Lemma delivers_url_literal (text : string) (k : Capture) :
  delivers_url k -> delivers_url (literal text k).
Proof.
  apply delivers_url_later. intros s found H.
  apply literal_spec in H as (rest & -> & H). eauto.
Qed.

Lemma delivers_url_literal_i (text : string) (k : Capture) :
  delivers_url k -> delivers_url (literal_i text k).
Proof. apply delivers_url_later. apply literal_i_spec. Qed.

Lemma delivers_url_one (class : ascii -> bool) (k : Capture) :
  delivers_url k -> delivers_url (one class k).
Proof.
  apply delivers_url_later. intros s found H.
  apply one_spec in H as (c & rest & -> & _ & H). exists (String c ""), rest. auto.
Qed.

Lemma delivers_url_star (class : ascii -> bool) (k : Capture) :
  delivers_url k -> delivers_url (star class k).
Proof. apply delivers_url_later. apply star_spec. Qed.

Lemma returns_group_matched : returns_group matched.
Proof. intros group s found [= <-]. reflexivity. Qed.

Lemma returns_group_literal (text : string) :
  returns_group (fun url => literal text (matched url)).
Proof.
  intros group s found H. apply literal_spec in H as (rest & _ & [= <-]). reflexivity.
Qed.

Lemma delivers_url_quoted (k : string -> Capture) :
  returns_group k -> delivers_url (quoted k).
Proof. intros Hk. apply delivers_url_one, delivers_url_group, Hk. Qed.

Lemma delivers_url_assignment (k : Capture) :
  delivers_url k -> delivers_url (assignment k).
Proof.
  intros Hk. apply delivers_url_star, delivers_url_literal, delivers_url_star, Hk.
Qed.

Lemma patterns_deliver_url :
  Forall delivers_url (jsRedirectPatterns ++ [metaPattern; canonicalPattern]).
Proof.
  assert (Hassign : forall text,
            delivers_url (literal text (assignment (quoted matched)))).
  { intros text.
    apply delivers_url_literal, delivers_url_assignment, delivers_url_quoted,
      returns_group_matched. }
  cbn [jsRedirectPatterns app].
  apply List.Forall_cons;
    [apply delivers_url_literal, delivers_url_quoted, returns_group_literal|].
  do 3 (apply List.Forall_cons; [apply Hassign|]).
  apply List.Forall_cons.
  { unfold metaPattern. cbn zeta.
    repeat first [apply delivers_url_literal_i | apply delivers_url_star
                 | apply delivers_url_one].
    apply delivers_url_group, returns_group_matched. }
  apply List.Forall_cons; [|apply List.Forall_nil].
  unfold canonicalPattern.
  repeat first [apply delivers_url_literal_i | apply delivers_url_star
               | apply delivers_url_one].
  apply delivers_url_group, returns_group_matched.
Qed.

Lemma search_spec (pattern : Capture) (s found : string) :
  search pattern s = Some found ->
  exists pre rest, s = pre +:+ rest /\ pattern rest = Some found.
Proof.
  induction s as [|c s IH]; cbn [search]; intros H.
  - destruct (pattern "") as [f|] eqn:E; [|discriminate]. injection H as ->.
    exists "", "". auto.
  - destruct (pattern (String c s)) as [f|] eqn:E.
    + injection H as ->. exists "", (String c s). auto.
    + destruct (IH H) as (pre & rest & -> & Hp). exists (String c pre), rest. auto.
Qed.

Lemma delivers_url_search (pattern : Capture) :
  delivers_url pattern -> delivers_url (search pattern).
Proof. apply delivers_url_later. apply search_spec. Qed.

Lemma first_match_delivers (patterns : list Capture) (html found : string) :
  Forall delivers_url patterns -> first_match patterns html = Some found ->
  found <> "" /\ quote_free found /\ before_a_quote html found.
Proof.
  induction 1 as [|pattern rest Hp Hrest IH]; cbn [first_match]; [discriminate|].
  destruct (search pattern html) as [f|] eqn:E; [|exact IH].
  destruct (isEmpty f) eqn:Ef; [exact IH|].
  intros [= ->]. apply (delivers_url_search pattern Hp html found E).
Qed.

(** X16: what [extractRedirectFromHtml] returns for an HTML text is never
    empty, holds neither a double quote nor an apostrophe, and stands in
    the text right before a quote; and when it returns nothing it throws
    [No redirect found in HTML]. *)
Theorem extractRedirectFromHtml_delivers (html : string) :
  match extractRedirectFromHtml (JStr html) with
  | Normal url => url <> "" /\ quote_free url /\ before_a_quote html url
  | Throw message => message = "No redirect found in HTML"
  end.
Proof.
  unfold extractRedirectFromHtml.
  destruct (first_match _ html) as [url|] eqn:E; [|reflexivity].
  apply (first_match_delivers _ html url patterns_deliver_url E).
Qed.

Lemma search_finds (pattern : Capture) (pre rest found : string) :
  pattern rest = Some found ->
  exists found', search pattern (pre +:+ rest) = Some found' /\ (pre = "" -> found' = found).
Proof.
  intros H. induction pre as [|c pre IH].
  - rewrite append_nil_l. exists found. split; [|reflexivity].
    destruct rest; cbn [search]; rewrite H; reflexivity.
  - rewrite append_cons. cbn [search].
    destruct (pattern (String c (pre +:+ rest))) as [f|].
    + exists f. split; [reflexivity|discriminate].
    + destruct IH as (f & Hf & _). exists f. split; [exact Hf|discriminate].
Qed.

Lemma replace_pattern_here (url rest : string) (q1 q2 : ascii) :
  url <> "" -> quote_free url -> isQuote q1 = true -> isQuote q2 = true ->
  literal "window.location.replace(" (quoted (fun url => literal ")" (matched url)))
    ("window.location.replace(" +:+ String q1 (url +:+ String q2 (")" +:+ rest)))
  = Some url.
Proof.
  intros Hne Hfree H1 H2. rewrite literal_here.
  unfold quoted, one at 1. rewrite H1.
  destruct url as [|c url]; [contradiction|].
  unfold quote_free in Hfree. cbn [list_ascii_of_string] in Hfree.
  apply Forall_cons in Hfree as [Hc Hfree].
  rewrite append_cons. unfold group_plus, notQuote at 1. rewrite Hc. cbn [negb].
  apply group_more_run; [exact Hfree|exact H2|].
  unfold one. rewrite H2, literal_here. reflexivity.
Qed.

(** X17: an HTML text with a [window.location.replace(...)] call on a
    quoted, non-empty URL without quotes always yields a URL; when the
    text starts with the call, it is that URL. *)
Theorem extractRedirectFromHtml_finds_replace (pre url rest : string) (q1 q2 : ascii) :
  url <> "" -> quote_free url -> isQuote q1 = true -> isQuote q2 = true ->
  exists found,
    extractRedirectFromHtml
      (JStr (pre +:+ "window.location.replace(" +:+ String q1 (url +:+ String q2 (")" +:+ rest))))
    = Normal found /\
    (pre = "" -> found = url).
Proof.
  intros Hne Hfree H1 H2.
  destruct (search_finds _ pre _ url (replace_pattern_here url rest q1 q2 Hne Hfree H1 H2))
    as (found & Hfound & Hexact).
  exists found. split; [|exact Hexact].
  unfold extractRedirectFromHtml. cbn [jsRedirectPatterns app first_match].
  rewrite Hfound.
  assert (Hd : found <> "").
  { eapply delivers_url_search; [|exact Hfound].
    apply delivers_url_literal, delivers_url_quoted, returns_group_literal. }
  destruct found; [contradiction|reflexivity].
Qed.

(** A script that starts with the call. *)
Lemma extractRedirectFromHtml_finds_replace_witness :
  "https://www.google.com/maps/@1,2,3z" <> "" /\
  quote_free "https://www.google.com/maps/@1,2,3z" /\
  isQuote "'" = true /\
  exists found,
    extractRedirectFromHtml
      (JStr ("" +:+ "window.location.replace("
             +:+ String "'" ("https://www.google.com/maps/@1,2,3z"
                             +:+ String "'" (")" +:+ ";</script>"))))
    = Normal found /\
    ("" = "" -> found = "https://www.google.com/maps/@1,2,3z").
Proof.
  assert (H : quote_free "https://www.google.com/maps/@1,2,3z")
    by (unfold quote_free; cbn; repeat constructor).
  split; [discriminate|]. split; [exact H|]. split; [reflexivity|].
  apply (extractRedirectFromHtml_finds_replace ""
           "https://www.google.com/maps/@1,2,3z" ";</script>" "'" "'");
    [discriminate | exact H | reflexivity | reflexivity].
Defined.

End Redirects.

(** ** URL expansion: the proxy and the expansion service *)

Section Services.
Import URLExpander.





(** X19: [expandViaCorsSite] resolves only to the [url] of a JSON answer
    that came with an ok response and a [success] that counts as true,
    and only when that [url] counts as true itself; it need not be a
    string.  Every failure on the way (rejected fetch, response not ok,
    body that is not JSON or is [null], no success, no url) ends in the
    one error [CORS-enabled services failed]. *)
Theorem expandViaCorsSite_result (fetch : Methods.Fetch) (shortUrl : string) :
  match Methods.expandViaCorsSite fetch shortUrl with
  | Normal found =>
      truthy found = true /\
      exists response data success,
        fetch ("https://unshorten.me/s/" +:+ Uri.encodeURIComponent shortUrl)
        = Normal response /\
        Methods.ok response = true /\
        Methods.json response = Normal data /\
        get_prop data "success" = Normal success /\ truthy success = true /\
        get_prop data "url" = Normal found
  | Throw message => message = "CORS-enabled services failed"
  end.
Proof.
  unfold Methods.expandViaCorsSite, Methods.tryCorsSite.
  destruct (fetch ("https://unshorten.me/s/" +:+ Uri.encodeURIComponent shortUrl))
    as [response|m]; [|reflexivity].
  destruct (Methods.ok response) eqn:Hok; [|reflexivity].
  destruct (Methods.json response) as [data|m] eqn:Hjson; [|reflexivity].
  destruct (get_prop data "success") as [success|m] eqn:Hs; [|reflexivity].
  destruct (truthy success) eqn:Hts; [|reflexivity].
  destruct (get_prop data "url") as [found|m] eqn:Hu; [|reflexivity].
  destruct (truthy found) eqn:Htf; [|reflexivity].
  split; [exact Htf|]. exists response, data, success. auto 10.
Qed.

End Services.

(** ** The converter *)

Section ConverterPage.
Import Converter.

Lemma replaceAll_other (c : ascii) (replacement : string) (d : ascii) (text : string) :
  Ascii.eqb d c = false ->
  replaceAll c replacement (String d text) = String d (replaceAll c replacement text).
Proof. intros H. cbn [replaceAll]. rewrite H. reflexivity. Qed.

Lemma replaceAll_append (c : ascii) (replacement a b : string) :
  replaceAll c replacement (a +:+ b)
  = replaceAll c replacement a +:+ replaceAll c replacement b.
Proof.
  induction a as [|d a IH]; [reflexivity|].
  rewrite append_cons. cbn [replaceAll]. rewrite IH.
  destruct (Ascii.eqb d c).
  - symmetry. apply append_assoc.
  - reflexivity.
Qed.

(** The five replacements together are one pass over the text: an
    ampersand that a later replacement writes is not escaped again. *)
Lemma escapeXml_escaped (text : string) : escapeXml text = escaped text.
Proof.
  unfold escapeXml. induction text as [|c text IH]; [reflexivity|].
  cbn [escaped]. rewrite <- IH. clear IH.
  cbn [replaceAll]. rewrite !replaceAll_append. f_equal.
  unfold xml_entity.
  destruct (Ascii.eqb c "&") eqn:E1; [reflexivity|].
  destruct (Ascii.eqb c "<") eqn:E2; [apply Ascii.eqb_eq in E2; subst c; reflexivity|].
  destruct (Ascii.eqb c ">") eqn:E3; [apply Ascii.eqb_eq in E3; subst c; reflexivity|].
  destruct (Ascii.eqb c (ascii_of_N 34)) eqn:E4;
    [apply Ascii.eqb_eq in E4; subst c; reflexivity|].
  destruct (Ascii.eqb c "'") eqn:E5; [apply Ascii.eqb_eq in E5; subst c; reflexivity|].
  rewrite !replaceAll_other by assumption. reflexivity.
Qed.

Lemma xml_entity_markup_free (c : ascii) : markup_free (xml_entity c).
Proof.
  unfold markup_free, xml_entity.
  destruct (Ascii.eqb c "&"); [repeat constructor; discriminate|].
  destruct (Ascii.eqb c "<") eqn:E2; [repeat constructor; discriminate|].
  destruct (Ascii.eqb c ">") eqn:E3; [repeat constructor; discriminate|].
  destruct (Ascii.eqb c (ascii_of_N 34)) eqn:E4; [repeat constructor; discriminate|].
  destruct (Ascii.eqb c "'") eqn:E5; [repeat constructor; discriminate|].
  apply Ascii.eqb_neq in E2, E3, E4, E5. repeat constructor; assumption.
Qed.

Lemma markup_free_append (a b : string) :
  markup_free a -> markup_free b -> markup_free (a +:+ b).
Proof.
  unfold markup_free. induction a as [|c a IH]; [rewrite append_nil_l; auto|].
  rewrite append_cons. cbn [list_ascii_of_string]. intros Ha Hb.
  apply Forall_cons in Ha as [Hc Ha]. constructor; [exact Hc|apply IH; assumption].
Qed.

Lemma escaped_markup_free (text : string) : markup_free (escaped text).
Proof.
  induction text as [|c text IH]; [constructor|].
  cbn [escaped]. apply markup_free_append; [apply xml_entity_markup_free|exact IH].
Qed.

Lemma escaped_plain (text : string) :
  markup_free text -> includes text "&" = false -> escaped text = text.
Proof.
  unfold markup_free. induction text as [|c text IH]; [reflexivity|].
  cbn [list_ascii_of_string includes startsWith escaped]. intros H Hamp.
  apply Forall_cons in H as [(H1 & H2 & H3 & H4) H].
  apply orb_false_iff in Hamp as [Hc Hamp]. rewrite andb_true_r in Hc.
  rewrite (IH H Hamp). unfold xml_entity. rewrite Hc.
  apply Ascii.eqb_neq in H1, H2, H3, H4. rewrite H1, H2, H3, H4. reflexivity.
Qed.

(** X20: [escapeXml] is one pass over the text that writes the entity of
    each of the five special characters (an ampersand written by a later
    replacement is not escaped again); its result holds none of [<], [>],
    the double quote and the apostrophe; and a text without special
    characters is returned as it is. *)
Theorem escapeXml_escapes (text : string) :
  escapeXml text = escaped text /\
  markup_free (escapeXml text) /\
  (markup_free text /\ includes text "&" = false -> escapeXml text = text).
Proof.
  rewrite escapeXml_escaped.
  split; [reflexivity|]. split; [apply escaped_markup_free|].
  intros [H1 H2]. apply escaped_plain; assumption.
Qed.

Lemma lit_accept_startsWith (literal s : string) :
  URLExpander.lit literal URLExpander.accept s = startsWith s literal.
Proof.
  revert s. induction literal as [|c l IH]; intros s; [reflexivity|].
  destruct s as [|d s]; [reflexivity|]. cbn. rewrite IH. reflexivity.
Qed.

Lemma test_literal_includes (literal s : string) :
  URLExpander.test (URLExpander.lit literal URLExpander.accept) s = includes s literal.
Proof.
  induction s as [|d s IH]; cbn [URLExpander.test includes].
  - rewrite lit_accept_startsWith. reflexivity.
  - rewrite lit_accept_startsWith, IH. reflexivity.
Qed.

(** X21: [isShortUrl] holds exactly for the URLs that contain one of
    [maps.app.goo.gl], [goo.gl/maps], [bit.ly], [tinyurl.com] and [t.co],
    anywhere in the text. *)
Theorem isShortUrl_hosts (url : string) :
  isShortUrl url =
  includes url "maps.app.goo.gl" || includes url "goo.gl/maps" || includes url "bit.ly"
  || includes url "tinyurl.com" || includes url "t.co".
Proof.
  unfold isShortUrl, shortUrlPatterns. cbn [existsb].
  rewrite !test_literal_includes, orb_false_r, !orb_assoc. reflexivity.
Qed.

Lemma isAlnum_lower (c : ascii) :
  file_name_char (lowerChar (if isAlnum c then c else "_"%char)) = true.
Proof. destruct c as [[|] [|] [|] [|] [|] [|] [|] [|]]; reflexivity. Qed.

Lemma safe_name_chars (s : string) :
  Forall (fun c => file_name_char c = true)
    (list_ascii_of_string (toLowerCase (replaceNonAlnum s))).
Proof.
  induction s as [|c s IH]; cbn; constructor; [apply isAlnum_lower|exact IH].
Qed.

Lemma safe_name_length (s : string) :
  String.length (toLowerCase (replaceNonAlnum s)) = String.length s.
Proof. induction s as [|c s IH]; cbn; congruence. Qed.

Lemma toLowerCase_append (a b : string) :
  toLowerCase (a +:+ b) = toLowerCase a +:+ toLowerCase b.
Proof.
  induction a as [|c a IH]; [reflexivity|].
  rewrite append_cons. cbn [toLowerCase]. rewrite IH. reflexivity.
Qed.

(** X22: [downloadGPX] on a page with its elements.  Without parsed
    points, or with a blank preview, nothing is saved and an error status
    is shown; otherwise the preview text is saved, as [application/gpx+xml],
    under a name made of the trimmed route name ([route] when that is
    empty) with every character that is not an ASCII letter or digit
    replaced by an underscore, in lower case, followed by [.gpx].  That
    name has a non-empty stem of lower-case letters, digits and
    underscores, and passes the extension check of the extractor's upload
    form. *)
Theorem downloadGPX_saves {Point : Type} (points : list Point) (value gpxContent : string)
    (status : option Status) (saved : list Download) :
  let p := mkConverterPage points (Some value) (Some gpxContent) (Some status) saved in
  let p' := exec downloadGPX p in
  (match points with
   | [] => downloads p' = saved /\ statusMessage p' = Some (Some (error_status NoGpxData))
   | _ :: _ =>
       if isEmpty (trim gpxContent) then
         downloads p' = saved /\
         statusMessage p' = Some (Some (error_status EmptyGpxContent))
       else
         downloads p' =
           saved ++ [mkDownload (gpx_file_name value) gpxContent "application/gpx+xml"] /\
         statusMessage p' =
           Some (Some (mkStatus (Downloaded (gpx_file_name value)) "status-message success"))
   end) /\
  (exists stem,
     gpx_file_name value = stem +:+ ".gpx" /\
     Forall (fun c => file_name_char c = true) (list_ascii_of_string stem) /\
     stem <> "") /\
  (forall size, has_gpx_extension (Main.mkFile (gpx_file_name value) size) = true).
Proof.
  intros p p'. split; [|split].
  - subst p' p. destruct points as [|point points]; [split; reflexivity|].
    unfold downloadGPX, exec. monad_unfold. cbn.
    destruct gpxContent as [|c content]; [split; reflexivity|].
    cbn [isEmpty orb].
    generalize (trim (String c content)). intros t.
    destruct t as [|d t]; cbn; split; reflexivity.
  - eexists. split; [reflexivity|]. split; [apply safe_name_chars|].
    destruct (isEmpty (trim value)) eqn:E; [discriminate|].
    destruct (trim value); [discriminate|discriminate].
  - intros size. unfold has_gpx_extension, gpx_file_name. cbn [Main.name].
    rewrite toLowerCase_append. apply endsWith_append.
Qed.

End ConverterPage.
